(** * Document ingestion and message orchestration of the chat server

    A shallow embedding of [app/services/message_service.py],
    [app/services/document_service.py], [app/services/rag_service.py] and the
    ORM models they use ([app/models/*.py]), followed by the properties of the
    specification that concern them.

    Conventions of the embedding.
    - Python [str] is [string] where the code hands it on, compares it or
      concatenates it (identifiers, names, message contents).  The text of a
      document, whose length and whitespace ingestion depends on, is the list
      of its code points ([codepoints]): [len] is [length] and [str.isspace]
      is decided character by character.  [bytes] are a [string].
    - [datetime] is a natural number read from a clock that advances at
      every reading.
    - A table is the list of its rows in insertion order.  The primary key
      makes at most one row carry a given [id], so [scalar_one_or_none] on an
      [id] filter is [find].
    - The request session is created with [autoflush=False]
      ([app/database.py]): a SELECT sees the committed rows only.  What
      [db.add] and attribute writes stage is kept as a list of pending
      operations, flushed by [commit] and dropped by [rollback].
    - Column defaults ([generate_ulid], [datetime.utcnow]) are drawn when the
      row is staged; no modelled path reads between staging and flush.
    - Code raises: a computation is a function from the world to a result
      (a value or the exception raised) and the world it leaves behind. *)

From Stdlib Require Import String Ascii List Arith Bool Lia PeanoNat.
From Stdlib Require Import NArith DecimalString Permutation Sorted.
Import ListNotations.
Open Scope string_scope.
Open Scope list_scope.

Set Implicit Arguments.

(** ** Enumerations of the models *)

(** [app/models/document.py] *)
Inductive FileType := PDF | MARKDOWN | TEXT.
Inductive DocumentStatus := PROCESSING | COMPLETED | FAILED.

(** [app/models/message.py] *)
Inductive MessageRole := USER | ASSISTANT.

Definition datetime := nat.

(** A Python [str] read character by character: its Unicode code points. *)
Definition codepoint := N.
Definition codepoints := list codepoint.

(** The characters of a literal of ASCII characters. *)
Definition codepoints_of_string (s : string) : codepoints :=
  map N_of_ascii (list_ascii_of_string s).

Definition FileType_value (t : FileType) : string :=
  match t with PDF => "pdf" | MARKDOWN => "md" | TEXT => "txt" end.

Definition DocumentStatus_eqb (a b : DocumentStatus) : bool :=
  match a, b with
  | PROCESSING, PROCESSING | COMPLETED, COMPLETED | FAILED, FAILED => true
  | _, _ => false
  end.

Definition MessageRole_value (r : MessageRole) : string :=
  match r with USER => "user" | ASSISTANT => "assistant" end.

Definition is_None {A} (o : option A) : bool :=
  match o with None => true | Some _ => false end.

Definition str_of_nat (n : nat) : string := NilZero.string_of_uint (Nat.to_uint n).

(** ** Rows *)

(** [SourceInfo] entries stored in [Message.sources]. *)
Module SourceInfo.
Record t := mk {
    document_id : option string;
    document_name : string;
    chunk_id : string;
    page : option nat;
    similarity : nat;
    content_preview : codepoints
  }.
End SourceInfo.

Module Document.
Record t := mk {
    id : string;
    userId : option string;
    filename : string;
    filePath : string;
    fileType : FileType;
    fileSize : nat;
    status : DocumentStatus;
    chunkCount : option nat;
    createdAt : datetime;
    updatedAt : datetime;
    deletedAt : option datetime
  }.
Definition set_status (s : DocumentStatus) (d : t) : t :=
    mk (id d) (userId d) (filename d) (filePath d) (fileType d) (fileSize d)
       s (chunkCount d) (createdAt d) (updatedAt d) (deletedAt d).
Definition set_chunkCount (n : option nat) (d : t) : t :=
    mk (id d) (userId d) (filename d) (filePath d) (fileType d) (fileSize d)
       (status d) n (createdAt d) (updatedAt d) (deletedAt d).
Definition set_filePath (p : string) (d : t) : t :=
    mk (id d) (userId d) (filename d) p (fileType d) (fileSize d)
       (status d) (chunkCount d) (createdAt d) (updatedAt d) (deletedAt d).
End Document.

Module Category.
Record t := mk {
    id : string;
    userId : option string;
    name : string;
    deletedAt : option datetime
  }.
End Category.

Module Chat.
Record t := mk {
    id : string;
    userId : option string;
    categoryId : option string;
    title : string;
    createdAt : datetime;
    updatedAt : datetime;
    deletedAt : option datetime
  }.
Definition set_updatedAt (u : datetime) (c : t) : t :=
    mk (id c) (userId c) (categoryId c) (title c) (createdAt c) u (deletedAt c).
End Chat.

Module Message.
Record t := mk {
    id : string;
    chatId : string;
    role : MessageRole;
    content : string;
    sources : option (list SourceInfo.t);
    createdAt : datetime;
    deletedAt : option datetime
  }.
End Message.

Module ChatDocument.
Record t := mk {
    id : string;
    chatId : string;
    documentId : string;
    addedAt : datetime;
    deletedAt : option datetime
  }.
End ChatDocument.

Module MessageDocument.
Record t := mk {
    id : string;
    messageId : string;
    documentId : string;
    deletedAt : option datetime
  }.
End MessageDocument.

(** ** The relational store and the session's unit of work *)

Record Tables := mkTables {
  documents : list Document.t;
  categories : list Category.t;
  chats : list Chat.t;
  messages : list Message.t;
  chat_documents : list ChatDocument.t;
  message_documents : list MessageDocument.t
}.

Definition empty_tables : Tables := mkTables [] [] [] [] [] [].

(** What a session holds between two flushes. *)
Inductive Pending :=
| Add_Document (d : Document.t)
| Add_Chat (c : Chat.t)
| Add_Message (m : Message.t)
| Add_ChatDocument (e : ChatDocument.t)
| Add_MessageDocument (e : MessageDocument.t)
| Set_Chat_updatedAt (chat_id : string) (u : datetime)
| Set_Document_status (document_id : string) (s : DocumentStatus)
| Set_Document_chunkCount (document_id : string) (n : nat)
| Set_Document_filePath (document_id : string) (p : string)
| Delete_Document (document_id : string).

Definition update_where {A} (p : A -> bool) (f : A -> A) (l : list A) : list A :=
  map (fun x => if p x then f x else x) l.

Definition flush_one (t : Tables) (op : Pending) : Tables :=
  match op with
  | Add_Document d =>
      mkTables (documents t ++ [d]) (categories t) (chats t) (messages t)
               (chat_documents t) (message_documents t)
  | Add_Chat c =>
      mkTables (documents t) (categories t) (chats t ++ [c]) (messages t)
               (chat_documents t) (message_documents t)
  | Add_Message m =>
      mkTables (documents t) (categories t) (chats t) (messages t ++ [m])
               (chat_documents t) (message_documents t)
  | Add_ChatDocument e =>
      mkTables (documents t) (categories t) (chats t) (messages t)
               (chat_documents t ++ [e]) (message_documents t)
  | Add_MessageDocument e =>
      mkTables (documents t) (categories t) (chats t) (messages t)
               (chat_documents t) (message_documents t ++ [e])
  | Set_Chat_updatedAt cid u =>
      mkTables (documents t) (categories t)
               (update_where (fun c => Chat.id c =? cid) (Chat.set_updatedAt u) (chats t))
               (messages t) (chat_documents t) (message_documents t)
  | Set_Document_status did s =>
      mkTables (update_where (fun d => Document.id d =? did) (Document.set_status s)
                             (documents t))
               (categories t) (chats t) (messages t)
               (chat_documents t) (message_documents t)
  | Set_Document_chunkCount did n =>
      mkTables (update_where (fun d => Document.id d =? did)
                             (Document.set_chunkCount (Some n)) (documents t))
               (categories t) (chats t) (messages t)
               (chat_documents t) (message_documents t)
  | Set_Document_filePath did p =>
      mkTables (update_where (fun d => Document.id d =? did) (Document.set_filePath p)
                             (documents t))
               (categories t) (chats t) (messages t)
               (chat_documents t) (message_documents t)
  | Delete_Document did =>
      mkTables (filter (fun d => negb (Document.id d =? did)) (documents t))
               (categories t) (chats t) (messages t)
               (chat_documents t) (message_documents t)
  end.

Definition flush (t : Tables) (ops : list Pending) : Tables :=
  fold_left flush_one ops t.

(** ** Exceptions *)

Inductive exn :=
| HTTPException (status_code : nat) (detail : string)
| Exception (message : string).

(** [str(e)] *)
Definition str (e : exn) : string :=
  match e with
  | HTTPException c d => str_of_nat c ++ ": " ++ d
  | Exception m => m
  end.

Inductive result (A : Type) :=
| Ok (a : A)
| Raise (e : exn).
Arguments Ok {A} a.
Arguments Raise {A} e.

(** ** The vector index and the calls made to the model *)

(** Metadata of an indexed chunk: what [add_document_to_vectorstore] writes
    and what [dict.get] reads back. *)
Record ChunkMetadata := mkMeta {
  meta_filename : option string;
  meta_fileType : option string;
  meta_document_id : option string;
  meta_chunk_index : option nat
}.

Record LangchainDocument := mkLC {
  page_content : codepoints;
  metadata : ChunkMetadata
}.

(** One turn of the history: the dict with keys role and content. *)
Record Turn := mkTurn {
  turn_role : string;
  turn_content : string
}.

(** The arguments of one [RAGService.generate_response] call. *)
Record LLMCall := mkCall {
  call_query : string;
  call_context_chunks : list LangchainDocument;
  call_conversation_history : list Turn
}.

(** [app/config.py] *)
Record Settings := mkSettings {
  CHUNK_SIZE : nat;
  CHUNK_OVERLAP : nat;
  TOP_K_RESULTS : nat;
  MAX_CONVERSATION_HISTORY : nat
}.

Definition default_settings : Settings := mkSettings 1000 200 4 10.

(** ** The world *)

Record World := mkWorld {
  db : Tables;
  pending : list Pending;
  ulid_count : nat;
  clock : datetime;
  vectorstore : list LangchainDocument;
  llm_calls : list LLMCall;
  background_tasks : list string
}.

(** What lies outside the program: the identifier generator, object storage
    and text extraction libraries, the embedding service behind the vector
    index, the similarity search and the language model. *)
Record Env := mkEnv {
  settings : Settings;
  ULID : nat -> string;
  download_as_bytes : string -> result string;
  PdfReader_pages : string -> result (list codepoints);
  decode_utf8 : string -> result codepoints;
  embed_error : list LangchainDocument -> option exn;
  similarity_search :
    list LangchainDocument -> string -> nat -> option (list string) ->
    result (list LangchainDocument);
  ainvoke : LLMCall -> result string;
  history_select_error : option exn;
  gcs_upload : string -> string -> result string
}.

(** ** Computations *)

Definition M (A : Type) : Type := World -> result A * World.

Definition ret {A} (a : A) : M A := fun w => (Ok a, w).
Definition raise {A} (e : exn) : M A := fun w => (Raise e, w).
Definition bind {A B} (m : M A) (k : A -> M B) : M B :=
  fun w => match m w with
           | (Ok a, w') => k a w'
           | (Raise e, w') => (Raise e, w')
           end.
(** [try: m  except Exception as e: h e] *)
Definition try_except {A} (m : M A) (h : exn -> M A) : M A :=
  fun w => match m w with
           | (Ok a, w') => (Ok a, w')
           | (Raise e, w') => h e w'
           end.
Definition lift {A} (r : result A) : M A := fun w => (r, w).
Definition gets {A} (f : World -> A) : M A := fun w => (Ok (f w), w).

Declare Scope comp_scope.
Delimit Scope comp_scope with comp.
Notation "x <- m ;; k" := (bind m (fun x => k))
  (at level 100, m at next level, right associativity) : comp_scope.
Notation "m ;;; k" := (bind m (fun _ => k))
  (at level 100, right associativity) : comp_scope.
Open Scope comp_scope.

(** *** Session primitives *)

Definition db_stage (op : Pending) : M unit :=
  fun w => (Ok tt, mkWorld (db w) (pending w ++ [op]) (ulid_count w) (clock w)
                           (vectorstore w) (llm_calls w) (background_tasks w)).

Definition db_commit : M unit :=
  fun w => (Ok tt, mkWorld (flush (db w) (pending w)) [] (ulid_count w) (clock w)
                           (vectorstore w) (llm_calls w) (background_tasks w)).

Definition db_rollback : M unit :=
  fun w => (Ok tt, mkWorld (db w) [] (ulid_count w) (clock w)
                           (vectorstore w) (llm_calls w) (background_tasks w)).

(** [session.close()]: what was not committed is lost. *)
Definition db_close : M unit := db_rollback.

Definition generate_ulid (E : Env) : M string :=
  fun w => (Ok (ULID E (ulid_count w)),
            mkWorld (db w) (pending w) (S (ulid_count w)) (clock w)
                    (vectorstore w) (llm_calls w) (background_tasks w)).

Definition utcnow : M datetime :=
  fun w => (Ok (clock w),
            mkWorld (db w) (pending w) (ulid_count w) (S (clock w))
                    (vectorstore w) (llm_calls w) (background_tasks w)).

(** The three effects outside the relational store: the record of a call to
    the model, [vectorstore.add_documents] and [background_tasks.add_task]. *)
Definition record_call (call : LLMCall) : M unit :=
  fun w => (Ok tt, mkWorld (db w) (pending w) (ulid_count w) (clock w)
                           (vectorstore w) (llm_calls w ++ [call]) (background_tasks w)).

Definition add_documents (documents : list LangchainDocument) : M unit :=
  fun w => (Ok tt, mkWorld (db w) (pending w) (ulid_count w) (clock w)
                           (vectorstore w ++ documents) (llm_calls w) (background_tasks w)).

Definition add_task (document_id : string) : M unit :=
  fun w => (Ok tt, mkWorld (db w) (pending w) (ulid_count w) (clock w)
                           (vectorstore w) (llm_calls w)
                           (background_tasks w ++ [document_id])).

(** ** Request and response schemas ([app/schemas/message.py]) *)

Record MessageCreate := mkMessageCreate {
  content : string;
  chat_id : option string;
  document_ids : option (list string);
  category_id : option string;
  user_id : string
}.

Record DocumentAttachment := mkAttachment {
  att_id : string;
  att_filename : string
}.

Record MessageResponse := mkMessageResponse {
  resp_id : string;
  resp_chat_id : string;
  resp_role : string;
  resp_content : string;
  resp_attached_documents : list DocumentAttachment;
  resp_sources : option (list SourceInfo.t);
  resp_created_at : datetime
}.

Record ChatCreateInfo := mkChatCreateInfo {
  info_id : string;
  info_title : string;
  info_category : option (string * string);
  info_documents : list (string * string);
  info_created_at : datetime
}.

Record MessageCreateResponse := mkMessageCreateResponse {
  chat : option ChatCreateInfo;
  user_message : MessageResponse;
  assistant_message : MessageResponse
}.

(** Python truthiness of an optional list and of an optional string. *)
Definition truthy_list {A} (o : option (list A)) : bool :=
  match o with Some (_ :: _) => true | _ => false end.
Definition truthy_str (o : option string) : bool :=
  match o with Some s => negb (s =? "") | None => false end.
Definition list_of {A} (o : option (list A)) : list A :=
  match o with Some l => l | None => [] end.

(** ** [CategoryService.validate_category_ownership], [ChatService.validate_chat_ownership] *)

Definition validate_category_ownership (category_id user_id : string) : M Category.t :=
  t <- gets db ;;
  match find (fun c => (Category.id c =? category_id) && is_None (Category.deletedAt c))
             (categories t) with
  | None => raise (HTTPException 404 "Category not found.")
  | Some category =>
      match Category.userId category with
      | Some u => if u =? user_id then ret category
                  else raise (HTTPException 404 "Category not found._.")
      | None => raise (HTTPException 404 "Category not found._.")
      end
  end.

Definition validate_chat_ownership (chat_id user_id : string) : M Chat.t :=
  t <- gets db ;;
  match find (fun c => (Chat.id c =? chat_id) && is_None (Chat.deletedAt c)) (chats t) with
  | None => raise (HTTPException 404 "Chat not found.")
  | Some chat =>
      match Chat.userId chat with
      | Some u => if u =? user_id then ret chat
                  else raise (HTTPException 404 "Chat not found._.")
      | None => raise (HTTPException 404 "Chat not found._.")
      end
  end.

(** ** [MessageService] ([app/services/message_service.py]) *)

Definition _get_document (doc_id : string) : M Document.t :=
  t <- gets db ;;
  match find (fun d => (Document.id d =? doc_id) && is_None (Document.deletedAt d))
             (documents t) with
  | None => raise (HTTPException 404 ("Document " ++ doc_id ++ " not found."))
  | Some document => ret document
  end.

(** [scalar_one] raises when no chat carries the id. *)
Definition _update_chat_timestamp (chat_id : string) : M unit :=
  t <- gets db ;;
  match find (fun c => Chat.id c =? chat_id) (chats t) with
  | None => raise (Exception "No row was found when one was required")
  | Some chat_to_update =>
      now <- utcnow ;;
      db_stage (Set_Chat_updatedAt (Chat.id chat_to_update) now)
  end.

(** The loop of [_attach_documents_to_message], with its two accumulators. *)
Fixpoint attach_loop (E : Env) (message_id : string) (document_ids : list string)
    (attached_documents : list DocumentAttachment) (documents_for_rag : list Document.t)
  : M (list DocumentAttachment * list Document.t) :=
  match document_ids with
  | [] => ret (attached_documents, documents_for_rag)
  | doc_id :: rest =>
      document <- _get_document doc_id ;;
      new_id <- generate_ulid E ;;
      db_stage (Add_MessageDocument
                  (MessageDocument.mk new_id message_id (Document.id document) None)) ;;;
      attach_loop E message_id rest
        (attached_documents ++ [mkAttachment (Document.id document) (Document.filename document)])
        (if DocumentStatus_eqb (Document.status document) COMPLETED
         then documents_for_rag ++ [document] else documents_for_rag)
  end.

Definition _attach_documents_to_message (E : Env) (message_id : string)
    (document_ids : list string) : M (list DocumentAttachment * list Document.t) :=
  r <- attach_loop E message_id document_ids [] [] ;;
  db_commit ;;;
  ret r.

(** The loop of [_get_chat_documents_for_rag] over the chat's live edges. *)
Fixpoint chat_docs_loop (t : Tables) (chat_documents : list ChatDocument.t)
    (documents_for_rag : list Document.t) : list Document.t :=
  match chat_documents with
  | [] => documents_for_rag
  | chat_doc :: rest =>
      match find (fun d => (Document.id d =? ChatDocument.documentId chat_doc)
                           && is_None (Document.deletedAt d)) (documents t) with
      | Some doc =>
          if DocumentStatus_eqb (Document.status doc) COMPLETED
          then chat_docs_loop t rest (documents_for_rag ++ [doc])
          else chat_docs_loop t rest documents_for_rag
      | None => chat_docs_loop t rest documents_for_rag
      end
  end.

Definition _get_chat_documents_for_rag (chat_id : string) : M (list Document.t) :=
  t <- gets db ;;
  let chat_documents :=
    filter (fun e => (ChatDocument.chatId e =? chat_id) && is_None (ChatDocument.deletedAt e))
           (chat_documents t) in
  ret (chat_docs_loop t chat_documents []).

(** [ORDER BY createdAt DESC]: insertion into a list kept latest first. *)
Fixpoint insert_desc (m : Message.t) (l : list Message.t) : list Message.t :=
  match l with
  | [] => [m]
  | x :: l' =>
      if (Message.createdAt x <=? Message.createdAt m)%nat then m :: l
      else x :: insert_desc m l'
  end.

Definition order_by_createdAt_desc (l : list Message.t) : list Message.t :=
  fold_right insert_desc [] l.

(** The rows the history query selects, still as rows. *)
Definition history_rows (t : Tables) (chat_id : string) (limit : nat) : list Message.t :=
  let selected :=
    firstn (limit * 2)
      (order_by_createdAt_desc
         (filter (fun m => (Message.chatId m =? chat_id) && is_None (Message.deletedAt m))
                 (messages t))) in
  rev selected.

Definition turn_of (msg : Message.t) : Turn :=
  mkTurn (MessageRole_value (Message.role msg)) (Message.content msg).

Definition _get_conversation_history (E : Env) (chat_id : string) (limit : nat)
  : M (list Turn) :=
  match history_select_error E with
  | Some e => raise e
  | None =>
      t <- gets db ;;
      ret (map turn_of (history_rows t chat_id limit))
  end.

(** ** [RAGService]: retrieval and generation ([app/services/rag_service.py]) *)

(** [k = k or TOP_K_RESULTS]; the search is filtered on the document ids when
    the list is not empty. *)
Definition search_similar_chunks (E : Env) (query : string) (document_ids : list string)
  : M (list LangchainDocument) :=
  vs <- gets vectorstore ;;
  let k := TOP_K_RESULTS (settings E) in
  match document_ids with
  | _ :: _ => lift (similarity_search E vs query k (Some document_ids))
  | [] => lift (similarity_search E vs query k None)
  end.

(** [generate_response] formats a prompt out of its three arguments and awaits
    the model on it: the answer is the model's, the call is recorded. *)
Definition generate_response (E : Env) (query : string)
    (context_chunks : list LangchainDocument) (conversation_history : list Turn)
  : M string :=
  let call := mkCall query context_chunks conversation_history in
  record_call call ;;;
  lift (ainvoke E call).

(** ** [MessageService._generate_ai_response] *)

(** [Message(...)] followed by [db.add]. *)
Definition add_message (E : Env) (chat_id : string) (role : MessageRole)
    (content : string) (sources : option (list SourceInfo.t)) : M Message.t :=
  new_id <- generate_ulid E ;;
  now <- utcnow ;;
  let message := Message.mk new_id chat_id role content sources now None in
  db_stage (Add_Message message) ;;;
  ret message.

Definition str_of_option (o : option string) : string :=
  match o with Some s => s | None => "None" end.

(** The citation built for the chunk at position [i]. *)
Definition source_of (i : nat) (chunk : LangchainDocument) : SourceInfo.t :=
  let doc_id := meta_document_id (metadata chunk) in
  let filename :=
    match meta_filename (metadata chunk) with Some f => f | None => "Unknown" end in
  let chunk_index :=
    match meta_chunk_index (metadata chunk) with Some j => j | None => i end in
  let content := firstn 200 (page_content chunk) in
  SourceInfo.mk doc_id filename (str_of_option doc_id ++ "_" ++ str_of_nat chunk_index)
                None 0 content.

Fixpoint enumerate_from {A} (i : nat) (l : list A) : list (nat * A) :=
  match l with
  | [] => []
  | x :: l' => (i, x) :: enumerate_from (S i) l'
  end.

Definition sources_of (context_chunks : list LangchainDocument) : list SourceInfo.t :=
  map (fun ic => source_of (fst ic) (snd ic)) (enumerate_from 0 context_chunks).

(** Lines 232-292: history, retrieval and the model call; yields the content
    and the citations of the assistant turn. *)
Definition generate_content (E : Env) (chat_id user_query : string)
    (documents_for_rag : list Document.t) : M (string * option (list SourceInfo.t)) :=
  conversation_history <-
    _get_conversation_history E chat_id (MAX_CONVERSATION_HISTORY (settings E)) ;;
  match documents_for_rag with
  | _ :: _ =>
      let document_ids := map Document.id documents_for_rag in
      context_chunks <- search_similar_chunks E user_query document_ids ;;
      match context_chunks with
      | _ :: _ =>
          assistant_content <-
            generate_response E user_query context_chunks conversation_history ;;
          let sources := sources_of context_chunks in
          ret (assistant_content, match sources with [] => None | _ => Some sources end)
      | [] =>
          assistant_content <- generate_response E user_query [] conversation_history ;;
          ret (assistant_content, None)
      end
  | [] =>
      assistant_content <- generate_response E user_query [] conversation_history ;;
      ret (assistant_content, None)
  end.

(** Lines 294-308, and again 313-326: the assistant turn is staged, the chat
    touched, and both committed. *)
Definition persist_assistant (E : Env) (chat_id content : string)
    (sources : option (list SourceInfo.t)) : M Message.t :=
  assistant_message <- add_message E chat_id ASSISTANT content sources ;;
  _update_chat_timestamp chat_id ;;;
  db_commit ;;;
  ret assistant_message.

Definition apology : string :=
  "죄송합니다. AI 응답 생성 중 오류가 발생했습니다: ".

Definition _generate_ai_response (E : Env) (chat_id user_query : string)
    (documents_for_rag : list Document.t) : M Message.t :=
  try_except
    (cs <- generate_content E chat_id user_query documents_for_rag ;;
     persist_assistant E chat_id (fst cs) (snd cs))
    (fun e =>
       db_rollback ;;;
       persist_assistant E chat_id (apology ++ str e) None).

(** ** [MessageService._create_new_chat_with_message] *)

(** The loop that links the named documents to the new chat. *)
Fixpoint link_loop (E : Env) (new_chat_id : string) (document_ids : list string)
    (documents_info : list (string * string)) : M (list (string * string)) :=
  match document_ids with
  | [] => ret documents_info
  | doc_id :: rest =>
      document <-
        try_except (_get_document doc_id)
          (fun e => match e with
                    | HTTPException _ _ => db_rollback ;;; raise e
                    | Exception _ => raise e
                    end) ;;
      if DocumentStatus_eqb (Document.status document) FAILED
      then
        db_rollback ;;;
        raise (HTTPException 400
                 ("Document " ++ Document.filename document ++ " processing failed."))
      else
        new_id <- generate_ulid E ;;
        now <- utcnow ;;
        db_stage (Add_ChatDocument
                    (ChatDocument.mk new_id new_chat_id (Document.id document) now None)) ;;;
        link_loop E new_chat_id rest
          (documents_info ++ [(Document.id document, Document.filename document)])
  end.

Definition _create_new_chat_with_message (E : Env) (message_data : MessageCreate)
  : M ChatCreateInfo :=
  category_info <-
    (if truthy_str (category_id message_data)
     then
       category <- validate_category_ownership
                     (match category_id message_data with Some c => c | None => "" end)
                     (user_id message_data) ;;
       ret (Some (Category.id category, Category.name category))
     else ret None) ;;
  let title :=
    if (50 <? String.length (content message_data))%nat
    then substring 0 50 (content message_data)
    else content message_data in
  new_id <- generate_ulid E ;;
  now <- utcnow ;;
  let new_chat :=
    Chat.mk new_id (Some (user_id message_data)) (category_id message_data) title
            now now None in
  db_stage (Add_Chat new_chat) ;;;
  db_commit ;;;
  documents_info <-
    (if truthy_list (document_ids message_data)
     then
       info <- link_loop E (Chat.id new_chat) (list_of (document_ids message_data)) [] ;;
       db_commit ;;;
       ret info
     else ret []) ;;
  ret (mkChatCreateInfo (Chat.id new_chat) (Chat.title new_chat) category_info
                        documents_info (Chat.createdAt new_chat)).

(** ** [MessageService.create_message] *)

(** Lines 434-449: the chat the message goes to, newly created or validated. *)
Definition resolve_chat (E : Env) (message_data : MessageCreate)
  : M (option ChatCreateInfo * string) :=
  match chat_id message_data with
  | None =>
      chat_info <- _create_new_chat_with_message E message_data ;;
      ret (Some chat_info, info_id chat_info)
  | Some cid =>
      chat <- validate_chat_ownership cid (user_id message_data) ;;
      ret (None, Chat.id chat)
  end.

(** Lines 462-482: the attachments of the user message and the documents
    handed to retrieval. *)
Definition resolve_documents (E : Env) (message_data : MessageCreate)
    (chat_id user_message_id : string) : M (list DocumentAttachment * list Document.t) :=
  if truthy_list (document_ids message_data)
  then _attach_documents_to_message E user_message_id (list_of (document_ids message_data))
  else
    documents_for_rag <- _get_chat_documents_for_rag chat_id ;;
    match documents_for_rag with
    | _ :: _ => ret ([], documents_for_rag)
    | [] =>
        t <- gets db ;;
        ret ([], filter (fun d =>
                           match Document.userId d with
                           | Some u => u =? user_id message_data
                           | None => false
                           end
                           && DocumentStatus_eqb (Document.status d) COMPLETED
                           && is_None (Document.deletedAt d))
                        (documents t))
    end.

Definition response_of (m : Message.t) (attached : list DocumentAttachment)
  : MessageResponse :=
  mkMessageResponse (Message.id m) (Message.chatId m) (MessageRole_value (Message.role m))
                    (Message.content m) attached (Message.sources m) (Message.createdAt m).

Definition create_message (E : Env) (message_data : MessageCreate)
  : M MessageCreateResponse :=
  ci <- resolve_chat E message_data ;;
  let chat_info := fst ci in
  let chat_id := snd ci in
  user_message <- add_message E chat_id USER (content message_data) None ;;
  db_commit ;;;
  ad <- resolve_documents E message_data chat_id (Message.id user_message) ;;
  let attached_documents := fst ad in
  let documents_for_rag := snd ad in
  assistant_message <-
    _generate_ai_response E chat_id (content message_data) documents_for_rag ;;
  ret (mkMessageCreateResponse chat_info
         (mkMessageResponse (Message.id user_message) (Message.chatId user_message)
            (MessageRole_value (Message.role user_message)) (Message.content user_message)
            attached_documents None (Message.createdAt user_message))
         (response_of assistant_message [])).

(** Lines 434-482: everything [create_message] does before generation. *)
Definition orchestration_prefix (E : Env) (message_data : MessageCreate)
  : M (option ChatCreateInfo * string * Message.t
       * list DocumentAttachment * list Document.t) :=
  ci <- resolve_chat E message_data ;;
  user_message <- add_message E (snd ci) USER (content message_data) None ;;
  db_commit ;;;
  ad <- resolve_documents E message_data (snd ci) (Message.id user_message) ;;
  ret (fst ci, snd ci, user_message, fst ad, snd ad).

(** A session just made by [AsyncSessionLocal()] holds nothing. *)
Definition db_open : M unit := db_rollback.

(** [POST /api/v1/messages] ([app/routers/messages.py] with [get_db]): the
    service runs in a session of its own, closed whatever the outcome. *)
Definition post_messages (E : Env) (message_data : MessageCreate)
  : M MessageCreateResponse :=
  fun w =>
    let (r, w') := create_message E message_data (snd (db_open w)) in
    (r, snd (db_close w')).

(** ** Text helpers: Python [str] methods on lists of characters *)

(** The bytes of a filename, as [upload_document] scans them. *)
Definition chars := list ascii.

(** [str.isspace] on one character, as CPython decides it (bidirectional
    class WS, B or S, or category Zs): U+0009 to U+000D, U+001C to U+0020,
    U+0085, U+00A0, U+1680, U+2000 to U+200A, U+2028, U+2029, U+202F, U+205F
    and U+3000. *)
Definition isspace (c : codepoint) : bool :=
  ((9 <=? c) && (c <=? 13) || (28 <=? c) && (c <=? 32) || (c =? 133) || (c =? 160)
   || (c =? 5760) || (8192 <=? c) && (c <=? 8202) || (c =? 8232) || (c =? 8233)
   || (c =? 8239) || (c =? 8287) || (c =? 12288))%N.

Fixpoint lstrip (s : codepoints) : codepoints :=
  match s with
  | c :: s' => if isspace c then lstrip s' else s
  | [] => []
  end.

(** [text.strip()] *)
Definition strip (s : codepoints) : codepoints := rev (lstrip (rev (lstrip s))).

Definition is_empty {A} (l : list A) : bool :=
  match l with [] => true | _ => false end.

Fixpoint starts_with (p s : codepoints) : bool :=
  match p, s with
  | [], _ => true
  | a :: p', b :: s' => (a =? b)%N && starts_with p' s'
  | _ :: _, [] => false
  end.

(** [re.search(re.escape(sep), s)] *)
Fixpoint contains (sep s : codepoints) : bool :=
  match s with
  | [] => starts_with sep []
  | _ :: s' => starts_with sep s || contains sep s'
  end.

(** The pieces of [s] between the leftmost non-overlapping occurrences of a
    non-empty [sep]; [skip] counts the characters of a matched occurrence
    still to pass, [cur] is the current piece, reversed. *)
Fixpoint split_pieces (sep : codepoints) (skip : nat) (cur s : codepoints) : list codepoints :=
  match s with
  | [] => [rev cur]
  | c :: s' =>
      match skip with
      | S k => split_pieces sep k cur s'
      | O =>
          if starts_with sep s
          then rev cur :: split_pieces sep (length sep - 1) [] s'
          else split_pieces sep 0 (c :: cur) s'
      end
  end.

(** [separator.join(docs)] *)
Fixpoint join (separator : codepoints) (docs : list codepoints) : codepoints :=
  match docs with
  | [] => []
  | d :: ds =>
      match ds with
      | [] => d
      | _ => d ++ separator ++ join separator ds
      end
  end.

(** ** The chunker: [RecursiveCharacterTextSplitter] as [split_text] builds it

    [RAGService.split_text] constructs the splitter of the langchain library
    with [chunk_size], [chunk_overlap], [length_function=len] and the four
    separators, leaving [keep_separator=True], [is_separator_regex=False] and
    [strip_whitespace=True] at their defaults, and calls its [split_text].
    The library's methods are transcribed under their own names. *)

(** [_split_text_with_regex(text, separator, keep_separator=True)]: each
    separator stays at the head of the piece that follows it; the empty
    separator gives [list(text)]; empty pieces are dropped. *)
Definition _split_text_with_regex (text separator : codepoints) : list codepoints :=
  let splits :=
    match separator with
    | [] => map (fun c => [c]) text
    | _ :: _ =>
        match split_pieces separator 0 [] text with
        | [] => []
        | p0 :: rest => p0 :: map (app separator) rest
        end
    end in
  filter (fun s => negb (is_empty s)) splits.

(** [TextSplitter._join_docs] *)
Definition _join_docs (docs : list codepoints) (separator : codepoints) : option codepoints :=
  match strip (join separator docs) with
  | [] => None
  | text => Some text
  end.

(** The [while] loop of [_merge_splits].  [total] is the length of the joined
    [current_doc], so the loop has stopped by the time the list is empty. *)
Fixpoint pop_loop (chunk_size chunk_overlap separator_len _len : nat)
    (current_doc : list codepoints) (total : nat) : list codepoints * nat :=
  match current_doc with
  | [] => ([], total)
  | d :: rest =>
      if (chunk_overlap <? total)
         || ((chunk_size <? total + _len
                            + (if 0 <? length current_doc then separator_len else 0))
             && (0 <? total))
      then pop_loop chunk_size chunk_overlap separator_len _len rest
             (total - (length d + (if 1 <? length current_doc then separator_len else 0)))
      else (current_doc, total)
  end%nat.

(** One round of the [for] loop of [_merge_splits] on the state
    [(docs, current_doc, total)]. *)
Definition merge_step (chunk_size chunk_overlap : nat) (separator : codepoints)
    (st : list codepoints * list codepoints * nat) (d : codepoints) : list codepoints * list codepoints * nat :=
  let '(docs, current_doc, total) := st in
  let separator_len := length separator in
  let _len := length d in
  let '(docs, current_doc, total) :=
    if (chunk_size <? total + _len
                      + (if 0 <? length current_doc then separator_len else 0))%nat
    then
      match current_doc with
      | [] => (docs, current_doc, total)
      | _ :: _ =>
          let docs :=
            match _join_docs current_doc separator with
            | Some doc => docs ++ [doc]
            | None => docs
            end in
          let (cd, t) :=
            pop_loop chunk_size chunk_overlap separator_len _len current_doc total in
          (docs, cd, t)
      end
    else (docs, current_doc, total) in
  let current_doc := current_doc ++ [d] in
  (docs, current_doc,
   total + (_len + (if 1 <? length current_doc then separator_len else 0)))%nat.

(** [TextSplitter._merge_splits] *)
Definition _merge_splits (chunk_size chunk_overlap : nat) (splits : list codepoints)
    (separator : codepoints) : list codepoints :=
  let '(docs, current_doc, _) :=
    fold_left (merge_step chunk_size chunk_overlap separator) splits ([], [], 0) in
  match _join_docs current_doc separator with
  | Some doc => docs ++ [doc]
  | None => docs
  end.

(** The [for s in splits] loop of [_split_text]; [recurse] is the splitter on
    the remaining separators, absent when [new_separators] is empty. *)
Fixpoint split_loop (chunk_size chunk_overlap : nat) (recurse : option (codepoints -> list codepoints))
    (splits _good_splits final_chunks : list codepoints) : list codepoints :=
  match splits with
  | [] =>
      match _good_splits with
      | [] => final_chunks
      | _ :: _ => final_chunks ++ _merge_splits chunk_size chunk_overlap _good_splits []
      end
  | s :: rest =>
      if (length s <? chunk_size)%nat
      then split_loop chunk_size chunk_overlap recurse rest (_good_splits ++ [s]) final_chunks
      else
        let final_chunks :=
          match _good_splits with
          | [] => final_chunks
          | _ :: _ => final_chunks ++ _merge_splits chunk_size chunk_overlap _good_splits []
          end in
        let final_chunks :=
          match recurse with
          | None => final_chunks ++ [s]
          | Some f => final_chunks ++ f s
          end in
        split_loop chunk_size chunk_overlap recurse rest [] final_chunks
  end.

(** [RecursiveCharacterTextSplitter._split_text]: the first separator that is
    empty or occurs in the text is used, the last one when none does; pieces
    of [chunk_size] or more go to the separators after it. *)
Fixpoint _split_text (chunk_size chunk_overlap : nat) (separators : list codepoints)
    (text : codepoints) : list codepoints :=
  match separators with
  | [] => []
  | _s :: rest =>
      if is_empty _s
      then split_loop chunk_size chunk_overlap None (_split_text_with_regex text []) [] []
      else if contains _s text
      then split_loop chunk_size chunk_overlap
             (match rest with
              | [] => None
              | _ :: _ => Some (_split_text chunk_size chunk_overlap rest)
              end)
             (_split_text_with_regex text _s) [] []
      else
        match rest with
        | [] => split_loop chunk_size chunk_overlap None (_split_text_with_regex text _s) [] []
        | _ :: _ => _split_text chunk_size chunk_overlap rest text
        end
  end.

Definition newline : codepoint := 10%N.
Definition space : codepoint := 32%N.

Definition separators : list codepoints := [[newline; newline]; [newline]; [space]; []].

(** [RAGService.split_text].  The constructor of the splitter raises
    [ValueError] when the overlap is larger than the chunk size; the text is
    split otherwise.  Releases of the library that also refuse a chunk size
    of 0 differ from this definition at 0 only; the statements on what the
    splitter returns take a positive chunk size. *)
Definition split_text (E : Env) (text : codepoints) : result (list codepoints) :=
  let chunk_size := CHUNK_SIZE (settings E) in
  let chunk_overlap := CHUNK_OVERLAP (settings E) in
  if (chunk_size <? chunk_overlap)%nat
  then Raise (Exception ("Got a larger chunk overlap (" ++ str_of_nat chunk_overlap
                         ++ ") than chunk size (" ++ str_of_nat chunk_size
                         ++ "), should be smaller."))
  else Ok (_split_text chunk_size chunk_overlap separators text).

(** The [LangchainDocument] list [add_document_to_vectorstore] builds: chunk
    [i] carries the caller's metadata, the document id and [i]. *)
Definition langchain_documents (document_id filename fileType : string)
    (chunks : list codepoints) : list LangchainDocument :=
  map (fun ic => mkLC (snd ic)
                      (mkMeta (Some filename) (Some fileType) (Some document_id)
                              (Some (fst ic))))
      (enumerate_from 0 chunks).

(** [RAGService.add_document_to_vectorstore]; [metadata] carries the filename
    and the file type. *)
Definition add_document_to_vectorstore (E : Env) (document_id : string)
    (text : codepoints) (filename fileType : string) : M nat :=
  chunks <- lift (split_text E text) ;;
  let documents := langchain_documents document_id filename fileType chunks in
  match embed_error E documents with
  | Some e => raise e
  | None =>
      add_documents documents ;;;
      ret (length chunks)
  end.

(** ** [DocumentService] ([app/services/document_service.py]) *)

(** [_extract_text_from_file]: the stored bytes are fetched, then turned into
    text according to the declared type. *)
Definition _extract_text_from_file (E : Env) (file_path : string) (file_type : FileType)
  : M codepoints :=
  file_content <- lift (download_as_bytes E file_path) ;;
  match file_type with
  | PDF =>
      pages <- lift (PdfReader_pages E file_content) ;;
      ret (strip (fold_left (fun text page => text ++ page ++ [newline]) pages []))
  | MARKDOWN | TEXT => lift (decode_utf8 E file_content)
  end.

(** [_process_document_background].  The handler of the [try] tests
    [if document]; the only raises of the model happen once the row is
    loaded, so the [try] is placed there.  The session is the task's own. *)
Definition _process_document_background (E : Env) (document_id : string) : M unit :=
  db_open ;;;
  t <- gets db ;;
  match find (fun d => Document.id d =? document_id) (documents t) with
  | None => ret tt
  | Some document =>
      try_except
        (text <- _extract_text_from_file E (Document.filePath document)
                   (Document.fileType document) ;;
         (if is_empty (strip text) then raise (Exception "Extracted text is empty")
          else ret tt) ;;;
         chunk_count <- add_document_to_vectorstore E document_id text
                          (Document.filename document)
                          (FileType_value (Document.fileType document)) ;;
         db_stage (Set_Document_status (Document.id document) COMPLETED) ;;;
         db_stage (Set_Document_chunkCount (Document.id document) chunk_count) ;;;
         db_commit)
        (fun e =>
           db_stage (Set_Document_status (Document.id document) FAILED) ;;;
           db_commit)
  end ;;;
  db_close.

Record UploadFile := mkUploadFile {
  file_filename : option string;
  file_bytes : string
}.

Record DocumentUploadResponse := mkUploadResponse {
  up_id : string;
  up_filename : string;
  up_file_path : string;
  up_file_type : string;
  up_file_size : nat;
  up_status : DocumentStatus;
  up_created_at : datetime
}.

(** [filename.split(".")[-1]] *)
Fixpoint last_segment (acc s : chars) : chars :=
  match s with
  | [] => acc
  | c :: s' => if Ascii.eqb c "."%char then last_segment [] s' else last_segment (acc ++ [c]) s'
  end.

(** [str.lower] on the ASCII letters. *)
Definition lower_char (c : ascii) : ascii :=
  let n := nat_of_ascii c in
  if ((65 <=? n) && (n <=? 90))%nat then ascii_of_nat (n + 32) else c.

Definition file_extension_of (filename : string) : string :=
  string_of_list_ascii (map lower_char (last_segment [] (list_ascii_of_string filename))).

(** [FileType(file_extension)] on the allowed extensions. *)
Definition FileType_of (ext : string) : option FileType :=
  if ext =? "pdf" then Some PDF
  else if ext =? "md" then Some MARKDOWN
  else if ext =? "txt" then Some TEXT
  else None.

Definition MAX_FILE_SIZE : N := 52428800%N.

(** [upload_document]; [background] tells whether [background_tasks] was given. *)
Definition upload_document (E : Env) (file : UploadFile) (user_id : string)
    (background : bool) : M DocumentUploadResponse :=
  match file_filename file with
  | None => raise (HTTPException 400 "Filename is required.")
  | Some name =>
      if name =? "" then raise (HTTPException 400 "Filename is required.")
      else
        let file_extension := file_extension_of name in
        match FileType_of file_extension with
        | None => raise (HTTPException 415 "UNSUPPORTED_FILE_TYPE")
        | Some file_type =>
            let file_size := String.length (file_bytes file) in
            if (MAX_FILE_SIZE <? N.of_nat file_size)%N
            then raise (HTTPException 413 "FILE_TOO_LARGE")
            else
              new_id <- generate_ulid E ;;
              now <- utcnow ;;
              let new_document :=
                Document.mk new_id (Some user_id) name "" file_type file_size
                            PROCESSING (Some 0) now now None in
              db_stage (Add_Document new_document) ;;;
              db_commit ;;;
              try_except
                (gcs_url <- lift (gcs_upload E (Document.id new_document) file_extension) ;;
                 db_stage (Set_Document_filePath (Document.id new_document) gcs_url) ;;;
                 db_commit ;;;
                 (if background then add_task (Document.id new_document) else ret tt) ;;;
                 ret (mkUploadResponse (Document.id new_document) name gcs_url
                        (FileType_value file_type) file_size PROCESSING
                        (Document.createdAt new_document)))
                (fun e =>
                   db_stage (Delete_Document (Document.id new_document)) ;;;
                   db_commit ;;;
                   raise (HTTPException 500 ("Failed to upload document: " ++ str e)))
        end
  end.

(** [POST /api/v1/documents]: FastAPI supplies the task list. *)
Definition post_documents (E : Env) (file : UploadFile) (user_id : string)
  : M DocumentUploadResponse :=
  fun w =>
    let (r, w') := upload_document E file user_id true (snd (db_open w)) in
    (r, snd (db_close w')).

(** ** The server as a transition system

    Requests arrive one at a time; between two of them the scheduler may run
    the oldest background task. *)

Inductive Operation :=
| Upload (file : UploadFile) (user_id : string)
| RunBackgroundTask
| CreateMessage (message_data : MessageCreate).

Definition run (E : Env) (op : Operation) (w : World) : World :=
  match op with
  | Upload file user_id => snd (post_documents E file user_id w)
  | RunBackgroundTask =>
      match background_tasks w with
      | [] => w
      | document_id :: rest =>
          snd (_process_document_background E document_id
                 (mkWorld (db w) (pending w) (ulid_count w) (clock w)
                          (vectorstore w) (llm_calls w) rest))
      end
  | CreateMessage message_data => snd (post_messages E message_data w)
  end.

Definition run_all (E : Env) (ops : list Operation) (w : World) : World :=
  fold_left (fun w op => run E op w) ops w.

Definition initial_world : World := mkWorld empty_tables [] 0 0 [] [] [].

Inductive reachable (E : Env) : World -> Prop :=
| reachable_initial : reachable E initial_world
| reachable_run : forall w op, reachable E w -> reachable E (run E op w).

(** The status recorded for a document id, if the row exists. *)
Definition status_of (t : Tables) (document_id : string) : option DocumentStatus :=
  option_map Document.status (find (fun d => Document.id d =? document_id) (documents t)).

(** ** Reading the store *)

(** The row [_get_document] finds for an id: present and not soft-deleted. *)
Definition doc_lookup (t : Tables) (doc_id : string) : option Document.t :=
  find (fun d => (Document.id d =? doc_id) && is_None (Document.deletedAt d)) (documents t).

(** The chat [validate_chat_ownership] accepts for a caller. *)
Definition owned_chat (t : Tables) (cid uid : string) : option Chat.t :=
  match find (fun c => (Chat.id c =? cid) && is_None (Chat.deletedAt c)) (chats t) with
  | Some c =>
      match Chat.userId c with
      | Some u => if u =? uid then Some c else None
      | None => None
      end
  | None => None
  end.


(** ** A sample deployment

    One user with a chat, a completed document linked to it, a failed
    document and a soft-deleted one; the external services answer with fixed
    values. *)

Definition sample_ULID (n : nat) : string := string_of_list_ascii (repeat "7"%char (S n)).

(** Its decoders read one character per byte, which is what UTF-8 and the
    PDF reader give on files of ASCII characters. *)
Definition sample_env : Env :=
  mkEnv default_settings sample_ULID
        (fun path => Ok path)
        (fun bytes => Ok [codepoints_of_string bytes])
        (fun bytes => Ok (codepoints_of_string bytes))
        (fun _ => None)
        (fun vs _ k ids =>
           Ok (firstn k (filter (fun c =>
                                   match ids, meta_document_id (metadata c) with
                                   | Some l, Some i => existsb (String.eqb i) l
                                   | Some _, None => false
                                   | None, _ => true
                                   end) vs)))
        (fun _ => Ok "answer")
        None
        (fun document_id ext => Ok ("https://storage/" ++ document_id ++ "." ++ ext)%string).

(** The same deployment with the model out of reach. *)
Definition sample_env_llm_down : Env :=
  mkEnv default_settings sample_ULID
        (download_as_bytes sample_env) (PdfReader_pages sample_env) (decode_utf8 sample_env)
        (embed_error sample_env) (similarity_search sample_env)
        (fun _ => Raise (Exception "Connection error."))
        None (gcs_upload sample_env).

Definition sample_tables : Tables :=
  mkTables
    [ Document.mk "doc-1" (Some "default-user") "report.pdf" "report" PDF 3000
                  COMPLETED (Some 4) 1 1 None;
      Document.mk "doc-2" (Some "default-user") "broken.pdf" "broken" PDF 10
                  FAILED (Some 0) 2 2 None;
      Document.mk "doc-3" (Some "default-user") "old.txt" "old" TEXT 10
                  COMPLETED (Some 1) 3 3 (Some 4) ]
    []
    [ Chat.mk "chat-1" (Some "default-user") None "First chat" 5 7 None ]
    [ Message.mk "msg-1" "chat-1" USER "Hello" None 6 None;
      Message.mk "msg-2" "chat-1" ASSISTANT "Hi, how can I help?" None 7 None ]
    [ ChatDocument.mk "cd-1" "chat-1" "doc-1" 5 None ]
    [].

Definition sample_world : World :=
  mkWorld sample_tables [] 0 8
          [ mkLC (codepoints_of_string "Quarterly revenue grew.")
                 (mkMeta (Some "report.pdf") (Some "pdf") (Some "doc-1") (Some 0)) ]
          [] [].

(** A named document that makes chat creation reject the request: no live
    row, or a row whose processing failed. *)
Definition rejected_at_creation (t : Tables) (doc_id : string) : Prop :=
  match doc_lookup t doc_id with
  | None => True
  | Some d => Document.status d = FAILED
  end.

(** ** The resolution tiers as the specification words them *)

Definition completed (d : Document.t) : bool :=
  DocumentStatus_eqb (Document.status d) COMPLETED.

(** The live rows a list of ids names, in order. *)
Definition live_documents (t : Tables) (ids : list string) : list Document.t :=
  flat_map (fun x => match doc_lookup t x with Some d => [d] | None => [] end) ids.

(** Tier 1: exactly the named documents, filtered to status completed. *)
Definition tier_explicit (t : Tables) (ids : list string) : list Document.t :=
  filter completed (live_documents t ids).

(** Tier 2: the non-deleted documents linked to the chat by a non-deleted
    edge, filtered to status completed. *)
Definition tier_chat (t : Tables) (cid : string) : list Document.t :=
  filter completed
    (live_documents t
       (map ChatDocument.documentId
            (filter (fun e => (ChatDocument.chatId e =? cid) && is_None (ChatDocument.deletedAt e))
                    (chat_documents t)))).

(** Tier 3: all the completed, non-deleted documents of the user. *)
Definition tier_account (t : Tables) (uid : string) : list Document.t :=
  filter (fun d => match Document.userId d with Some u => u =? uid | None => false end
                   && completed d && is_None (Document.deletedAt d))
         (documents t).

(** Every named id has a live row. *)
Definition all_live (t : Tables) (ids : list string) : bool :=
  forallb (fun x => negb (is_None (doc_lookup t x))) ids.

(** ** The history window *)

(** The non-deleted messages of a chat. *)
Definition chat_messages (t : Tables) (cid : string) : list Message.t :=
  filter (fun m => (Message.chatId m =? cid) && is_None (Message.deletedAt m)) (messages t).

Definition not_later (a b : Message.t) : Prop := Message.createdAt a <= Message.createdAt b.
Definition not_earlier (a b : Message.t) : Prop := Message.createdAt b <= Message.createdAt a.

(** ** Invariants carried through computations *)

(** [I] survives every primitive effect, as far as [ok] operations are staged. *)
Record closed (ok : Pending -> Prop) (I : World -> Prop) : Prop := mkClosed {
  closed_stage : forall op w, ok op -> I w -> I (snd (db_stage op w));
  closed_commit : forall w, I w -> I (snd (db_commit w));
  closed_rollback : forall w, I w -> I (snd (db_rollback w));
  closed_ulid : forall E w, I w -> I (snd (generate_ulid E w));
  closed_utcnow : forall w, I w -> I (snd (utcnow w));
  closed_record_call : forall c w, I w -> I (snd (record_call c w));
  closed_add_documents : forall d w, I w -> I (snd (add_documents d w))
}.

Definition keeps (I : World -> Prop) {A} (m : M A) : Prop :=
  forall w, I w -> I (snd (m w)).

(** Some chat row carries the id. *)
Definition chat_present (cid : string) (t : Tables) : Prop :=
  exists c, In c (chats t) /\ Chat.id c = cid.

(** The chunks retrieval yields for a message: none without an eligible
    document, none when the search fails. *)
Definition retrieved_chunks (E : Env) (w : World) (query : string)
    (documents_for_rag : list Document.t) : list LangchainDocument :=
  match documents_for_rag with
  | [] => []
  | _ :: _ =>
      match similarity_search E (vectorstore w) query (TOP_K_RESULTS (settings E))
                              (Some (map Document.id documents_for_rag)) with
      | Ok chunks => chunks
      | Raise _ => []
      end
  end.

(** Staged operations other than a new message. *)
Definition no_new_message (op : Pending) : Prop :=
  match op with Add_Message _ => False | _ => True end.

(** The messages table is [M0], nothing staged adds to it, and the clock has
    reached [c0]. *)
Definition messages_are (M0 : list Message.t) (c0 : datetime) (w : World) : Prop :=
  messages (db w) = M0 /\ Forall no_new_message (pending w) /\ c0 <= clock w.

(** No stored message is stamped at or after the next clock reading. *)
Definition no_message_from_the_future (w : World) : Prop :=
  forall m, In m (messages (db w)) -> Message.createdAt m < clock w.

(** ** Outcomes of ingestion *)

(** What extraction yields for a document; it depends on the stored bytes
    and the libraries only. *)
Definition extracted_text (E : Env) (document : Document.t) : result codepoints :=
  fst (_extract_text_from_file E (Document.filePath document) (Document.fileType document)
                               initial_world).

(** The chunks of a document as they are sent to the index. *)
Definition indexed_chunks (document_id : string) (document : Document.t)
    (chunks : list codepoints) : list LangchainDocument :=
  langchain_documents document_id (Document.filename document)
                      (FileType_value (Document.fileType document)) chunks.

(** Extraction raises or yields blank text, or indexing raises: the splitter
    cannot be built, or the index refuses the chunks. *)
Definition ingestion_fails (E : Env) (document_id : string) (document : Document.t) : Prop :=
  match extracted_text E document with
  | Raise _ => True
  | Ok text =>
      strip text = []
      \/ match split_text E text with
         | Raise _ => True
         | Ok chunks => embed_error E (indexed_chunks document_id document chunks) <> None
         end
  end.

(** No character of the text is whitespace for [str.isspace]. *)
Definition whitespace_free (text : codepoints) : Prop :=
  Forall (fun c => isspace c = false) text.

(** The number of chunks [_merge_splits] makes of [n] one-character pieces
    without whitespace, counted on lengths alone: [t] is [total], [k] the
    number of chunks emitted so far. *)
Fixpoint pop_total (chunk_size chunk_overlap fuel total : nat) : nat :=
  match fuel with
  | O => total
  | S fuel' =>
      if ((chunk_overlap <? total) || ((chunk_size <? total + 1 + 0) && (0 <? total)))%nat
      then pop_total chunk_size chunk_overlap fuel' (total - (1 + 0))
      else total
  end.

Definition count_step (chunk_size chunk_overlap : nat) (kt : nat * nat) : nat * nat :=
  let (k, t) := kt in
  if (chunk_size <? t + 1 + 0)%nat
  then match t with
       | O => (k, t + (1 + 0))
       | S _ => (S k, pop_total chunk_size chunk_overlap t t + (1 + 0))
       end
  else (k, t + (1 + 0)).

Definition merge_count (chunk_size chunk_overlap n : nat) : nat :=
  let (k, t) := Nat.iter n (count_step chunk_size chunk_overlap) (0, 0) in
  match t with O => k | S _ => S k end.

(** A text file of 3000 characters: a letter, 2998 tabs, a letter. *)
Definition tabbed_text : string :=
  string_of_list_ascii ("a"%char :: repeat (ascii_of_nat 9) 2998 ++ ["z"%char]).

(** The sample deployment after that file was uploaded as "notes.txt". *)
Definition world_with_tabbed_upload : World :=
  mkWorld
    (mkTables
       (documents sample_tables
        ++ [Document.mk "doc-t" (Some "default-user") "notes.txt" tabbed_text TEXT 3000
                        PROCESSING (Some 0) 8 8 None])
       [] (chats sample_tables) (messages sample_tables)
       (chat_documents sample_tables) [])
    [] 0 9 (vectorstore sample_world) [] ["doc-t"].

(** A piece made of one character that is not whitespace. *)
Definition single (d : codepoints) : Prop := exists c, d = [c] /\ isspace c = false.

(** A text file of 3000 letters. *)
Definition plain_text : string := string_of_list_ascii (repeat "a"%char 3000).

(** The sample deployment after uploads of a 3000-letter file and of a file
    holding two spaces. *)
Definition world_with_plain_upload : World :=
  mkWorld
    (mkTables
       (documents sample_tables
        ++ [Document.mk "doc-p" (Some "default-user") "plain.txt" plain_text TEXT 3000
                        PROCESSING (Some 0) 8 8 None])
       [] (chats sample_tables) (messages sample_tables)
       (chat_documents sample_tables) [])
    [] 0 9 (vectorstore sample_world) [] ["doc-p"].

Definition blank_document : Document.t :=
  Document.mk "doc-b" (Some "default-user") "blank.txt" "  " TEXT 2
              PROCESSING (Some 0) 8 8 None.

Definition world_with_blank_upload : World :=
  mkWorld
    (mkTables (documents sample_tables ++ [blank_document])
              [] (chats sample_tables) (messages sample_tables)
              (chat_documents sample_tables) [])
    [] 0 9 (vectorstore sample_world) [] ["doc-b"].

(** ** The document lifecycle *)

(** Staged operations that leave the documents table alone. *)
Definition document_neutral (op : Pending) : Prop :=
  match op with
  | Add_Document _ | Set_Document_status _ _ | Set_Document_chunkCount _ _
  | Set_Document_filePath _ _ | Delete_Document _ => False
  | _ => True
  end.

(** The documents table is [D], nothing staged touches it, the task list is
    [T] and at least [n0] identifiers were drawn. *)
Definition documents_are (D : list Document.t) (T : list string) (n0 : nat) (w : World)
  : Prop :=
  documents (db w) = D /\ Forall document_neutral (pending w)
  /\ background_tasks w = T /\ n0 <= ulid_count w.

(** What holds between two operations: stored documents and scheduled tasks
    carry identifiers already drawn, a document with a scheduled task is
    still processing, no task is scheduled twice, and every scheduled task
    has its row. *)
Definition system_inv (E : Env) (w : World) : Prop :=
  (forall d, In d (documents (db w)) ->
             exists n, n < ulid_count w /\ Document.id d = ULID E n)
  /\ (forall x, In x (background_tasks w) -> exists n, n < ulid_count w /\ x = ULID E n)
  /\ (forall d, In d (documents (db w)) -> In (Document.id d) (background_tasks w) ->
                Document.status d = PROCESSING)
  /\ NoDup (background_tasks w)
  /\ (forall x, In x (background_tasks w) ->
                exists d, In d (documents (db w)) /\ Document.id d = x).

(** The changes of a document's recorded status allowed across one
    operation: none; creation, as processing; processing to completed or to
    failed. *)
Definition allowed_change (old new : option DocumentStatus) : Prop :=
  match old, new with
  | None, None => True
  | None, Some s' => s' = PROCESSING
  | Some _, None => False
  | Some s, Some s' => s' = s \/ (s = PROCESSING /\ (s' = COMPLETED \/ s' = FAILED))
  end.

(** An uploaded text file. *)
Definition sample_file : UploadFile := mkUploadFile (Some "notes.TXT") "Some notes.".

(** * Ownership, uploads and the message listing *)

(** The category [validate_category_ownership] accepts for a caller. *)
Definition owned_category (t : Tables) (cid uid : string) : option Category.t :=
  match find (fun c => (Category.id c =? cid) && is_None (Category.deletedAt c))
             (categories t) with
  | Some c =>
      match Category.userId c with
      | Some u => if u =? uid then Some c else None
      | None => None
      end
  | None => None
  end.

(** A named document chat creation links: a live row whose processing has
    not failed. *)
Definition linkable (t : Tables) (doc_id : string) : bool :=
  match doc_lookup t doc_id with
  | Some d => negb (DocumentStatus_eqb (Document.status d) FAILED)
  | None => false
  end.

(** The environment with another vector search. *)
Definition with_similarity_search (E : Env)
    (search : list LangchainDocument -> string -> nat -> option (list string) ->
              result (list LangchainDocument)) : Env :=
  mkEnv (settings E) (ULID E) (download_as_bytes E) (PdfReader_pages E) (decode_utf8 E)
        (embed_error E) search (ainvoke E) (history_select_error E) (gcs_upload E).

(** [str.lower] on the ASCII letters of a string. *)
Definition lower (s : string) : string :=
  string_of_list_ascii (map lower_char (list_ascii_of_string s)).

(** No row of the table carries the identifier handed out next. *)
Definition next_id_unused (E : Env) (w : World) : Prop :=
  forall d, In d (documents (db w)) -> Document.id d <> ULID E (ulid_count w).

(** A file the upload checks turn down: no name, no allowed extension, or
    more bytes than [MAX_FILE_SIZE]. *)
Definition unacceptable (file : UploadFile) : Prop :=
  match file_filename file with
  | None => True
  | Some name =>
      name = ""
      \/ ~ In (file_extension_of name) ["pdf"; "md"; "txt"]
      \/ (MAX_FILE_SIZE < N.of_nat (String.length (file_bytes file)))%N
  end.

(** A chunk of at least one and at most [chunk_size] characters. *)
Definition within (chunk_size : nat) (chunk : codepoints) : Prop :=
  1 <= length chunk <= chunk_size.

(** The state of the merge loop: the chunks made so far are within bounds and
    [total] is the length of the pieces held back, itself within the size. *)
Definition merge_inv (chunk_size : nat)
    (st : list codepoints * list codepoints * nat) : Prop :=
  let '(docs, current_doc, total) := st in
  Forall (within chunk_size) docs
  /\ total = length (concat current_doc) /\ total <= chunk_size.

(** ** [MessageService.get_messages] *)

(** [ORDER BY createdAt ASC]: insertion into a list kept earliest first. *)
Fixpoint insert_asc (m : Message.t) (l : list Message.t) : list Message.t :=
  match l with
  | [] => [m]
  | x :: l' =>
      if (Message.createdAt m <=? Message.createdAt x)%nat then m :: l
      else x :: insert_asc m l'
  end.

Definition order_by_createdAt_asc (l : list Message.t) : list Message.t :=
  fold_right insert_asc [] l.

(** The join of the live edges of a message with the live documents. *)
Definition attached_documents_of (t : Tables) (message_id : string)
  : list DocumentAttachment :=
  flat_map
    (fun e =>
       map (fun doc => mkAttachment (Document.id doc) (Document.filename doc))
           (filter (fun doc => (Document.id doc =? MessageDocument.documentId e)
                               && is_None (Document.deletedAt doc))
                   (documents t)))
    (filter (fun e => (MessageDocument.messageId e =? message_id)
                      && is_None (MessageDocument.deletedAt e))
            (message_documents t)).

(** The dict [get_messages] returns. *)
Record MessageList := mkMessageList {
  list_chat_id : string;
  list_messages : list MessageResponse;
  list_total : nat;
  list_page : nat;
  list_limit : nat
}.

(** [page] is at least 1 ([Query(1, ge=1)] in [app/routers/chats.py]). *)
Definition get_messages (chat_id : string) (page limit : nat) : M MessageList :=
  let offset := (page - 1) * limit in
  t <- gets db ;;
  let messages :=
    firstn limit
      (skipn offset
         (order_by_createdAt_asc
            (filter (fun m => (Message.chatId m =? chat_id) && is_None (Message.deletedAt m))
                    (messages t)))) in
  let message_responses :=
    map (fun message => response_of message (attached_documents_of t (Message.id message)))
        messages in
  ret (mkMessageList chat_id message_responses (length message_responses) page limit).

(** The messages of one page, as answered. *)
Definition page_of (chat_id : string) (page limit : nat) (w : World) : list MessageResponse :=
  match fst (get_messages chat_id page limit w) with
  | Ok r => list_messages r
  | Raise _ => []
  end.

(** The same deployment with the object storage refusing uploads. *)
Definition sample_env_storage_down : Env :=
  mkEnv default_settings sample_ULID
        (download_as_bytes sample_env) (PdfReader_pages sample_env) (decode_utf8 sample_env)
        (embed_error sample_env) (similarity_search sample_env) (ainvoke sample_env)
        None (fun _ _ => Raise (Exception "403 Forbidden")).

(** A vector search that fails whenever it is asked without a filter. *)
Definition filtered_search_only (vs : list LangchainDocument) (query : string) (k : nat)
    (filter : option (list string)) : result (list LangchainDocument) :=
  match filter with
  | Some ids => similarity_search sample_env vs query k (Some ids)
  | None => Raise (Exception "unfiltered search")
  end.

(** * Properties *)

(** ** Stepping through computations *)

Ltac step :=
  unfold bind, gets, ret, raise, lift, try_except, db_stage, db_commit, db_rollback,
         db_open, db_close, generate_ulid, utcnow, flush in *; cbn [fst snd] in *.

(** The same by reduction alone, the world's fields being read as soon as
    they are written. *)
Ltac exec :=
  cbn [bind gets ret raise lift try_except db_stage db_commit db_rollback db_open db_close
       generate_ulid utcnow record_call add_documents add_task
       db pending ulid_count clock vectorstore llm_calls background_tasks fst snd] in *.

Lemma owned_chat_id : forall t cid uid c,
  owned_chat t cid uid = Some c -> Chat.id c = cid /\ Chat.userId c = Some uid.
Proof.
  unfold owned_chat; intros t cid uid c H.
  destruct (find _ (chats t)) as [c0|] eqn:F; [|discriminate].
  apply find_some in F. destruct F as [_ F].
  apply andb_true_iff in F. destruct F as [F _]. apply String.eqb_eq in F.
  destruct (Chat.userId c0) as [u|] eqn:U; [|discriminate].
  destruct (u =? uid) eqn:Eu; [|discriminate].
  apply String.eqb_eq in Eu. inversion H; subst. auto.
Qed.

Lemma validate_chat_ownership_ok : forall t cid uid c w,
  db w = t -> owned_chat t cid uid = Some c ->
  validate_chat_ownership cid uid w = (Ok c, w).
Proof.
  unfold owned_chat, validate_chat_ownership; intros t cid uid c w Hw H. step.
  rewrite Hw.
  destruct (find _ (chats t)) as [c0|]; [|discriminate].
  destruct (Chat.userId c0) as [u|]; [|discriminate].
  destruct (u =? uid); [|discriminate]. inversion H; subst. reflexivity.
Qed.

(** The attach loop stops at the first id that names no live document; it
    never commits. *)
Lemma attach_loop_missing : forall E mid ids att rag w,
  Exists (fun x => doc_lookup (db w) x = None) ids ->
  exists x w',
    attach_loop E mid ids att rag w
    = (Raise (HTTPException 404 ("Document " ++ x ++ " not found.")), w')
    /\ In x ids /\ doc_lookup (db w) x = None /\ db w' = db w.
Proof.
  induction ids as [|a ids IH]; intros att rag w Hex.
  - inversion Hex.
  - cbn [attach_loop]. unfold _get_document. step.
    destruct (find _ (documents (db w))) as [d|] eqn:F.
    + assert (Hex' : Exists (fun x => doc_lookup (db w) x = None) ids).
      { inversion Hex; subst; auto. unfold doc_lookup in *. congruence. }
      cbn.
      match goal with |- context [attach_loop E mid ids ?a ?r ?w0] =>
        destruct (IH a r w0 Hex') as (x & w' & Hr & Hin & Hl & Hdb) end.
      exists x, w'. rewrite Hr. cbn in *. auto.
    + exists a, w. cbn. unfold doc_lookup. auto.
Qed.

Lemma Exists_nonempty : forall {A} (P : A -> Prop) l, Exists P l -> exists a l', l = a :: l'.
Proof. intros A P l H; destruct H; eauto. Qed.

(** ** C10 *)

(** C10.  On an existing chat the caller owns, a request that names a document
    id with no live row fails with 404 for that id, while the user message,
    committed before the lookup, is in the chat: the messages table has gained
    exactly that user turn and no assistant turn, and no attachment edge. *)
Theorem C10_user_turn_kept_on_missing_document :
  forall E message_data w cid ids chat,
    chat_id message_data = Some cid ->
    owned_chat (db w) cid (user_id message_data) = Some chat ->
    document_ids message_data = Some ids ->
    Exists (fun x => doc_lookup (db w) x = None) ids ->
    exists x w' m,
      post_messages E message_data w
      = (Raise (HTTPException 404 ("Document " ++ x ++ " not found.")), w')
      /\ In x ids /\ doc_lookup (db w) x = None
      /\ messages (db w') = messages (db w) ++ [m]
      /\ Message.chatId m = cid /\ Message.role m = USER
      /\ Message.content m = content message_data
      /\ Message.deletedAt m = None
      /\ message_documents (db w') = message_documents (db w)
      /\ pending w' = [].
Proof.
  intros E message_data w cid ids chat Hc Hown Hids Hex.
  destruct (owned_chat_id _ _ _ Hown) as [Hid _].
  destruct (Exists_nonempty Hex) as (a & l' & ->).
  unfold post_messages, create_message, resolve_chat. rewrite Hc. step.
  erewrite validate_chat_ownership_ok; [|reflexivity|exact Hown]. cbn.
  unfold add_message. step. cbn.
  unfold resolve_documents. rewrite Hids. cbn [truthy_list list_of].
  unfold _attach_documents_to_message. step.
  match goal with |- context [attach_loop E ?mid ?l ?a0 ?r ?w0] =>
    destruct (@attach_loop_missing E mid l a0 r w0) as (x & w' & Hr & Hin & Hl & Hdb);
    [ cbn; exact Hex | rewrite Hr ]
  end.
  cbn in Hl, Hdb. cbn.
  eexists x, _, _. split; [reflexivity|]. cbn. rewrite Hdb. cbn.
  repeat split; auto.
Qed.

Lemma C10_witness :
  exists x w' m,
    post_messages sample_env
      (mkMessageCreate "What changed?" (Some "chat-1") (Some ["doc-1"; "doc-404"]) None
                       "default-user") sample_world
    = (Raise (HTTPException 404 ("Document " ++ x ++ " not found.")), w')
    /\ In x ["doc-1"; "doc-404"] /\ doc_lookup (db sample_world) x = None
    /\ messages (db w') = messages (db sample_world) ++ [m]
    /\ Message.chatId m = "chat-1" /\ Message.role m = USER
    /\ Message.content m = "What changed?"
    /\ Message.deletedAt m = None
    /\ message_documents (db w') = message_documents (db sample_world)
    /\ pending w' = [].
Proof.
  apply (@C10_user_turn_kept_on_missing_document sample_env
           (mkMessageCreate "What changed?" (Some "chat-1") (Some ["doc-1"; "doc-404"]) None
                            "default-user")
           sample_world "chat-1" ["doc-1"; "doc-404"]
           (Chat.mk "chat-1" (Some "default-user") None "First chat" 5 7 None)).
  - reflexivity.
  - reflexivity.
  - reflexivity.
  - apply Exists_cons_tl. apply Exists_cons_hd. reflexivity.
Defined.

(** ** C1 *)

Lemma DocumentStatus_eqb_eq : forall a b, DocumentStatus_eqb a b = true <-> a = b.
Proof. destruct a, b; cbn; split; congruence. Qed.

(** The link loop stops at the first rejected id with the session rolled
    back; it never commits, so the stored rows are those it started from. *)
Lemma link_loop_rejected : forall E cid ids info w,
  Exists (rejected_at_creation (db w)) ids ->
  exists c detail w',
    link_loop E cid ids info w = (Raise (HTTPException c detail), w')
    /\ db w' = db w /\ pending w' = [].
Proof.
  induction ids as [|a ids IH]; intros info w Hex.
  - inversion Hex.
  - cbn [link_loop]. unfold _get_document. step.
    destruct (find _ (documents (db w))) as [d|] eqn:F.
    + cbn. destruct (DocumentStatus_eqb (Document.status d) FAILED) eqn:S.
      * cbn. do 3 eexists. repeat split; reflexivity.
      * assert (Hex' : Exists (rejected_at_creation (db w)) ids).
        { inversion Hex; subst; auto. unfold rejected_at_creation, doc_lookup in *.
          rewrite F in *. apply DocumentStatus_eqb_eq in H0. congruence. }
        cbn.
        match goal with |- context [link_loop E cid ids ?i ?w0] =>
          destruct (IH i w0 Hex') as (c & dt & w' & Hr & Hdb & Hp) end.
        exists c, dt, w'. rewrite Hr. cbn in *. auto.
    + cbn. do 3 eexists. repeat split; reflexivity.
Qed.

(** For every request without chat id and category that names a rejected
    document, the request fails and the chat created for it stays stored. *)
Lemma new_chat_outlives_rejection :
  forall E message_data w ids,
    chat_id message_data = None ->
    category_id message_data = None ->
    document_ids message_data = Some ids ->
    Exists (rejected_at_creation (db w)) ids ->
    exists c detail w' new_chat,
      post_messages E message_data w = (Raise (HTTPException c detail), w')
      /\ chats (db w') = chats (db w) ++ [new_chat]
      /\ Chat.userId new_chat = Some (user_id message_data)
      /\ Chat.deletedAt new_chat = None
      /\ chat_documents (db w') = chat_documents (db w)
      /\ messages (db w') = messages (db w).
Proof.
  intros E message_data w ids Hc Hcat Hids Hex.
  assert (Ht : truthy_list (Some ids) = true) by (destruct Hex; reflexivity).
  unfold post_messages, create_message, resolve_chat. rewrite Hc.
  unfold _create_new_chat_with_message. rewrite Hcat, Hids, Ht.
  cbn [truthy_str list_of]. step. cbn.
  match goal with |- context [link_loop E ?cid ?l ?i ?w0] =>
    destruct (@link_loop_rejected E cid l i w0) as (c & dt & w' & Hr & Hdb & Hp);
    [ cbn; exact Hex | rewrite Hr ]
  end.
  cbn in Hdb. cbn. eexists c, dt, _, _. split; [reflexivity|]. cbn. rewrite Hdb. cbn.
  repeat split; auto.
Qed.

(** C1.  A request with no chat id naming "doc-1" (completed) and "doc-404"
    (absent) is rejected with 404, and the store afterwards holds the chat
    created for it: the rollback comes after the chat was committed, so it
    only drops the edge staged for "doc-1". *)
Theorem C1_rejected_creation_leaves_chat :
  let r := post_messages sample_env
             (mkMessageCreate "Summarize the report" None (Some ["doc-1"; "doc-404"]) None
                              "default-user") sample_world in
  fst r = Raise (HTTPException 404 "Document doc-404 not found.")
  /\ chats (db (snd r))
     = chats (db sample_world)
       ++ [Chat.mk (sample_ULID 0) (Some "default-user") None "Summarize the report" 8 8 None]
  /\ chat_documents (db (snd r)) = chat_documents (db sample_world)
  /\ messages (db (snd r)) = messages (db sample_world).
Proof. vm_compute. repeat split. Qed.

(** ** C3 *)

Lemma attach_loop_live : forall E mid ids att rag w,
  all_live (db w) ids = true ->
  exists w',
    attach_loop E mid ids att rag w
    = (Ok (att ++ map (fun d => mkAttachment (Document.id d) (Document.filename d))
                      (live_documents (db w) ids),
           rag ++ tier_explicit (db w) ids), w')
    /\ db w' = db w.
Proof.
  induction ids as [|a ids IH]; intros att rag w Hall.
  - cbn. unfold tier_explicit. cbn. rewrite !app_nil_r. eexists; split; reflexivity.
  - cbn in Hall. apply andb_true_iff in Hall. destruct Hall as [Ha Hall].
    cbn [attach_loop]. unfold _get_document. step.
    unfold tier_explicit, live_documents. cbn [flat_map].
    unfold doc_lookup in *.
    destruct (find _ (documents (db w))) as [d|] eqn:F; [|discriminate].
    cbn.
    match goal with |- context [attach_loop E mid ids ?a0 ?r ?w0] =>
      destruct (IH a0 r w0) as (w' & Hr & Hdb); [exact Hall|] end.
    exists w'. rewrite Hr. cbn in *. split; [|exact Hdb].
    unfold tier_explicit, live_documents, doc_lookup, completed.
    destruct (DocumentStatus_eqb (Document.status d) COMPLETED); cbn;
      rewrite <- ?app_assoc; reflexivity.
Qed.

Lemma all_live_false : forall t ids,
  all_live t ids = false -> Exists (fun x => doc_lookup t x = None) ids.
Proof.
  induction ids as [|a ids IH]; cbn; intros H; [discriminate|].
  destruct (doc_lookup t a) eqn:L; cbn in H.
  - apply Exists_cons_tl. auto.
  - apply Exists_cons_hd. exact L.
Qed.

Lemma chat_docs_loop_tier : forall t edges acc,
  chat_docs_loop t edges acc
  = acc ++ filter completed (live_documents t (map ChatDocument.documentId edges)).
Proof.
  induction edges as [|e edges IH]; intros acc; cbn.
  - now rewrite app_nil_r.
  - unfold doc_lookup.
    destruct (find _ (documents t)) as [d|]; cbn.
    + unfold completed at 1.
      destruct (DocumentStatus_eqb (Document.status d) COMPLETED); rewrite IH; cbn.
      * now rewrite <- app_assoc.
      * reflexivity.
    + apply IH.
Qed.

(** C3.  The documents handed to retrieval for a message are those of the
    first matching tier.  When ids are named: if each has a live row, exactly
    the named rows filtered to completed (all of them being recorded as
    attached), otherwise the request fails with 404 on a named id with no
    live row.  When none is named: the chat's live linked documents filtered
    to completed and, only if there is none, all the completed live documents
    of the user. *)
Theorem C3_resolution_tiers :
  forall E message_data cid mid w,
    match document_ids message_data with
    | Some ((_ :: _) as ids) =>
        if all_live (db w) ids
        then exists w',
               resolve_documents E message_data cid mid w
               = (Ok (map (fun d => mkAttachment (Document.id d) (Document.filename d))
                          (live_documents (db w) ids),
                      tier_explicit (db w) ids), w')
        else exists x w',
               resolve_documents E message_data cid mid w
               = (Raise (HTTPException 404 ("Document " ++ x ++ " not found.")), w')
               /\ In x ids /\ doc_lookup (db w) x = None
    | _ =>
        resolve_documents E message_data cid mid w
        = (Ok ([], match tier_chat (db w) cid with
                   | [] => tier_account (db w) (user_id message_data)
                   | linked => linked
                   end), w)
    end.
Proof.
  intros E message_data cid mid w.
  assert (Hfall :
    truthy_list (document_ids message_data) = false ->
    resolve_documents E message_data cid mid w
    = (Ok ([], match tier_chat (db w) cid with
               | [] => tier_account (db w) (user_id message_data)
               | linked => linked
               end), w)).
  { intros Ht. unfold resolve_documents. rewrite Ht.
    unfold _get_chat_documents_for_rag. step.
    rewrite chat_docs_loop_tier. cbn [app]. fold (tier_chat (db w) cid).
    destruct (tier_chat (db w) cid); reflexivity. }
  destruct (document_ids message_data) as [[|a l]|] eqn:Hids; try (apply Hfall; reflexivity).
  clear Hfall. remember (a :: l) as ids eqn:Eids.
  assert (Ht : truthy_list (Some ids) = true) by (subst; reflexivity).
  unfold resolve_documents. rewrite Hids, Ht. cbn [list_of].
  unfold _attach_documents_to_message. step.
  destruct (all_live (db w) ids) eqn:Hall.
  - destruct (@attach_loop_live E mid ids [] [] w Hall) as (w' & Hr & Hdb).
    rewrite Hr. cbn. eauto.
  - destruct (@attach_loop_missing E mid ids [] [] w (all_live_false _ _ Hall))
      as (x & w' & Hr & Hin & Hl & Hdb).
    rewrite Hr. eauto.
Qed.

(** ** C7 *)

Section Ordering.

Lemma insert_desc_perm : forall m l, Permutation (insert_desc m l) (m :: l).
  Proof.
    induction l as [|x l IH]; cbn; auto.
    destruct (Message.createdAt x <=? Message.createdAt m)%nat; auto.
    rewrite IH. apply perm_swap.
  Qed.

Lemma order_by_createdAt_desc_perm : forall l, Permutation (order_by_createdAt_desc l) l.
  Proof.
    induction l as [|x l IH]; cbn; auto.
    rewrite insert_desc_perm. auto.
  Qed.

Lemma insert_desc_sorted : forall m l,
    StronglySorted not_earlier l -> StronglySorted not_earlier (insert_desc m l).
  Proof.
    induction l as [|x l IH]; cbn; intros Hs.
    - constructor; auto.
    - apply StronglySorted_inv in Hs. destruct Hs as [Hl Hx].
      destruct (Message.createdAt x <=? Message.createdAt m)%nat eqn:Hc.
      + apply Nat.leb_le in Hc. constructor.
        * constructor; auto.
        * constructor; [exact Hc|].
          rewrite Forall_forall in *. intros y Hy. unfold not_earlier in *.
          specialize (Hx y Hy). lia.
      + apply Nat.leb_gt in Hc. constructor; [auto|].
        rewrite Forall_forall in *. intros y Hy.
        apply (Permutation_in _ (insert_desc_perm m l)) in Hy.
        destruct Hy as [<-|Hy]; unfold not_earlier in *; [lia|auto].
  Qed.

Lemma order_by_createdAt_desc_sorted : forall l,
    StronglySorted not_earlier (order_by_createdAt_desc l).
  Proof.
    induction l; cbn; [constructor|]. now apply insert_desc_sorted.
  Qed.

Lemma StronglySorted_app_cross : forall {A} (R : A -> A -> Prop) l1 l2,
    StronglySorted R (l1 ++ l2) ->
    StronglySorted R l1 /\ StronglySorted R l2
    /\ forall a b, In a l1 -> In b l2 -> R a b.
  Proof.
    induction l1 as [|x l1 IH]; cbn; intros l2 Hs.
    - repeat split; [constructor|auto|contradiction].
    - apply StronglySorted_inv in Hs. destruct Hs as [Hs Hx].
      destruct (IH _ Hs) as (H1 & H2 & H3).
      rewrite Forall_forall in Hx. repeat split; auto.
      + constructor; auto. rewrite Forall_forall. intros y Hy. apply Hx.
        apply in_or_app; auto.
      + intros a b [<-|Ha] Hb; [apply Hx, in_or_app|]; auto.
  Qed.

Lemma StronglySorted_snoc : forall {A} (R : A -> A -> Prop) l x,
    StronglySorted R l -> Forall (fun y => R y x) l -> StronglySorted R (l ++ [x]).
  Proof.
    induction l as [|y l IH]; cbn; intros x Hs Hf.
    - constructor; constructor.
    - apply StronglySorted_inv in Hs. destruct Hs as [Hs Hy].
      apply Forall_cons_iff in Hf. destruct Hf as [Hyx Hf].
      constructor; auto. apply Forall_app. split; auto.
  Qed.

Lemma StronglySorted_rev_flip : forall {A} (R : A -> A -> Prop) l,
    StronglySorted R l -> StronglySorted (fun a b => R b a) (rev l).
  Proof.
    induction l as [|x l IH]; cbn; intros Hs; [constructor|].
    apply StronglySorted_inv in Hs. destruct Hs as [Hs Hx].
    apply StronglySorted_snoc; auto.
    rewrite Forall_forall in *. intros y Hy. apply Hx. now apply in_rev.
  Qed.

End Ordering.

(** C7.  The history loader returns the turns of the rows [history_rows]
    selects (or raises what the store raised), and those rows are the most
    recent [limit * 2] non-deleted messages of the chat, oldest first: they
    are as many as asked for or all there are, they are in chronological
    order, and the non-deleted messages of the chat split into them and
    older rows, none of which is later than any row returned. *)
Theorem C7_history_window :
  forall E cid limit w,
    let rows := history_rows (db w) cid limit in
    _get_conversation_history E cid limit w
    = match history_select_error E with
      | Some e => (Raise e, w)
      | None => (Ok (map turn_of rows), w)
      end
    /\ length rows = Nat.min (limit * 2) (length (chat_messages (db w) cid))
    /\ StronglySorted not_later rows
    /\ exists older,
         Permutation (chat_messages (db w) cid) (older ++ rows)
         /\ forall o r, In o older -> In r rows -> not_later o r.
Proof.
  intros E cid limit w rows.
  pose (sorted := order_by_createdAt_desc (chat_messages (db w) cid)).
  assert (Hrows : rows = rev (firstn (limit * 2) sorted)) by reflexivity.
  assert (Hsorted : StronglySorted not_earlier sorted)
    by apply order_by_createdAt_desc_sorted.
  rewrite <- (firstn_skipn (limit * 2) sorted) in Hsorted.
  apply StronglySorted_app_cross in Hsorted. destruct Hsorted as (Hs1 & _ & Hcross).
  repeat split.
  - unfold _get_conversation_history. destruct (history_select_error E); reflexivity.
  - rewrite Hrows, length_rev, length_firstn. unfold sorted.
    now rewrite (Permutation_length (order_by_createdAt_desc_perm _)).
  - rewrite Hrows. apply (StronglySorted_rev_flip Hs1).
  - exists (skipn (limit * 2) sorted). split.
    + rewrite Hrows. rewrite <- (order_by_createdAt_desc_perm (chat_messages (db w) cid)).
      fold sorted. rewrite <- (firstn_skipn (limit * 2) sorted) at 1.
      rewrite Permutation_app_comm. apply Permutation_app_head. apply Permutation_rev.
    + intros o r Ho Hr. rewrite Hrows in Hr. apply in_rev in Hr.
      apply (Hcross r o Hr Ho).
Qed.

(** ** Invariants through computations *)

Section Keeps.

Variable ok : Pending -> Prop.
Variable I : World -> Prop.
Hypothesis HI : closed ok I.

Lemma keeps_ret : forall A (a : A), keeps I (ret a).
Proof. intros A a w H; exact H. Qed.

Lemma keeps_raise : forall A e, keeps I (@raise A e).
Proof. intros A e w H; exact H. Qed.

Lemma keeps_lift : forall A (r : result A), keeps I (lift r).
Proof. intros A r w H; exact H. Qed.

Lemma keeps_gets : forall A (f : World -> A), keeps I (gets f).
Proof. intros A f w H; exact H. Qed.

Lemma keeps_bind : forall A B (m : M A) (k : A -> M B),
  keeps I m -> (forall a, keeps I (k a)) -> keeps I (bind m k).
Proof.
  intros A B m k Hm Hk w H. unfold bind. specialize (Hm w H).
  destruct (m w) as [[a|e] w1]; cbn in *; [apply Hk|]; auto.
Qed.

Lemma keeps_try : forall A (m : M A) (h : exn -> M A),
  keeps I m -> (forall e, keeps I (h e)) -> keeps I (try_except m h).
Proof.
  intros A m h Hm Hh w H. unfold try_except. specialize (Hm w H).
  destruct (m w) as [[a|e] w1]; cbn in *; [|apply Hh]; auto.
Qed.

Lemma keeps_stage : forall op, ok op -> keeps I (db_stage op).
Proof. intros op Hop w H. now apply (closed_stage HI). Qed.

Lemma keeps_commit : keeps I db_commit.
Proof. intros w H. now apply (closed_commit HI). Qed.

Lemma keeps_rollback : keeps I db_rollback.
Proof. intros w H. now apply (closed_rollback HI). Qed.

Lemma keeps_ulid : forall E, keeps I (generate_ulid E).
Proof. intros E w H. now apply (closed_ulid HI). Qed.

Lemma keeps_utcnow : keeps I utcnow.
Proof. intros w H. now apply (closed_utcnow HI). Qed.

Lemma keeps_record_call : forall c, keeps I (record_call c).
Proof. intros c w H. now apply (closed_record_call HI). Qed.

Lemma keeps_add_documents : forall d, keeps I (add_documents d).
Proof. intros d w H. now apply (closed_add_documents HI). Qed.

End Keeps.

(** Breaks a [keeps] goal along the structure of the computation. *)
Ltac keeps_step HI :=
  first
    [ apply keeps_ret | apply keeps_raise | apply keeps_lift | apply keeps_gets
    | apply (keeps_commit HI) | apply (keeps_rollback HI)
    | apply (keeps_ulid HI) | apply (keeps_utcnow HI)
    | apply (keeps_record_call HI) | apply (keeps_add_documents HI)
    | apply (keeps_stage HI); solve [auto]
    | apply keeps_bind; [|intros ?]
    | apply keeps_try; [|intros ?]
    | match goal with
      | |- keeps _ (match ?x with _ => _ end) => destruct x
      | |- keeps _ (if ?x then _ else _) => destruct x
      end ].

Ltac keeps_auto HI := repeat keeps_step HI.

(** The same, trying the lemmas [known] offers before breaking further. *)
Ltac keeps_with HI known := repeat first [ known | keeps_step HI ].

Section KeepsMessages.

Variable ok : Pending -> Prop.
Variable I : World -> Prop.
Hypothesis HI : closed ok I.
Hypothesis ok_Add_Message : forall m, ok (Add_Message m).
Hypothesis ok_Add_Chat : forall c, ok (Add_Chat c).
Hypothesis ok_Add_ChatDocument : forall e, ok (Add_ChatDocument e).
Hypothesis ok_Add_MessageDocument : forall e, ok (Add_MessageDocument e).
Hypothesis ok_Set_Chat_updatedAt : forall c u, ok (Set_Chat_updatedAt c u).

Lemma keeps_get_document : forall x, keeps I (_get_document x).
Proof. intros x. unfold _get_document. keeps_auto HI. Qed.

Lemma keeps_add_message : forall E cid r c s, keeps I (add_message E cid r c s).
Proof.
  intros. unfold add_message. keeps_auto HI.
Qed.

Lemma keeps_update_chat_timestamp : forall cid, keeps I (_update_chat_timestamp cid).
Proof.
  intros. unfold _update_chat_timestamp. keeps_auto HI.
Qed.

Lemma keeps_persist_assistant : forall E cid c s, keeps I (persist_assistant E cid c s).
Proof.
  intros. unfold persist_assistant.
  keeps_with HI ltac:(first [apply keeps_add_message | apply keeps_update_chat_timestamp]).
Qed.

Lemma keeps_generate_content : forall E cid q docs, keeps I (generate_content E cid q docs).
Proof.
  intros. unfold generate_content, _get_conversation_history, search_similar_chunks,
    generate_response.
  keeps_auto HI.
Qed.

Lemma keeps_generate_ai_response : forall E cid q docs,
  keeps I (_generate_ai_response E cid q docs).
Proof.
  intros. unfold _generate_ai_response.
  keeps_with HI ltac:(first [apply keeps_generate_content | apply keeps_persist_assistant]).
Qed.

Lemma keeps_attach_loop : forall E mid ids att rag, keeps I (attach_loop E mid ids att rag).
Proof.
  induction ids as [|a ids IH]; intros; cbn [attach_loop].
  - apply keeps_ret.
  - keeps_with HI ltac:(first [apply keeps_get_document | apply IH]).
Qed.

Lemma keeps_link_loop : forall E cid ids info, keeps I (link_loop E cid ids info).
Proof.
  induction ids as [|a ids IH]; intros; cbn [link_loop].
  - apply keeps_ret.
  - keeps_with HI ltac:(first [apply keeps_get_document | apply IH]).
Qed.

Lemma keeps_resolve_documents : forall E data cid mid,
  keeps I (resolve_documents E data cid mid).
Proof.
  intros. unfold resolve_documents, _attach_documents_to_message,
    _get_chat_documents_for_rag.
  keeps_with HI ltac:(apply keeps_attach_loop).
Qed.

Lemma keeps_create_new_chat : forall E data, keeps I (_create_new_chat_with_message E data).
Proof.
  intros. unfold _create_new_chat_with_message, validate_category_ownership.
  keeps_with HI ltac:(apply keeps_link_loop).
Qed.

Lemma keeps_resolve_chat : forall E data, keeps I (resolve_chat E data).
Proof.
  intros. unfold resolve_chat, validate_chat_ownership.
  keeps_with HI ltac:(apply keeps_create_new_chat).
Qed.

Lemma keeps_create_message : forall E data, keeps I (create_message E data).
Proof.
  intros. unfold create_message.
  keeps_with HI ltac:(first [ apply keeps_resolve_chat | apply keeps_add_message
                            | apply keeps_resolve_documents
                            | apply keeps_generate_ai_response ]).
Qed.

End KeepsMessages.

(** ** What a flush does to the tables *)

Lemma flush_app : forall t ops ops', flush t (ops ++ ops') = flush (flush t ops) ops'.
Proof. intros. unfold flush. apply fold_left_app. Qed.

Lemma messages_flush_one : forall t op m,
  In m (messages t) -> In m (messages (flush_one t op)).
Proof. intros t op x H; destruct op; cbn; auto. apply in_or_app; auto. Qed.

Lemma messages_flush : forall ops t m, In m (messages t) -> In m (messages (flush t ops)).
Proof.
  induction ops as [|op ops IH]; cbn; intros; auto.
  apply IH. now apply messages_flush_one.
Qed.

Lemma chat_present_flush_one : forall cid t op,
  chat_present cid t -> chat_present cid (flush_one t op).
Proof.
  intros cid t op (x & Hin & Hid).
  destruct op as [| | | | |k u| | | |]; cbn; try (exists x; split; assumption).
  - exists x. split; [apply in_or_app|]; auto.
  - destruct (Chat.id x =? k) eqn:Eq.
    + exists (Chat.set_updatedAt u x). split; [|exact Hid].
      unfold update_where. apply in_map_iff. exists x. rewrite Eq. auto.
    + exists x. split; [|exact Hid].
      unfold update_where. apply in_map_iff. exists x. rewrite Eq. auto.
Qed.

Lemma chat_present_flush : forall cid ops t,
  chat_present cid t -> chat_present cid (flush t ops).
Proof.
  induction ops as [|op ops IH]; cbn; intros; auto.
  apply IH. now apply chat_present_flush_one.
Qed.

Lemma chat_present_closed : forall cid,
  closed (fun _ => True) (fun w => chat_present cid (db w)).
Proof.
  intros cid. constructor; intros; cbn; auto. now apply chat_present_flush.
Qed.

Lemma chat_present_find : forall cid t,
  chat_present cid t ->
  exists c, find (fun c => Chat.id c =? cid) (chats t) = Some c /\ Chat.id c = cid.
Proof.
  intros cid t (c & Hin & Hid).
  destruct (find (fun c => Chat.id c =? cid) (chats t)) as [c0|] eqn:F.
  - exists c0. split; auto. apply find_some in F. now apply String.eqb_eq.
  - apply (find_none _ _ F) in Hin. rewrite Hid, String.eqb_refl in Hin. discriminate.
Qed.

(** ** Running the generation step *)

Lemma persist_assistant_present : forall E cid c s w,
  chat_present cid (db w) ->
  let m := Message.mk (ULID E (ulid_count w)) cid ASSISTANT c s (clock w) None in
  persist_assistant E cid c s w
  = (Ok m,
     mkWorld (flush (db w)
                    (pending w ++ [Add_Message m; Set_Chat_updatedAt cid (S (clock w))]))
             [] (S (ulid_count w)) (S (S (clock w)))
             (vectorstore w) (llm_calls w) (background_tasks w)).
Proof.
  intros E cid c s w Hp m.
  destruct (chat_present_find Hp) as (c0 & F & Hid).
  unfold persist_assistant, add_message, _update_chat_timestamp. step. cbn.
  rewrite F. cbn. rewrite Hid, <- app_assoc. reflexivity.
Qed.

Lemma persist_assistant_absent : forall E cid c s w,
  find (fun c => Chat.id c =? cid) (chats (db w)) = None ->
  exists e w', persist_assistant E cid c s w = (Raise e, w') /\ db w' = db w.
Proof.
  intros E cid c s w F.
  unfold persist_assistant, add_message, _update_chat_timestamp. step. cbn.
  rewrite F. cbn. eauto.
Qed.

(** Generation reads the store and calls out; it writes nothing to the store
    or the session, and the citations it yields are those of the retrieved
    chunks. *)
Lemma generate_content_run : forall E cid q docs w,
  let r := generate_content E cid q docs w in
  db (snd r) = db w /\ pending (snd r) = pending w
  /\ clock (snd r) = clock w /\ ulid_count (snd r) = ulid_count w
  /\ vectorstore (snd r) = vectorstore w
  /\ background_tasks (snd r) = background_tasks w
  /\ match fst r with
     | Ok (_, srcs) =>
         srcs = match retrieved_chunks E w q docs with
                | [] => None
                | chunks => Some (sources_of chunks)
                end
     | Raise _ => True
     end.
Proof.
  intros E cid q docs w.
  unfold generate_content, _get_conversation_history, search_similar_chunks,
    generate_response, record_call, retrieved_chunks.
  destruct (history_select_error E); step; cbn; [tauto|].
  destruct docs as [|d docs]; cbn.
  - destruct (ainvoke E _); cbn; tauto.
  - destruct (similarity_search E _ _ _ _) as [[|ch chunks]|e]; cbn; try tauto;
      destruct (ainvoke E _); cbn; tauto.
Qed.

Lemma chat_present_dec : forall cid t,
  chat_present cid t \/ find (fun c => Chat.id c =? cid) (chats t) = None.
Proof.
  intros cid t. destruct (find (fun c => Chat.id c =? cid) (chats t)) as [c|] eqn:F; auto.
  left. exists c. apply find_some in F. destruct F as [Hin Hid].
  apply String.eqb_eq in Hid. auto.
Qed.

Lemma sources_of_nonempty : forall c chunks, sources_of (c :: chunks) <> [].
Proof. intros c chunks. unfold sources_of. cbn. discriminate. Qed.

Lemma in_messages_flush_add : forall t ops m ops',
  In m (messages (flush t (ops ++ Add_Message m :: ops'))).
Proof.
  intros. rewrite flush_app. cbn. apply messages_flush. cbn. apply in_or_app. cbn. auto.
Qed.

(** ** C8 *)

(** C8.  Whenever the assistant turn is persisted, it is stored as an
    assistant message of the chat; when retrieval yielded no chunk (no
    eligible document, or an empty search result) its sources are absent;
    sources are present only with at least one retrieved chunk, and then they
    are the non-empty citation list built from those chunks. *)
Theorem C8_citations_only_with_chunks :
  forall E cid q docs w,
    match _generate_ai_response E cid q docs w with
    | (Ok m, w') =>
        In m (messages (db w'))
        /\ Message.role m = ASSISTANT /\ Message.chatId m = cid
        /\ match retrieved_chunks E w q docs with
           | [] => Message.sources m = None
           | (_ :: _) as chunks =>
               Message.sources m = None
               \/ (Message.sources m = Some (sources_of chunks) /\ sources_of chunks <> [])
           end
    | (Raise _, _) => True
    end.
Proof.
  intros E cid q docs w. unfold _generate_ai_response, try_except, bind.
  pose proof (generate_content_run E cid q docs w) as H. cbn zeta in H.
  destruct (generate_content E cid q docs w) as [[[c srcs]|e] w1]; cbn [fst snd] in H;
    destruct H as (Hdb & Hp & _ & _ & _ & _ & Hs); cbn [fst snd].
  - destruct (chat_present_dec cid (db w1)) as [Hc|Hc].
    + rewrite (@persist_assistant_present E cid c srcs w1 Hc). cbn [fst snd].
      split; [apply in_messages_flush_add|]. cbn. repeat split.
      subst srcs. destruct (retrieved_chunks E w q docs) as [|ch chunks]; auto.
      right. split; auto. apply sources_of_nonempty.
    + destruct (@persist_assistant_absent E cid c srcs w1 Hc) as (e & w2 & Hr & Hdb2).
      cbn [fst snd]. rewrite Hr. unfold db_rollback.
      match goal with |- context [persist_assistant E cid ?c0 None ?w0] =>
        destruct (@persist_assistant_absent E cid c0 None w0) as (e' & w3 & Hr' & _);
        [cbn; rewrite Hdb2; exact Hc | rewrite Hr'; exact Logic.I]
      end.
  - unfold db_rollback.
    destruct (chat_present_dec cid (db w1)) as [Hc|Hc].
    + match goal with |- context [persist_assistant E cid ?c0 None ?w0] =>
        rewrite (@persist_assistant_present E cid c0 None w0 Hc) end.
      cbn [db pending]. split; [apply (in_messages_flush_add _ [])|]. cbn.
      repeat split. destruct (retrieved_chunks E w q docs); auto.
    + match goal with |- context [persist_assistant E cid ?c0 None ?w0] =>
        destruct (@persist_assistant_absent E cid c0 None w0) as (e' & w3 & Hr' & _);
        [exact Hc | rewrite Hr'; exact Logic.I]
      end.
Qed.

(** ** The orchestrator as prefix and generation *)

Lemma bind_ok_inv : forall A B (m : M A) (k : A -> M B) w b w',
  bind m k w = (Ok b, w') -> exists a w1, m w = (Ok a, w1) /\ k a w1 = (Ok b, w').
Proof.
  intros A B m k w b w' H. unfold bind in H.
  destruct (m w) as [[a|e] w1]; [eauto|discriminate].
Qed.

Lemma create_message_split : forall E message_data w,
  create_message E message_data w
  = match orchestration_prefix E message_data w with
    | (Ok (chat_info, cid, um, att, docs), w1) =>
        match _generate_ai_response E cid (content message_data) docs w1 with
        | (Ok am, w2) =>
            (Ok (mkMessageCreateResponse chat_info
                   (mkMessageResponse (Message.id um) (Message.chatId um)
                      (MessageRole_value (Message.role um)) (Message.content um)
                      att None (Message.createdAt um))
                   (response_of am [])), w2)
        | (Raise e, w2) => (Raise e, w2)
        end
    | (Raise e, w1) => (Raise e, w1)
    end.
Proof.
  intros E message_data w. unfold create_message, orchestration_prefix, bind, ret.
  destruct (resolve_chat E message_data w) as [[ci|e] w0]; [|reflexivity].
  destruct (add_message E (snd ci) USER (content message_data) None w0) as [[um|e] wa];
    [|reflexivity].
  destruct (db_commit wa) as [[u|e] wb]; [|reflexivity].
  destruct (resolve_documents E message_data (snd ci) (Message.id um) wb) as [[ad|e] wc];
    [|reflexivity].
  destruct (_generate_ai_response E (snd ci) (content message_data) (snd ad) wc)
    as [[am|e] wd]; reflexivity.
Qed.

Lemma validate_chat_ownership_inv : forall cid uid w c w',
  validate_chat_ownership cid uid w = (Ok c, w') ->
  w' = w /\ In c (chats (db w)) /\ owned_chat (db w) cid uid = Some c.
Proof.
  unfold validate_chat_ownership, owned_chat; intros cid uid w c w' H. step.
  destruct (find _ (chats (db w))) as [c0|] eqn:F; [|discriminate].
  destruct (Chat.userId c0) as [u|]; [|discriminate].
  destruct (u =? uid); [|discriminate].
  inversion H; subst. apply find_some in F. tauto.
Qed.

Lemma resolve_chat_present : forall E message_data w chat_info cid w0,
  resolve_chat E message_data w = (Ok (chat_info, cid), w0) ->
  chat_present cid (db w0).
Proof.
  intros E message_data w chat_info cid w0 H. unfold resolve_chat in H.
  destruct (chat_id message_data) as [given|].
  - apply bind_ok_inv in H. destruct H as (c & w1 & Hv & Hr).
    inversion Hr; subst. apply validate_chat_ownership_inv in Hv.
    destruct Hv as (-> & Hin & _). exists c; auto.
  - apply bind_ok_inv in H. destruct H as (info & w1 & Hc & Hr).
    inversion Hr; subst. clear Hr.
    unfold _create_new_chat_with_message in Hc.
    apply bind_ok_inv in Hc. destruct Hc as (cat & wa & _ & Hc).
    apply bind_ok_inv in Hc. destruct Hc as (new_id & wb & Hid & Hc).
    apply bind_ok_inv in Hc. destruct Hc as (now & wc & Hnow & Hc).
    apply bind_ok_inv in Hc. destruct Hc as (u1 & wd & Hst & Hc).
    apply bind_ok_inv in Hc. destruct Hc as (u2 & we & Hcm & Hc).
    apply bind_ok_inv in Hc. destruct Hc as (infos & wf & Hl & Hc).
    inversion Hc; subst. cbn [info_id Chat.id].
    assert (Hp : chat_present new_id (db we)).
    { unfold db_commit in Hcm. inversion Hcm; subst. cbn [db].
      unfold db_stage in Hst. inversion Hst; subst. cbn [db pending].
      rewrite flush_app. cbn. eexists. split; [apply in_or_app; right; left; reflexivity|].
      reflexivity. }
    match type of Hl with ?m we = _ =>
      assert (Hk : keeps (fun w => chat_present new_id (db w)) m) end.
    { pose proof (chat_present_closed new_id) as HI.
      keeps_with HI ltac:(apply (keeps_link_loop HI); auto). }
    specialize (Hk we Hp). rewrite Hl in Hk. exact Hk.
Qed.

Lemma prefix_chat_present : forall E message_data w chat_info cid um att docs w1,
  orchestration_prefix E message_data w = (Ok (chat_info, cid, um, att, docs), w1) ->
  chat_present cid (db w1).
Proof.
  intros E message_data w chat_info cid um att docs w1 H.
  unfold orchestration_prefix in H.
  apply bind_ok_inv in H. destruct H as ([ci cid'] & w0 & Hrc & H).
  apply resolve_chat_present in Hrc. cbn [fst snd] in H.
  match type of H with ?m w0 = _ =>
    assert (Hk : keeps (fun w => chat_present cid' (db w)) m) end.
  { pose proof (chat_present_closed cid') as HI.
    keeps_with HI ltac:(first [ apply (keeps_add_message HI); auto
                              | apply (keeps_resolve_documents HI); auto ]). }
  specialize (Hk w0 Hrc). rewrite H in Hk. cbn [snd] in Hk.
  apply bind_ok_inv in H. destruct H as (um' & wa & _ & H).
  apply bind_ok_inv in H. destruct H as (u & wb & _ & H).
  apply bind_ok_inv in H. destruct H as (ad & wc & _ & H).
  inversion H; subst. exact Hk.
Qed.

(** ** C2 *)

Lemma touched_chat : forall cid u t m,
  chat_present cid t ->
  exists c, In c (chats (flush t [Add_Message m; Set_Chat_updatedAt cid u]))
            /\ Chat.id c = cid /\ Chat.updatedAt c = u.
Proof.
  intros cid u t m (c & Hin & Hid). exists (Chat.set_updatedAt u c). cbn.
  repeat split; auto. unfold update_where. apply in_map_iff. exists c.
  rewrite Hid, String.eqb_refl. auto.
Qed.

(** The three ways generation raises: the history query, the similarity
    search over a non-empty document set, the call to the model. *)
Lemma generation_raise_causes : forall E cid q docs w e w',
  generate_content E cid q docs w = (Raise e, w') ->
  history_select_error E = Some e
  \/ (docs <> []
      /\ similarity_search E (vectorstore w) q (TOP_K_RESULTS (settings E))
                           (Some (map Document.id docs)) = Raise e)
  \/ exists call, ainvoke E call = Raise e.
Proof.
  intros E cid q docs w e w'.
  unfold generate_content, _get_conversation_history, search_similar_chunks,
    generate_response, record_call.
  destruct (history_select_error E) as [e0|]; step; cbn.
  - intros H; inversion H; auto.
  - destruct docs as [|d docs]; cbn.
    + destruct (ainvoke E _) eqn:Ha; cbn; intros H; inversion H; subst; eauto.
    + destruct (similarity_search E _ _ _ _) as [[|ch chunks]|e1] eqn:Hs; cbn.
      * destruct (ainvoke E _) eqn:Ha; cbn; intros H; inversion H; subst; eauto.
      * destruct (ainvoke E _) eqn:Ha; cbn; intros H; inversion H; subst; eauto.
      * intros H; inversion H; subst. right; left. split; [discriminate|reflexivity].
Qed.

(** C2.  When everything before generation went through and the generation
    step raises [e], the request still succeeds: the response carries an
    assistant turn whose content is the apology followed by [str e], with no
    sources; that message is stored, and the chat's [updatedAt] is set to the
    clock reading taken right after the message was stamped. *)
Theorem C2_generation_failure_absorbed :
  forall E message_data w chat_info cid um att docs w1 e w2,
    orchestration_prefix E message_data (snd (db_open w))
    = (Ok (chat_info, cid, um, att, docs), w1) ->
    generate_content E cid (content message_data) docs w1 = (Raise e, w2) ->
    exists resp am w',
      post_messages E message_data w = (Ok resp, w')
      /\ assistant_message resp = response_of am []
      /\ resp_role (user_message resp) = "user"
      /\ Message.role am = ASSISTANT /\ Message.chatId am = cid
      /\ Message.content am = (apology ++ str e)%string
      /\ Message.sources am = None
      /\ In am (messages (db w'))
      /\ exists c, In c (chats (db w')) /\ Chat.id c = cid
                   /\ Chat.updatedAt c = S (Message.createdAt am).
Proof.
  intros E message_data w chat_info cid um att docs w1 e w2 Hpre Hgen.
  pose proof (prefix_chat_present _ _ _ Hpre) as Hc.
  pose proof (generate_content_run E cid (content message_data) docs w1) as Hrun.
  cbn zeta in Hrun. rewrite Hgen in Hrun. cbn [fst snd] in Hrun.
  destruct Hrun as (Hdb & _).
  assert (Hum : Message.role um = USER).
  { unfold orchestration_prefix in Hpre.
    apply bind_ok_inv in Hpre. destruct Hpre as (ci & w0 & _ & H).
    apply bind_ok_inv in H. destruct H as (um' & wa & Ha & H).
    apply bind_ok_inv in H. destruct H as (u & wb & _ & H).
    apply bind_ok_inv in H. destruct H as (ad & wc & _ & H).
    inversion H; subst. unfold add_message in Ha. step. inversion Ha. reflexivity. }
  unfold post_messages. rewrite create_message_split, Hpre.
  unfold _generate_ai_response, try_except, bind. rewrite Hgen.
  unfold db_rollback. cbn [fst snd].
  match goal with |- context [persist_assistant E cid ?c0 None ?w0] =>
    rewrite (@persist_assistant_present E cid c0 None w0);
      [|cbn [db]; rewrite Hdb; exact Hc]
  end.
  cbn [db pending app].
  eexists _, _, _. split; [reflexivity|]. cbn [assistant_message user_message resp_role].
  rewrite Hum. cbn -[flush apology].
  repeat split.
  - apply (in_messages_flush_add _ []).
  - apply touched_chat. rewrite Hdb. exact Hc.
Qed.

Lemma C2_witness :
  exists resp am w',
    post_messages sample_env_llm_down
      (mkMessageCreate "What changed?" (Some "chat-1") None None "default-user")
      sample_world = (Ok resp, w')
    /\ assistant_message resp = response_of am []
    /\ resp_role (user_message resp) = "user"
    /\ Message.role am = ASSISTANT /\ Message.chatId am = "chat-1"
    /\ Message.content am = (apology ++ str (Exception "Connection error."))%string
    /\ Message.sources am = None
    /\ In am (messages (db w'))
    /\ exists c, In c (chats (db w')) /\ Chat.id c = "chat-1"
                 /\ Chat.updatedAt c = S (Message.createdAt am).
Proof.
  eapply (@C2_generation_failure_absorbed sample_env_llm_down
            (mkMessageCreate "What changed?" (Some "chat-1") None None "default-user")
            sample_world).
  - lazy. reflexivity.
  - lazy. reflexivity.
Defined.

(** ** C9 *)

Lemma messages_flush_quiet : forall ops t,
  Forall no_new_message ops -> messages (flush t ops) = messages t.
Proof.
  induction ops as [|op ops IH]; cbn; intros t H; auto.
  apply Forall_cons_iff in H. destruct H as [Hop H].
  unfold flush in IH. rewrite IH; auto. destruct op; cbn in *; tauto.
Qed.

Lemma messages_are_closed : forall M0 c0, closed no_new_message (messages_are M0 c0).
Proof.
  intros M0 c0. unfold messages_are.
  constructor; intros; cbn in *; intuition auto.
  - apply Forall_app; auto.
  - now rewrite messages_flush_quiet.
Qed.

Lemma order_desc_snoc_latest : forall l um,
  (forall x, In x l -> Message.createdAt x < Message.createdAt um) ->
  order_by_createdAt_desc (l ++ [um]) = um :: order_by_createdAt_desc l.
Proof.
  induction l as [|x l IH]; intros um H; cbn; auto.
  unfold order_by_createdAt_desc in IH. rewrite IH by (intros; apply H; cbn; auto). cbn.
  assert (Hx : Message.createdAt x < Message.createdAt um) by (apply H; cbn; auto).
  apply Nat.leb_gt in Hx. now rewrite Hx.
Qed.

(** What the prefix leaves in the messages table: the rows it found, then the
    user turn. *)
Lemma prefix_messages : forall E message_data w chat_info cid um att docs w1,
  orchestration_prefix E message_data w = (Ok (chat_info, cid, um, att, docs), w1) ->
  Forall no_new_message (pending w) ->
  messages (db w1) = messages (db w) ++ [um]
  /\ Message.chatId um = cid /\ Message.role um = USER
  /\ Message.content um = content message_data
  /\ Message.deletedAt um = None
  /\ clock w <= Message.createdAt um.
Proof.
  intros E message_data w chat_info cid um att docs w1 H Hq.
  unfold orchestration_prefix in H.
  apply bind_ok_inv in H. destruct H as ([ci cid'] & w0 & Hrc & H). cbn [fst snd] in H.
  assert (H0 : messages_are (messages (db w)) (clock w) w0).
  { pose proof (messages_are_closed (messages (db w)) (clock w)) as HI.
    pose proof (@keeps_resolve_chat _ _ HI) as Hk.
    specialize (Hk (fun _ => Logic.I) (fun _ => Logic.I) E message_data w).
    rewrite Hrc in Hk. apply Hk. unfold messages_are. auto. }
  apply bind_ok_inv in H. destruct H as (um' & wa & Ha & H).
  apply bind_ok_inv in H. destruct H as (u & wb & Hcm & H).
  apply bind_ok_inv in H. destruct H as (ad & wc & Hrd & H).
  inversion H; subst. clear H.
  unfold add_message in Ha. step. inversion Ha; subst. clear Ha.
  inversion Hcm; subst. clear Hcm.
  destruct H0 as (Hm & Hp & Hc).
  match type of Hrd with resolve_documents _ _ _ (Message.id ?m) ?wb = _ =>
    set (um0 := m) in *
  end.
  match type of Hrd with resolve_documents _ _ _ _ ?wb = _ =>
    assert (Hb : messages_are (messages (db w) ++ [um0]) (clock w) wb)
  end.
  { unfold messages_are. cbn [db pending clock]. repeat split; auto.
    rewrite fold_left_app. cbn. fold (flush (db w0) (pending w0)).
    rewrite messages_flush_quiet; auto. rewrite Hm. reflexivity. }
  pose proof (messages_are_closed (messages (db w) ++ [um0]) (clock w)) as HI.
  pose proof (@keeps_resolve_documents _ _ HI (fun _ => Logic.I) E message_data cid
                (Message.id um0) _ Hb) as Hk.
  rewrite Hrd in Hk. destruct Hk as (Hk & _).
  cbn in *. repeat split; auto.
Qed.

Lemma generate_content_calls : forall E cid q docs w r w2,
  generate_content E cid q docs w = (r, w2) ->
  exists new_calls,
    llm_calls w2 = llm_calls w ++ new_calls
    /\ Forall (fun call =>
                 call_query call = q
                 /\ call_conversation_history call
                    = map turn_of (history_rows (db w) cid
                                     (MAX_CONVERSATION_HISTORY (settings E))))
              new_calls.
Proof.
  intros E cid q docs w r w2.
  unfold generate_content, _get_conversation_history, search_similar_chunks,
    generate_response, record_call.
  destruct (history_select_error E) as [e0|]; step; cbn.
  - intros H; inversion H; subst. exists []. rewrite app_nil_r. auto.
  - destruct docs as [|d docs]; cbn.
    + destruct (ainvoke E _); cbn; intros H; inversion H; subst; cbn;
        eexists; split; try reflexivity; repeat constructor.
    + destruct (similarity_search E _ _ _ _) as [[|ch chunks]|e1]; cbn.
      * destruct (ainvoke E _); cbn; intros H; inversion H; subst; cbn;
          eexists; split; try reflexivity; repeat constructor.
      * destruct (ainvoke E _); cbn; intros H; inversion H; subst; cbn;
          eexists; split; try reflexivity; repeat constructor.
      * intros H; inversion H; subst. exists []. rewrite app_nil_r. auto.
Qed.

(** C9.  Once the prefix of a request has gone through, with no stored
    message stamped at or after the clock reading at its start and a window
    of at least one pair, the history loaded for generation ends with the
    user turn just received, and every call to the model made by the
    generation step carries that history. *)
Theorem C9_history_ends_with_current_turn :
  forall E message_data w chat_info cid um att docs w1,
    orchestration_prefix E message_data (snd (db_open w))
    = (Ok (chat_info, cid, um, att, docs), w1) ->
    no_message_from_the_future w ->
    1 <= MAX_CONVERSATION_HISTORY (settings E) ->
    exists older,
      map turn_of (history_rows (db w1) cid (MAX_CONVERSATION_HISTORY (settings E)))
      = older ++ [mkTurn "user" (content message_data)]
      /\ forall r w2,
           generate_content E cid (content message_data) docs w1 = (r, w2) ->
           exists new_calls,
             llm_calls w2 = llm_calls w1 ++ new_calls
             /\ Forall (fun call =>
                          call_conversation_history call
                          = older ++ [mkTurn "user" (content message_data)])
                       new_calls.
Proof.
  intros E message_data w chat_info cid um att docs w1 Hpre Hwf Hmax.
  destruct (prefix_messages _ _ _ Hpre) as (Hm & Hcid & Hrole & Hcont & Hdel & Hclk);
    [constructor|]. cbn in Hm, Hclk.
  remember (MAX_CONVERSATION_HISTORY (settings E)) as limit eqn:El.
  assert (Hh : exists older,
    map turn_of (history_rows (db w1) cid limit)
    = older ++ [mkTurn "user" (content message_data)]).
  { unfold history_rows.
    fold (chat_messages (db w1) cid). unfold chat_messages. rewrite Hm, filter_app.
    cbn [filter]. rewrite Hcid, String.eqb_refl, Hdel. cbn [andb is_None].
    fold (chat_messages (db w) cid).
    rewrite order_desc_snoc_latest.
    - destruct limit as [|k]; [lia|]. cbn [Nat.mul Nat.add firstn rev].
      rewrite map_app. cbn [map]. unfold turn_of at 2. rewrite Hrole, Hcont. cbn.
      eexists. reflexivity.
    - intros x Hx. unfold chat_messages in Hx. apply filter_In in Hx.
      destruct Hx as [Hx _]. specialize (Hwf x Hx). lia. }
  destruct Hh as (older & Hh). exists older. split; [exact Hh|].
  intros r w2 Hg. destruct (generate_content_calls _ _ _ _ _ Hg) as (nc & Hl & Hf).
  exists nc. split; [exact Hl|]. rewrite Forall_forall in *. intros c Hc.
  destruct (Hf c Hc) as (_ & Hcall). rewrite Hcall, <- El. exact Hh.
Qed.

Lemma C9_witness :
  exists older,
    map turn_of (history_rows
                   (db (snd (orchestration_prefix sample_env
                               (mkMessageCreate "What changed?" (Some "chat-1") None None
                                                "default-user")
                               (snd (db_open sample_world)))))
                   "chat-1" 10)
    = older ++ [mkTurn "user" "What changed?"].
Proof.
  destruct (@C9_history_ends_with_current_turn sample_env
              (mkMessageCreate "What changed?" (Some "chat-1") None None "default-user")
              sample_world None "chat-1"
              (Message.mk (sample_ULID 0) "chat-1" USER "What changed?" None 8 None)
              []
              [Document.mk "doc-1" (Some "default-user") "report.pdf" "report" PDF 3000
                           COMPLETED (Some 4) 1 1 None]
              (snd (orchestration_prefix sample_env
                      (mkMessageCreate "What changed?" (Some "chat-1") None None
                                       "default-user")
                      (snd (db_open sample_world)))))
    as (older & H & _).
  - vm_compute. reflexivity.
  - intros m Hm. cbn in Hm. destruct Hm as [<-|[<-|[]]]; cbn; lia.
  - cbn. lia.
  - exists older. exact H.
Defined.

(** ** Ingestion *)

Lemma extract_run : forall E document w,
  _extract_text_from_file E (Document.filePath document) (Document.fileType document) w
  = (extracted_text E document, w).
Proof.
  intros E document w. unfold extracted_text, _extract_text_from_file. step.
  destruct (download_as_bytes E _) as [bytes|e]; cbn; [|reflexivity].
  destruct (Document.fileType document); cbn; try reflexivity.
  destruct (PdfReader_pages E bytes); reflexivity.
Qed.

Lemma find_id_eq : forall document_id (l : list Document.t) d,
  find (fun d => Document.id d =? document_id) l = Some d -> Document.id d = document_id.
Proof. intros x l d F. apply find_some in F. now apply String.eqb_eq. Qed.

(** ** C6 *)

(** C6.  For a stored document whose extraction raises or yields blank text,
    or whose indexing raises, the background task returns normally, nothing
    is raised to its caller, and the documents table keeps every row, the
    rows of that id now with status failed. *)
Theorem C6_failure_recorded_not_raised :
  forall E document_id w document,
    find (fun d => Document.id d =? document_id) (documents (db w)) = Some document ->
    ingestion_fails E document_id document ->
    exists w',
      _process_document_background E document_id w = (Ok tt, w')
      /\ documents (db w')
         = update_where (fun d => Document.id d =? document_id) (Document.set_status FAILED)
                        (documents (db w))
      /\ length (documents (db w')) = length (documents (db w))
      /\ status_of (db w') document_id = Some FAILED.
Proof.
  intros E document_id w document F Hfail.
  pose proof (find_id_eq _ _ F) as Hid.
  assert (Hst : status_of
                  (mkTables (update_where (fun d => Document.id d =? document_id)
                                          (Document.set_status FAILED) (documents (db w)))
                            (categories (db w)) (chats (db w)) (messages (db w))
                            (chat_documents (db w)) (message_documents (db w)))
                  document_id = Some FAILED).
  { unfold status_of, update_where. cbn [documents].
    clear Hfail Hid. induction (documents (db w)) as [|d l IH]; [discriminate|].
    cbn in F |- *. destruct (Document.id d =? document_id) eqn:Ed.
    - cbn. rewrite Ed. reflexivity.
    - rewrite Ed. auto. }
  unfold _process_document_background. step.
  cbn -[_extract_text_from_file add_document_to_vectorstore strip is_empty update_where].
  rewrite F. rewrite extract_run. unfold ingestion_fails in Hfail.
  destruct (extracted_text E document) as [text|e]; cbn [fst snd].
  - destruct Hfail as [Hblank|Hembed].
    + rewrite Hblank. cbn. rewrite Hid. eexists. split; [reflexivity|]. cbn [db documents].
      split; [reflexivity|]. split; [apply length_map|exact Hst].
    + destruct (strip text) as [|c0 rest]; cbn -[add_document_to_vectorstore update_where].
      * rewrite Hid. eexists. split; [reflexivity|]. cbn [db documents].
        split; [reflexivity|]. split; [apply length_map|exact Hst].
      * unfold add_document_to_vectorstore, bind, lift. unfold indexed_chunks in Hembed.
        destruct (split_text E text) as [chunks|e0].
        -- destruct (embed_error E _) as [e|]; [|congruence]. cbn. rewrite Hid.
           eexists. split; [reflexivity|]. cbn [db documents].
           split; [reflexivity|]. split; [apply length_map|exact Hst].
        -- cbn. rewrite Hid. eexists. split; [reflexivity|]. cbn [db documents].
           split; [reflexivity|]. split; [apply length_map|exact Hst].
  - cbn. rewrite Hid. eexists. split; [reflexivity|]. cbn [db documents].
    split; [reflexivity|]. split; [apply length_map|exact Hst].
Qed.

(** ** The chunker on text without whitespace *)

Section Chunker.

Variables chunk_size chunk_overlap : nat.
Hypothesis chunk_size_gt_1 : 1 < chunk_size.

Lemma lstrip_id : forall s, Forall (fun c => isspace c = false) s -> lstrip s = s.
Proof. intros s H. destruct H as [|c s Hc H]; cbn; [reflexivity|]. now rewrite Hc. Qed.

Lemma strip_id : forall s, Forall (fun c => isspace c = false) s -> strip s = s.
Proof.
  intros s H. unfold strip. rewrite (lstrip_id H).
  rewrite lstrip_id by now apply Forall_rev. apply rev_involutive.
Qed.

Lemma contains_head_in : forall c p s, contains (c :: p) s = true -> In c s.
Proof.
  induction s as [|b s IH]; cbn; [discriminate|].
  intros H. apply orb_true_iff in H. destruct H as [H|H]; [|right; auto].
  apply andb_true_iff in H. destruct H as [H _]. apply N.eqb_eq in H. left. auto.
Qed.

Lemma contains_whitespace_false : forall c p s,
  isspace c = true -> Forall (fun c => isspace c = false) s -> contains (c :: p) s = false.
Proof.
  intros c p s Hc Hs. destruct (contains (c :: p) s) eqn:Hcont; [|reflexivity].
  apply contains_head_in in Hcont. rewrite Forall_forall in Hs.
  specialize (Hs c Hcont). congruence.
Qed.

Lemma join_singles : forall cur,
  Forall single cur ->
  Forall (fun c => isspace c = false) (join [] cur) /\ (cur <> [] -> join [] cur <> []).
Proof.
  induction cur as [|d cur IH]; intros H; cbn.
  - split; [constructor|congruence].
  - apply Forall_cons_iff in H. destruct H as [(c & -> & Hc) H].
    destruct (IH H) as [IH1 _]. destruct cur as [|d' cur].
    + split; [repeat constructor; auto|discriminate].
    + split; [|discriminate]. cbn [app]. constructor; auto.
Qed.

Lemma join_docs_singles : forall cur,
  Forall single cur -> cur <> [] -> exists doc, _join_docs cur [] = Some doc.
Proof.
  intros cur H Hne. destruct (join_singles H) as [Hf Hn]. unfold _join_docs.
  rewrite (strip_id Hf). destruct (join [] cur) eqn:J; [now destruct (Hn Hne)|eauto].
Qed.

Lemma if_same : forall {A} (b : bool) (x : A), (if b then x else x) = x.
Proof. intros A [] x; reflexivity. Qed.

Lemma pop_loop_singles : forall cur total,
  total = length cur -> Forall single cur ->
  let (cd, t') := pop_loop chunk_size chunk_overlap 0 1 cur total in
  t' = length cd /\ Forall single cd
  /\ t' = pop_total chunk_size chunk_overlap (length cur) total.
Proof.
  induction cur as [|d cur IH]; intros total Ht Hf.
  - cbn. subst. auto.
  - apply Forall_cons_iff in Hf. destruct Hf as [Hd Hf].
    pose proof Hd as (c & -> & _).
    cbn [pop_loop pop_total length]. rewrite !if_same.
    destruct ((chunk_overlap <? total)
              || (chunk_size <? total + 1 + 0) && (0 <? total))%nat eqn:C.
    + apply IH; auto. cbn in Ht. lia.
    + repeat split; auto.
Qed.

Lemma merge_step_singles : forall docs cur total k c,
  length docs = k -> total = length cur -> Forall single cur -> isspace c = false ->
  let '(docs', cur', total') :=
    merge_step chunk_size chunk_overlap [] (docs, cur, total) [c] in
  let (k', t') := count_step chunk_size chunk_overlap (k, total) in
  length docs' = k' /\ total' = t' /\ total' = length cur' /\ Forall single cur'.
Proof.
  intros docs cur total k c Hk Ht Hf Hc.
  assert (Hs : single [c]) by (exists c; auto).
  unfold merge_step, count_step. cbn [length]. rewrite !if_same.
  destruct (chunk_size <? total + 1 + 0)%nat eqn:C.
  - destruct cur as [|d cur].
    + cbn in Ht. subst total. cbn. repeat split; auto.
    + destruct (@join_docs_singles (d :: cur) Hf) as (doc & ->); [discriminate|].
      pose proof (@pop_loop_singles (d :: cur) total Ht Hf) as Hp.
      destruct (pop_loop chunk_size chunk_overlap 0 1 (d :: cur) total) as [cd t'].
      destruct Hp as (Hp1 & Hp2 & Hp3). rewrite <- Ht in Hp3.
      destruct total as [|t0]; [discriminate|].
      rewrite ?if_same, !length_app. cbn [length].
      repeat split.
      * lia.
      * rewrite Hp3. reflexivity.
      * lia.
      * apply Forall_app. auto.
  - rewrite ?if_same, length_app. cbn [length]. repeat split; auto; try lia.
    apply Forall_app. auto.
Qed.

Lemma fold_merge_singles : forall s docs cur total k,
  Forall (fun c => isspace c = false) s ->
  length docs = k -> total = length cur -> Forall single cur ->
  let '(docs', cur', total') :=
    fold_left (merge_step chunk_size chunk_overlap []) (map (fun c => [c]) s)
              (docs, cur, total) in
  let (k', t') := Nat.iter (length s) (count_step chunk_size chunk_overlap) (k, total) in
  length docs' = k' /\ total' = t' /\ total' = length cur' /\ Forall single cur'.
Proof.
  induction s as [|c s IH]; intros docs cur total k Hs Hk Ht Hf.
  - cbn. auto.
  - apply Forall_cons_iff in Hs. destruct Hs as [Hc Hs].
    cbn [map fold_left length]. rewrite Nat.iter_succ_r.
    pose proof (@merge_step_singles docs cur total k c Hk Ht Hf Hc) as Hstep.
    destruct (merge_step chunk_size chunk_overlap [] (docs, cur, total) [c])
      as [[docs1 cur1] total1].
    destruct (count_step chunk_size chunk_overlap (k, total)) as [k1 t1].
    destruct Hstep as (H1 & H2 & H3 & H4). subst t1.
    apply IH; auto.
Qed.

Lemma merge_splits_singles : forall s,
  Forall (fun c => isspace c = false) s ->
  length (_merge_splits chunk_size chunk_overlap (map (fun c => [c]) s) [])
  = merge_count chunk_size chunk_overlap (length s).
Proof.
  intros s Hs. unfold _merge_splits, merge_count.
  pose proof (@fold_merge_singles s [] [] 0 0 Hs eq_refl eq_refl (Forall_nil _)) as H.
  destruct (fold_left _ _ _) as [[docs cur] total].
  destruct (Nat.iter _ _ _) as [k t]. destruct H as (H1 & H2 & H3 & H4).
  destruct cur as [|d cur].
  - cbn in H3. subst. cbn. reflexivity.
  - destruct (@join_docs_singles (d :: cur) H4) as (doc & ->); [discriminate|].
    cbn in H3. subst. rewrite length_app. cbn. lia.
Qed.

Lemma split_loop_singles : forall s good final,
  split_loop chunk_size chunk_overlap None (map (fun c => [c]) s) good final
  = match good ++ map (fun c => [c]) s with
    | [] => final
    | pieces => final ++ _merge_splits chunk_size chunk_overlap pieces []
    end.
Proof.
  induction s as [|c s IH]; intros good final; cbn [map split_loop].
  - rewrite app_nil_r. destruct good; reflexivity.
  - cbn [length]. assert (H1 : (1 <? chunk_size)%nat = true) by now apply Nat.ltb_lt.
    rewrite H1, IH, <- app_assoc. reflexivity.
Qed.

Lemma split_text_whitespace_free : forall s,
  Forall (fun c => isspace c = false) s -> s <> [] ->
  length (_split_text chunk_size chunk_overlap separators s)
  = merge_count chunk_size chunk_overlap (length s).
Proof.
  intros s Hs Hne. unfold separators. cbn [_split_text is_empty].
  rewrite !contains_whitespace_false by (auto; reflexivity).
  unfold _split_text_with_regex.
  assert (Hfil : forall l : codepoints,
            filter (fun p : codepoints => negb (is_empty p)) (map (fun c => [c]) l)
            = map (fun c => [c]) l).
  { induction l as [|c l IHl]; cbn; [reflexivity|]. now rewrite IHl. }
  rewrite Hfil, split_loop_singles. cbn [app].
  destruct s as [|c s]; [congruence|]. cbn [map].
  apply (@merge_splits_singles (c :: s) Hs).
Qed.

End Chunker.

Lemma C6_witness :
  exists w',
    _process_document_background sample_env "doc-b" world_with_blank_upload = (Ok tt, w')
    /\ documents (db w')
       = update_where (fun d => Document.id d =? "doc-b") (Document.set_status FAILED)
                      (documents (db world_with_blank_upload))
    /\ length (documents (db w')) = length (documents (db world_with_blank_upload))
    /\ status_of (db w') "doc-b" = Some FAILED.
Proof.
  apply (@C6_failure_recorded_not_raised sample_env "doc-b" world_with_blank_upload
           blank_document).
  - reflexivity.
  - unfold ingestion_fails. left. reflexivity.
Defined.

(** ** C4 *)

Lemma length_list_ascii_of_string : forall s,
  length (list_ascii_of_string s) = String.length s.
Proof. induction s; cbn; auto. Qed.

Lemma find_update_where_id : forall x g (l : list Document.t),
  (forall d, Document.id (g d) = Document.id d) ->
  find (fun d => Document.id d =? x)
       (update_where (fun d => Document.id d =? x) g l)
  = option_map g (find (fun d => Document.id d =? x) l).
Proof.
  intros x g l Hg. induction l as [|d l IH]; cbn; [reflexivity|].
  destruct (Document.id d =? x) eqn:Ed.
  - rewrite Hg, Ed. reflexivity.
  - rewrite Ed. exact IH.
Qed.

Lemma length_enumerate_from : forall {A} (l : list A) n,
  length (enumerate_from n l) = length l.
Proof. induction l as [|a l IH]; cbn; intros n; [reflexivity|]. now rewrite IH. Qed.

Lemma split_text_3000 : forall E text,
  CHUNK_SIZE (settings E) = 1000 -> CHUNK_OVERLAP (settings E) = 200 ->
  length text = 3000 -> whitespace_free text ->
  exists chunks, split_text E text = Ok chunks /\ length chunks = 4.
Proof.
  intros E text Hcs Hco Hlen Hws. unfold split_text. rewrite Hcs, Hco.
  change (1000 <? 200)%nat with false. cbv iota.
  eexists. split; [reflexivity|].
  rewrite split_text_whitespace_free.
  - rewrite Hlen. vm_compute. reflexivity.
  - apply Nat.ltb_lt. vm_compute. reflexivity.
  - exact Hws.
  - intros Hnil. rewrite Hnil in Hlen. discriminate.
Qed.

Lemma strip_whitespace_free : forall text, whitespace_free text -> strip text = text.
Proof. intros text H. exact (strip_id H). Qed.

(** C4, as amended.  With chunk size 1000 and overlap 200, ingesting a stored
    document whose extracted text is 3000 characters none of which is
    whitespace, when indexing does not raise, produces exactly 4 chunks, adds
    them to the index and leaves the document with status completed and
    chunk count 4.  Characters are code points, as [len] counts them, and
    whitespace is what [str.isspace] takes for it. *)
Theorem C4_ingesting_3000_plain_characters :
  forall E document_id w document text,
    CHUNK_SIZE (settings E) = 1000 ->
    CHUNK_OVERLAP (settings E) = 200 ->
    find (fun d => Document.id d =? document_id) (documents (db w)) = Some document ->
    extracted_text E document = Ok text ->
    length text = 3000 ->
    whitespace_free text ->
    (forall chunks, split_text E text = Ok chunks ->
                    embed_error E (indexed_chunks document_id document chunks) = None) ->
    exists chunks w',
      split_text E text = Ok chunks
      /\ length chunks = 4
      /\ _process_document_background E document_id w = (Ok tt, w')
      /\ length (vectorstore w') = length (vectorstore w) + 4
      /\ status_of (db w') document_id = Some COMPLETED
      /\ option_map Document.chunkCount
                    (find (fun d => Document.id d =? document_id) (documents (db w')))
         = Some (Some 4)
      /\ length (documents (db w')) = length (documents (db w)).
Proof.
  intros E document_id w document text Hcs Hco F Hex Hlen Hws Hemb.
  pose proof (find_id_eq _ _ F) as Hid.
  destruct (split_text_3000 E Hcs Hco Hlen Hws) as (chunks & Hsplit & H4).
  specialize (Hemb chunks Hsplit).
  assert (Hne : is_empty (strip text) = false).
  { rewrite (strip_whitespace_free Hws). destruct text; [discriminate|reflexivity]. }
  exists chunks.
  unfold _process_document_background. step.
  cbn -[_extract_text_from_file add_document_to_vectorstore strip is_empty update_where].
  rewrite F, extract_run, Hex. cbn [fst snd]. rewrite Hne.
  unfold add_document_to_vectorstore, bind, lift. rewrite Hsplit. cbv beta iota.
  unfold indexed_chunks in Hemb. rewrite Hemb.
  unfold add_documents. step. cbn -[update_where langchain_documents].
  rewrite Hid, H4.
  eexists. split; [reflexivity|]. split; [reflexivity|]. split; [reflexivity|].
  cbn [db documents vectorstore]. split.
  { rewrite length_app. unfold langchain_documents.
    rewrite length_map, length_enumerate_from, H4. reflexivity. }
  unfold status_of. cbn [documents].
  rewrite !find_update_where_id by reflexivity. rewrite F.
  split; [reflexivity|]. split; [reflexivity|].
  unfold update_where. now rewrite !length_map.
Qed.

Lemma whitespace_free_plain_text : whitespace_free (codepoints_of_string plain_text).
Proof.
  unfold whitespace_free, codepoints_of_string, plain_text.
  rewrite list_ascii_of_string_of_list_ascii, map_repeat.
  apply Forall_forall. intros c Hc. apply repeat_spec in Hc. subst. reflexivity.
Qed.

Lemma C4_witness :
  exists chunks w',
    split_text sample_env (codepoints_of_string plain_text) = Ok chunks
    /\ length chunks = 4
    /\ _process_document_background sample_env "doc-p" world_with_plain_upload = (Ok tt, w')
    /\ length (vectorstore w') = length (vectorstore world_with_plain_upload) + 4
    /\ status_of (db w') "doc-p" = Some COMPLETED
    /\ option_map Document.chunkCount
                  (find (fun d => Document.id d =? "doc-p") (documents (db w')))
       = Some (Some 4)
    /\ length (documents (db w')) = length (documents (db world_with_plain_upload)).
Proof.
  apply (@C4_ingesting_3000_plain_characters sample_env "doc-p" world_with_plain_upload
           (Document.mk "doc-p" (Some "default-user") "plain.txt" plain_text TEXT 3000
                        PROCESSING (Some 0) 8 8 None)
           (codepoints_of_string plain_text)).
  - reflexivity.
  - reflexivity.
  - reflexivity.
  - reflexivity.
  - vm_compute. reflexivity.
  - exact whitespace_free_plain_text.
  - intros chunks _. reflexivity.
Defined.

(** Counterexample to C4 as stated: a text file of 3000 characters, a letter,
    2998 tabs and a letter, ingested with chunk size 1000 and overlap 200,
    yields 2 chunks, and the document is left completed with chunk count 2. *)
Lemma C4_counterexample_tabbed_text :
  length (codepoints_of_string tabbed_text) = 3000
  /\ CHUNK_SIZE (settings sample_env) = 1000
  /\ CHUNK_OVERLAP (settings sample_env) = 200
  /\ extracted_text sample_env
       (Document.mk "doc-t" (Some "default-user") "notes.txt" tabbed_text TEXT 3000
                    PROCESSING (Some 0) 8 8 None)
     = Ok (codepoints_of_string tabbed_text)
  /\ option_map (@length codepoints)
       (match split_text sample_env (codepoints_of_string tabbed_text) with
        | Ok chunks => Some chunks
        | Raise _ => None
        end) = Some 2
  /\ let w' := snd (_process_document_background sample_env "doc-t"
                      world_with_tabbed_upload) in
     status_of (db w') "doc-t" = Some COMPLETED
     /\ option_map Document.chunkCount
                   (find (fun d => Document.id d =? "doc-t") (documents (db w')))
        = Some (Some 2)
     /\ option_map Document.chunkCount
                   (find (fun d => Document.id d =? "doc-t") (documents (db w')))
        <> Some (Some 4).
Proof. vm_compute. repeat split; discriminate. Qed.

(** Length and whitespace are those of Python: 1000 Hangul syllables make
    one chunk of 1000 characters, a text of no-break spaces or of an
    ideographic space is blank, and an overlap above the chunk size stops the
    splitter. *)
Lemma split_text_counts_characters :
  split_text sample_env (repeat 44032%N 1000) = Ok [repeat 44032%N 1000].
Proof. vm_compute. reflexivity. Qed.

Lemma no_break_spaces_are_blank :
  strip (repeat 160%N 3000) = [] /\ strip [12288%N] = [].
Proof. vm_compute. split; reflexivity. Qed.

Lemma split_text_refuses_larger_overlap : forall E text,
  CHUNK_SIZE (settings E) < CHUNK_OVERLAP (settings E) ->
  exists e, split_text E text = Raise e.
Proof.
  intros E text H. unfold split_text. apply Nat.ltb_lt in H. rewrite H. eauto.
Qed.

(** ** C5 *)

Lemma documents_flush_quiet : forall ops t,
  Forall document_neutral ops -> documents (flush t ops) = documents t.
Proof.
  induction ops as [|op ops IH]; cbn; intros t H; auto.
  apply Forall_cons_iff in H. destruct H as [Hop H].
  unfold flush in IH. rewrite IH; auto. destruct op; cbn in *; tauto.
Qed.

Lemma documents_are_closed : forall D T n0, closed document_neutral (documents_are D T n0).
Proof.
  intros D T n0. unfold documents_are.
  constructor; intros; cbn in *; intuition auto.
  - apply Forall_app; auto.
  - now rewrite documents_flush_quiet.
Qed.

(** A message request leaves documents and tasks as they are. *)
Lemma post_messages_frame : forall E message_data w,
  let w' := snd (post_messages E message_data w) in
  documents (db w') = documents (db w)
  /\ background_tasks w' = background_tasks w
  /\ ulid_count w <= ulid_count w'.
Proof.
  intros E message_data w. unfold post_messages.
  pose proof (documents_are_closed (documents (db w)) (background_tasks w) (ulid_count w))
    as HI.
  pose proof (@keeps_create_message _ _ HI (fun _ => Logic.I) (fun _ => Logic.I)
                (fun _ => Logic.I) (fun _ => Logic.I) (fun _ _ => Logic.I)
                E message_data (snd (db_open w))) as Hk.
  destruct (create_message E message_data (snd (db_open w))) as [r w'].
  cbn in *. destruct Hk as (H1 & _ & H3 & H4); auto.
  unfold documents_are. cbn. auto.
Qed.

(** The three outcomes of an upload: rejected before any row is written;
    stored, with its task scheduled; removed again after storage failed. *)
Lemma post_documents_run : forall E file uid w,
  let w' := snd (post_documents E file uid w) in
  let new_id := ULID E (ulid_count w) in
  (documents (db w') = documents (db w)
   /\ background_tasks w' = background_tasks w /\ ulid_count w' = ulid_count w)
  \/ (exists nd url,
        Document.id nd = new_id /\ Document.status nd = PROCESSING
        /\ documents (db w')
           = update_where (fun d => Document.id d =? new_id) (Document.set_filePath url)
                          (documents (db w) ++ [nd])
        /\ background_tasks w' = background_tasks w ++ [new_id]
        /\ ulid_count w' = S (ulid_count w))
  \/ (exists nd,
        Document.id nd = new_id
        /\ documents (db w')
           = filter (fun d => negb (Document.id d =? new_id)) (documents (db w) ++ [nd])
        /\ background_tasks w' = background_tasks w
        /\ ulid_count w' = S (ulid_count w)).
Proof.
  intros E file uid w. unfold post_documents, upload_document.
  destruct (file_filename file) as [name|]; [|left; cbn; auto].
  destruct (name =? "")%string; [left; cbn; auto|].
  destruct (FileType_of (file_extension_of name)) as [ft|]; [|left; cbn; auto].
  destruct (MAX_FILE_SIZE <? N.of_nat (String.length (file_bytes file)))%N;
    [left; cbn; auto|].
  exec. destruct (gcs_upload E _ _) as [url|e]; exec;
    cbn [flush fold_left flush_one app documents Document.id].
  - right; left.
    exists (Document.mk (ULID E (ulid_count w)) (Some uid) name "" ft
                        (String.length (file_bytes file)) PROCESSING (Some 0)
                        (clock w) (clock w) None), url.
    repeat split; reflexivity.
  - right; right.
    exists (Document.mk (ULID E (ulid_count w)) (Some uid) name "" ft
                        (String.length (file_bytes file)) PROCESSING (Some 0)
                        (clock w) (clock w) None).
    repeat split; reflexivity.
Qed.

Lemma update_where_compose : forall {A} (p : A -> bool) (g1 g2 : A -> A) l,
  (forall a, p (g1 a) = p a) ->
  update_where p g2 (update_where p g1 l) = update_where p (fun a => g2 (g1 a)) l.
Proof.
  intros A p g1 g2 l Hp. unfold update_where. rewrite map_map. apply map_ext.
  intros a. destruct (p a) eqn:Pa; [rewrite Hp, Pa|rewrite Pa]; reflexivity.
Qed.

(** A background task leaves the table alone when no row has its id, and
    otherwise rewrites the rows of its id, keeping their id and making them
    completed or failed. *)
Lemma process_run : forall E x w,
  let w' := snd (_process_document_background E x w) in
  background_tasks w' = background_tasks w /\ ulid_count w' = ulid_count w
  /\ match find (fun d => Document.id d =? x) (documents (db w)) with
     | None => documents (db w') = documents (db w)
     | Some _ =>
         exists g,
           documents (db w') = update_where (fun d => Document.id d =? x) g (documents (db w))
           /\ forall d, Document.id (g d) = Document.id d
                        /\ (Document.status (g d) = COMPLETED
                            \/ Document.status (g d) = FAILED)
     end.
Proof.
  intros E x w. unfold _process_document_background. step.
  cbn -[_extract_text_from_file add_document_to_vectorstore strip is_empty update_where].
  destruct (find _ (documents (db w))) as [document|] eqn:F; [|cbn; auto].
  pose proof (find_id_eq _ _ F) as Hid. rewrite extract_run.
  assert (Hfail : forall w0 : World,
    exists g,
      update_where (fun d => Document.id d =? Document.id document)
                   (Document.set_status FAILED) (documents (db w))
      = update_where (fun d => Document.id d =? x) g (documents (db w))
      /\ forall d, Document.id (g d) = Document.id d
                   /\ (Document.status (g d) = COMPLETED \/ Document.status (g d) = FAILED)).
  { intros _. exists (Document.set_status FAILED). rewrite Hid. split; [reflexivity|].
    intros d. cbn. auto. }
  destruct (extracted_text E document) as [text|e]; cbn [fst snd].
  - destruct (is_empty (strip text)); cbn -[update_where add_document_to_vectorstore].
    + repeat split. apply (Hfail w).
    + unfold add_document_to_vectorstore, add_documents, bind, lift.
      destruct (split_text E text) as [chunks|e0];
        [|cbn -[update_where]; repeat split; apply (Hfail w)].
      destruct (embed_error E _) as [e|]; step; cbn -[update_where].
      * repeat split. apply (Hfail w).
      * repeat split.
        rewrite update_where_compose by reflexivity. rewrite Hid.
        eexists. split; [reflexivity|]. intros d. cbn. auto.
  - cbn -[update_where]. repeat split. apply (Hfail w).
Qed.

Lemma find_map_preserving : forall {A} (q : A -> bool) (h : A -> A) l,
  (forall a, q (h a) = q a) -> find q (map h l) = option_map h (find q l).
Proof.
  intros A q h l Hq. induction l as [|a l IH]; cbn; [reflexivity|].
  rewrite Hq. destruct (q a); [reflexivity|exact IH].
Qed.

Lemma find_append : forall {A} (q : A -> bool) l l',
  find q (l ++ l') = match find q l with Some a => Some a | None => find q l' end.
Proof.
  intros A q l l'. induction l as [|a l IH]; cbn; [reflexivity|].
  destruct (q a); [reflexivity|exact IH].
Qed.

Lemma allowed_change_refl : forall o, allowed_change o o.
Proof. intros [s|]; cbn; auto. Qed.

Lemma NoDup_snoc : forall {A} (l : list A) a, NoDup l -> ~ In a l -> NoDup (l ++ [a]).
Proof.
  intros A l a Hl Ha. apply (Permutation_NoDup (l := a :: l)).
  - apply Permutation_cons_append.
  - constructor; auto.
Qed.

Section Lifecycle.

Variable E : Env.
Hypothesis ULID_inj : forall m n, ULID E m = ULID E n -> m = n.

Lemma fresh_id : forall w d,
  system_inv E w -> In d (documents (db w)) -> Document.id d <> ULID E (ulid_count w).
Proof.
  intros w d (H1 & _) Hin Heq. destruct (H1 d Hin) as (n & Hn & Hid).
  rewrite Hid in Heq. apply ULID_inj in Heq. lia.
Qed.

Lemma fresh_task : forall w, system_inv E w -> ~ In (ULID E (ulid_count w)) (background_tasks w).
Proof.
  intros w (_ & H2 & _) Hin. destruct (H2 _ Hin) as (n & Hn & Hid).
  apply ULID_inj in Hid. lia.
Qed.

Lemma filter_fresh : forall w nd,
  system_inv E w -> Document.id nd = ULID E (ulid_count w) ->
  filter (fun d => negb (Document.id d =? ULID E (ulid_count w))) (documents (db w) ++ [nd])
  = documents (db w).
Proof.
  intros w nd Hinv Hid. rewrite filter_app. cbn. rewrite Hid, String.eqb_refl. cbn.
  rewrite app_nil_r. pose proof (fun d => @fresh_id w d Hinv) as Hf.
  induction (documents (db w)) as [|d l IH]; cbn; [reflexivity|].
  destruct (Document.id d =? ULID E (ulid_count w)) eqn:Ed.
  - apply String.eqb_eq in Ed. destruct (Hf d); cbn; auto.
  - cbn. f_equal. apply IH. intros d' Hd'. apply Hf. cbn; auto.
Qed.

Lemma updated_in : forall (p : Document.t -> bool) g l d',
  In d' (update_where p g l) -> exists d, In d l /\ d' = (if p d then g d else d).
Proof.
  intros p g l d' Hin. unfold update_where in Hin. apply in_map_iff in Hin.
  destruct Hin as (d & <- & Hin). eauto.
Qed.

Lemma inv_upload : forall file uid w,
  system_inv E w -> system_inv E (run E (Upload file uid) w).
Proof.
  intros file uid w Hinv. pose proof Hinv as (H1 & H2 & H3 & H4 & H5). cbn [run].
  pose proof (post_documents_run E file uid w) as Hrun. cbn zeta in Hrun.
  destruct Hrun
    as [(Hd & Ht & Hc)|[(nd & url & Hid & Hst & Hd & Ht & Hc)|(nd & Hid & Hd & Ht & Hc)]];
    unfold system_inv; rewrite Hd, Ht, Hc.
  - auto.
  - assert (Hsame : forall (b : bool) d,
              Document.id (if b then Document.set_filePath url d else d) = Document.id d
              /\ Document.status (if b then Document.set_filePath url d else d)
                 = Document.status d) by (intros [] d; auto).
    split; [|split; [|split; [|split]]].
    + intros d' Hin. apply updated_in in Hin. destruct Hin as (d & Hin & ->).
      rewrite (proj1 (Hsame _ d)). apply in_app_or in Hin. destruct Hin as [Hin|[<-|[]]].
      * destruct (H1 d Hin) as (n & Hn & Hn'). exists n. split; [lia|auto].
      * exists (ulid_count w). split; [lia|auto].
    + intros x Hin. apply in_app_or in Hin. destruct Hin as [Hin|[<-|[]]].
      * destruct (H2 x Hin) as (n & Hn & Hn'). exists n. split; [lia|auto].
      * exists (ulid_count w). split; [lia|auto].
    + intros d' Hin Htask. apply updated_in in Hin. destruct Hin as (d & Hin & ->).
      rewrite (proj1 (Hsame _ d)) in Htask. rewrite (proj2 (Hsame _ d)).
      apply in_app_or in Hin. destruct Hin as [Hin|[<-|[]]]; [|exact Hst].
      apply in_app_or in Htask. destruct Htask as [Htask|[Heq|[]]]; [auto|].
      symmetry in Heq. destruct (@fresh_id w d Hinv Hin Heq).
    + apply NoDup_snoc; auto. now apply fresh_task.
    + intros x Hin. apply in_app_or in Hin. destruct Hin as [Hin|[<-|[]]].
      * destruct (H5 x Hin) as (d & Hd' & Hdx).
        exists (if Document.id d =? ULID E (ulid_count w)
                then Document.set_filePath url d else d).
        split; [|now rewrite (proj1 (Hsame _ d))].
        unfold update_where. apply in_map_iff. exists d. split; [reflexivity|].
        apply in_or_app. auto.
      * exists (if Document.id nd =? ULID E (ulid_count w)
                then Document.set_filePath url nd else nd).
        split; [|now rewrite (proj1 (Hsame _ nd))].
        unfold update_where. apply in_map_iff. exists nd. split; [reflexivity|].
        apply in_or_app. right. left. reflexivity.
  - rewrite (@filter_fresh w nd Hinv Hid). split; [|split; [|split; [|split]]]; auto.
    + intros d Hin. destruct (H1 d Hin) as (n & Hn & Hn'). exists n. split; [lia|auto].
    + intros x Hin. destruct (H2 x Hin) as (n & Hn & Hn'). exists n. split; [lia|auto].
Qed.

Lemma inv_task : forall w, system_inv E w -> system_inv E (run E RunBackgroundTask w).
Proof.
  intros w Hinv. pose proof Hinv as (H1 & H2 & H3 & H4 & H5). cbn [run].
  destruct (background_tasks w) as [|pid rest] eqn:Tasks; [exact Hinv|].
  match goal with |- system_inv E (snd (_process_document_background E pid ?w0)) =>
    pose proof (process_run E pid w0) as Hrun end.
  cbn zeta in Hrun. cbn [background_tasks ulid_count db] in Hrun.
  destruct Hrun as (Ht & Hc & Hd). unfold system_inv. rewrite Ht, Hc.
  apply NoDup_cons_iff in H4. destruct H4 as [Hpid Hrest].
  destruct (find (fun d => Document.id d =? pid) (documents (db w))) as [found|].
  - destruct Hd as (g & Hd & Hg). rewrite Hd.
    assert (Hsame : forall d,
              Document.id (if Document.id d =? pid then g d else d) = Document.id d).
    { intros d. destruct (_ =? _); [apply (proj1 (Hg d))|reflexivity]. }
    split; [|split; [|split; [|split]]]; auto.
    + intros d' Hin. apply updated_in in Hin. destruct Hin as (d & Hin & ->).
      rewrite Hsame. auto.
    + intros x Hin. apply H2. right; auto.
    + intros d' Hin Htask. apply updated_in in Hin. destruct Hin as (d & Hin & ->).
      rewrite Hsame in Htask. destruct (Document.id d =? pid) eqn:Ed.
      * apply String.eqb_eq in Ed. rewrite Ed in Htask. contradiction.
      * apply H3; auto. right; auto.
    + intros x Hin. destruct (H5 x (or_intror Hin)) as (d & Hd' & Hdx).
      exists (if Document.id d =? pid then g d else d). split; [|now rewrite Hsame].
      unfold update_where. apply in_map_iff. exists d. auto.
  - rewrite Hd. split; [|split; [|split; [|split]]]; auto.
    + intros x Hin. apply H2. right; auto.
    + intros d Hin Htask. apply H3; auto. right; auto.
    + intros x Hin. apply H5. right; auto.
Qed.

Lemma inv_message : forall message_data w,
  system_inv E w -> system_inv E (run E (CreateMessage message_data) w).
Proof.
  intros message_data w Hinv. pose proof Hinv as (H1 & H2 & H3 & H4 & H5). cbn [run].
  pose proof (post_messages_frame E message_data w) as Hf. cbn zeta in Hf.
  destruct Hf as (Hd & Ht & Hc). unfold system_inv. rewrite Hd, Ht.
  split; [|split; [|split; [|split]]]; auto.
  - intros d Hin. destruct (H1 d Hin) as (n & Hn & Hn'). exists n. split; [lia|auto].
  - intros x Hin. destruct (H2 x Hin) as (n & Hn & Hn'). exists n. split; [lia|auto].
Qed.

Lemma inv_run : forall op w, system_inv E w -> system_inv E (run E op w).
Proof.
  intros [file uid| |message_data] w Hinv;
    [now apply inv_upload | now apply inv_task | now apply inv_message].
Qed.

Lemma reachable_inv : forall w, reachable E w -> system_inv E w.
Proof.
  induction 1 as [|w op Hr IH].
  - unfold system_inv, initial_world. cbn.
    split; [|split; [|split; [|split]]]; try (intros; contradiction). constructor.
  - now apply inv_run.
Qed.

End Lifecycle.

Section LifecycleSteps.

Variable E : Env.
Hypothesis ULID_inj : forall m n, ULID E m = ULID E n -> m = n.

Lemma status_of_documents : forall t t' x,
  documents t' = documents t -> status_of t' x = status_of t x.
Proof. intros t t' x H. unfold status_of. now rewrite H. Qed.

Lemma step_allowed : forall op w x,
  system_inv E w -> allowed_change (status_of (db w) x) (status_of (db (run E op w)) x).
Proof.
  intros op w x Hinv. pose proof Hinv as (H1 & H2 & H3 & H4 & H5).
  destruct op as [file uid| |message_data]; cbn [run].
  - pose proof (post_documents_run E file uid w) as Hrun. cbn zeta in Hrun.
    destruct Hrun as [(Hd & _)|[(nd & url & Hid & Hst & Hd & _)|(nd & Hid & Hd & _)]].
    + rewrite (@status_of_documents _ _ x Hd). apply allowed_change_refl.
    + unfold status_of. rewrite Hd. unfold update_where.
      rewrite find_map_preserving
        by (intros a; destruct (Document.id a =? ULID E (ulid_count w)); reflexivity).
      rewrite find_append.
      destruct (find (fun d => Document.id d =? x) (documents (db w))) as [d|]; cbn.
      * left. destruct (_ =? _); reflexivity.
      * destruct (Document.id nd =? x); cbn; [|exact Logic.I].
        destruct (_ =? _); cbn; exact Hst.
    + rewrite (@filter_fresh E ULID_inj w nd Hinv Hid) in Hd.
      rewrite (@status_of_documents _ _ x Hd). apply allowed_change_refl.
  - destruct (background_tasks w) as [|pid rest] eqn:Tasks; [apply allowed_change_refl|].
    match goal with |- context [snd (_process_document_background E pid ?w0)] =>
      pose proof (process_run E pid w0) as Hrun end.
    cbn zeta in Hrun. cbn [background_tasks ulid_count db] in Hrun.
    destruct Hrun as (_ & _ & Hd).
    destruct (find (fun d => Document.id d =? pid) (documents (db w))) as [found|].
    + destruct Hd as (g & Hd & Hg).
      unfold status_of. rewrite Hd. unfold update_where.
      rewrite find_map_preserving
        by (intros a; destruct (Document.id a =? pid); [rewrite (proj1 (Hg a))|];
            reflexivity).
      destruct (find (fun d => Document.id d =? x) (documents (db w))) as [d|] eqn:F; cbn;
        [|exact Logic.I].
      destruct (Document.id d =? pid) eqn:Ed; [|left; reflexivity].
      right. apply find_some in F. destruct F as [Hin _].
      apply String.eqb_eq in Ed. split; [|exact (proj2 (Hg d))].
      apply H3; auto. rewrite Ed. left. reflexivity.
    + rewrite (@status_of_documents _ _ x Hd). apply allowed_change_refl.
  - pose proof (post_messages_frame E message_data w) as Hf. cbn zeta in Hf.
    destruct Hf as (Hd & _). rewrite (@status_of_documents _ _ x Hd).
    apply allowed_change_refl.
Qed.

(** A scheduled task, once run, settles its document. *)
Lemma task_settles : forall w pid rest,
  system_inv E w -> background_tasks w = pid :: rest ->
  status_of (db w) pid = Some PROCESSING
  /\ (status_of (db (run E RunBackgroundTask w)) pid = Some COMPLETED
      \/ status_of (db (run E RunBackgroundTask w)) pid = Some FAILED).
Proof.
  intros w pid rest Hinv Tasks. pose proof Hinv as (H1 & H2 & H3 & H4 & H5).
  cbn [run]. rewrite Tasks.
  assert (Hpid : In pid (background_tasks w)) by (rewrite Tasks; left; reflexivity).
  destruct (H5 pid Hpid) as (d0 & Hin0 & Hid0).
  match goal with |- context [snd (_process_document_background E pid ?w0)] =>
    pose proof (process_run E pid w0) as Hrun end.
  cbn zeta in Hrun. cbn [background_tasks ulid_count db] in Hrun.
  destruct Hrun as (_ & _ & Hd). unfold status_of.
  destruct (find (fun d => Document.id d =? pid) (documents (db w))) as [found|] eqn:F.
  - pose proof (find_some _ _ F) as [Hin Heq]. apply String.eqb_eq in Heq.
    split.
    + cbn. f_equal. apply H3; auto. now rewrite Heq.
    + destruct Hd as (g & Hd & Hg). rewrite Hd. unfold update_where.
      rewrite find_map_preserving
        by (intros a; destruct (Document.id a =? pid) eqn:Ea;
            [rewrite (proj1 (Hg a)), Ea|rewrite Ea]; reflexivity).
      rewrite F. cbn. rewrite Heq, String.eqb_refl.
      destruct (proj2 (Hg found)) as [-> | ->]; auto.
  - apply (find_none _ _ F) in Hin0. rewrite Hid0, String.eqb_refl in Hin0. discriminate.
Qed.

Lemma reachable_run_all : forall ops w, reachable E w -> reachable E (run_all E ops w).
Proof.
  induction ops as [|op ops IH]; intros w Hr; cbn; auto.
  apply IH. now constructor.
Qed.

Lemma settled_forever : forall ops w x s,
  reachable E w -> status_of (db w) x = Some s -> s <> PROCESSING ->
  status_of (db (run_all E ops w)) x = Some s.
Proof.
  induction ops as [|op ops IH]; intros w x s Hr Hs Hne; cbn; auto.
  apply IH; auto; [now constructor|].
  pose proof (@step_allowed op w x (@reachable_inv E ULID_inj w Hr)) as Ha.
  rewrite Hs in Ha. destruct (status_of (db (run E op w)) x) as [s'|]; cbn in Ha.
  - destruct Ha as [->|[Hp _]]; [reflexivity|contradiction].
  - contradiction.
Qed.

End LifecycleSteps.

(** C5.  With identifiers never repeated, in every state the server reaches:
    across any one operation the status recorded for a document id either
    stays as it is, or appears as processing (the row is created), or goes
    from processing to completed or to failed; a status that is completed or
    failed stays that same status through any further operations, so a
    document changes status at most once and never between completed and
    failed; and the document of the next scheduled task is processing and is
    completed or failed once that task has run. *)
Theorem C5_status_lifecycle :
  forall E,
    (forall m n, ULID E m = ULID E n -> m = n) ->
    forall w, reachable E w ->
      (forall op x, allowed_change (status_of (db w) x) (status_of (db (run E op w)) x))
      /\ (forall ops x s,
            status_of (db w) x = Some s -> s <> PROCESSING ->
            status_of (db (run_all E ops w)) x = Some s)
      /\ (forall pid rest,
            background_tasks w = pid :: rest ->
            status_of (db w) pid = Some PROCESSING
            /\ (status_of (db (run E RunBackgroundTask w)) pid = Some COMPLETED
                \/ status_of (db (run E RunBackgroundTask w)) pid = Some FAILED)).
Proof.
  intros E Hinj w Hr. split; [|split].
  - intros op x. apply (@step_allowed E Hinj). now apply reachable_inv.
  - intros ops x s. now apply (@settled_forever E Hinj).
  - intros pid rest. apply (@task_settles E). now apply reachable_inv.
Qed.

Lemma sample_ULID_inj : forall m n, sample_ULID m = sample_ULID n -> m = n.
Proof.
  unfold sample_ULID. intros m n H.
  apply (f_equal list_ascii_of_string) in H.
  rewrite !list_ascii_of_string_of_list_ascii in H.
  apply (f_equal (@length ascii)) in H. rewrite !repeat_length in H. lia.
Qed.

Lemma C5_witness :
  let w := run sample_env (Upload sample_file "default-user") initial_world in
  status_of (db w) (sample_ULID 0) = Some PROCESSING
  /\ allowed_change (status_of (db w) (sample_ULID 0))
                    (status_of (db (run sample_env RunBackgroundTask w)) (sample_ULID 0))
  /\ status_of (db (run sample_env RunBackgroundTask w)) (sample_ULID 0) = Some COMPLETED
  /\ status_of (db (run_all sample_env
                      [RunBackgroundTask; Upload sample_file "default-user";
                       RunBackgroundTask]
                      (run sample_env RunBackgroundTask w)))
               (sample_ULID 0) = Some COMPLETED.
Proof.
  intros w.
  assert (Hr : reachable sample_env w) by (apply reachable_run, reachable_initial).
  assert (Hr' : reachable sample_env (run sample_env RunBackgroundTask w))
    by (apply reachable_run, Hr).
  pose proof (proj1 (@C5_status_lifecycle sample_env sample_ULID_inj w Hr)) as Hstep.
  pose proof (@C5_status_lifecycle sample_env sample_ULID_inj
                (run sample_env RunBackgroundTask w) Hr') as H'.
  pose proof (proj1 (proj2 H')) as Hlater.
  split; [vm_compute; reflexivity|].
  split; [apply Hstep|].
  split; [vm_compute; reflexivity|].
  apply Hlater; [vm_compute; reflexivity|discriminate].
Defined.

(** * Ownership, links, uploads, chunk sizes and the message listing *)

(** X1.  A message addressed to a chat that does not exist, is soft-deleted
    or belongs to another user is answered with 404, and the request leaves
    the store as it was, consumes no identifier and does not call the model. *)
Theorem X1_foreign_chat_rejected_untouched :
  forall E message_data w cid,
    chat_id message_data = Some cid ->
    owned_chat (db w) cid (user_id message_data) = None ->
    exists detail w',
      post_messages E message_data w = (Raise (HTTPException 404 detail), w')
      /\ db w' = db w
      /\ ulid_count w' = ulid_count w
      /\ llm_calls w' = llm_calls w.
Proof.
  intros E message_data w cid Hc Hown.
  unfold post_messages, create_message, resolve_chat. rewrite Hc.
  unfold validate_chat_ownership, owned_chat in *. step. cbn [db_open db_rollback snd db] in *.
  destruct (find _ (chats (db w))) as [c|].
  - destruct (Chat.userId c) as [u|].
    + destruct (u =? user_id message_data); [discriminate|].
      cbn. eexists _, _. split; [reflexivity|]. cbn. auto.
    + cbn. eexists _, _. split; [reflexivity|]. cbn. auto.
  - cbn. eexists _, _. split; [reflexivity|]. cbn. auto.
Qed.

Lemma X1_witness :
  exists detail w',
    post_messages sample_env
      (mkMessageCreate "Hello" (Some "chat-1") None None "another-user") sample_world
    = (Raise (HTTPException 404 detail), w')
    /\ db w' = db sample_world
    /\ ulid_count w' = ulid_count sample_world
    /\ llm_calls w' = llm_calls sample_world.
Proof.
  apply (@X1_foreign_chat_rejected_untouched sample_env
           (mkMessageCreate "Hello" (Some "chat-1") None None "another-user")
           sample_world "chat-1"); reflexivity.
Defined.

Lemma validate_category_ownership_none : forall cat uid w,
  owned_category (db w) cat uid = None ->
  exists detail, validate_category_ownership cat uid w = (Raise (HTTPException 404 detail), w).
Proof.
  intros cat uid w H. unfold validate_category_ownership, owned_category in *. step.
  destruct (find _ (categories (db w))) as [c|]; [|eauto].
  destruct (Category.userId c) as [u|]; [|eauto].
  destruct (u =? uid); [discriminate|eauto].
Qed.

(** X2.  A first message (no chat id) naming a category the caller does not
    own (missing, soft-deleted or another user's) is answered with 404 before
    any chat is created: the store is unchanged and no identifier is
    consumed. *)
Theorem X2_unknown_category_rejected_before_creation :
  forall E message_data w cat,
    chat_id message_data = None ->
    category_id message_data = Some cat -> cat <> "" ->
    owned_category (db w) cat (user_id message_data) = None ->
    exists detail w',
      post_messages E message_data w = (Raise (HTTPException 404 detail), w')
      /\ db w' = db w
      /\ ulid_count w' = ulid_count w.
Proof.
  intros E message_data w cat Hc Hcat Hne Hown.
  assert (Ht : truthy_str (Some cat) = true).
  { cbn. destruct (cat =? "") eqn:Eq; [apply String.eqb_eq in Eq; contradiction|reflexivity]. }
  unfold post_messages, create_message, resolve_chat. rewrite Hc.
  unfold _create_new_chat_with_message. rewrite Hcat, Ht.
  destruct (@validate_category_ownership_none cat (user_id message_data) (snd (db_open w)))
    as (detail & Hv); [exact Hown|].
  unfold bind at 1 2 3 4. unfold bind at 1. rewrite Hv.
  eexists _, _. split; [reflexivity|]. cbn. auto.
Qed.

Lemma X2_witness :
  exists detail w',
    post_messages sample_env
      (mkMessageCreate "Hello" None None (Some "cat-9") "default-user") sample_world
    = (Raise (HTTPException 404 detail), w')
    /\ db w' = db sample_world
    /\ ulid_count w' = ulid_count sample_world.
Proof.
  apply (@X2_unknown_category_rejected_before_creation sample_env
           (mkMessageCreate "Hello" None None (Some "cat-9") "default-user")
           sample_world "cat-9"); [reflexivity | reflexivity | discriminate | reflexivity].
Defined.

Lemma messages_flush_add_touch : forall t ops m cid u,
  Forall no_new_message ops ->
  messages (flush t (ops ++ [Add_Message m; Set_Chat_updatedAt cid u])) = messages t ++ [m].
Proof.
  intros t ops m cid u H. rewrite flush_app. cbn.
  now rewrite messages_flush_quiet.
Qed.

(** Generation always ends with a stored assistant turn when the chat row
    exists. *)
Lemma generate_ai_response_ok : forall E cid q docs w,
  chat_present cid (db w) -> Forall no_new_message (pending w) ->
  exists am w',
    _generate_ai_response E cid q docs w = (Ok am, w')
    /\ messages (db w') = messages (db w) ++ [am]
    /\ Message.role am = ASSISTANT /\ Message.chatId am = cid
    /\ Message.deletedAt am = None
    /\ Message.createdAt am = clock w
    /\ pending w' = [].
Proof.
  intros E cid q docs w Hc Hq. unfold _generate_ai_response, try_except, bind.
  pose proof (generate_content_run E cid q docs w) as H. cbn zeta in H.
  destruct (generate_content E cid q docs w) as [[[c srcs]|e] w1]; cbn [fst snd] in H;
    destruct H as (Hdb & Hp & Hclk & _); cbn [fst snd].
  - rewrite (@persist_assistant_present E cid c srcs w1) by (rewrite Hdb; exact Hc).
    eexists _, _. split; [reflexivity|]. cbn [db pending].
    rewrite messages_flush_add_touch by (rewrite Hp; exact Hq).
    rewrite Hdb. cbn. auto 10.
  - unfold db_rollback.
    match goal with |- context [persist_assistant E cid ?c0 None ?w0] =>
      rewrite (@persist_assistant_present E cid c0 None w0)
        by (cbn [db]; rewrite Hdb; exact Hc) end.
    eexists _, _. split; [reflexivity|]. cbn [db pending].
    rewrite (@messages_flush_add_touch _ []) by constructor.
    rewrite Hdb. cbn. auto 10.
Qed.

(** The same from an empty session, with the whole store it leaves. *)
Lemma generate_ai_response_clean : forall E cid q docs w,
  chat_present cid (db w) -> pending w = [] ->
  exists am u w',
    _generate_ai_response E cid q docs w = (Ok am, w')
    /\ db w' = flush (db w) [Add_Message am; Set_Chat_updatedAt cid u]
    /\ Message.role am = ASSISTANT /\ Message.chatId am = cid
    /\ Message.deletedAt am = None
    /\ pending w' = [].
Proof.
  intros E cid q docs w Hc Hq. unfold _generate_ai_response, try_except, bind.
  pose proof (generate_content_run E cid q docs w) as H. cbn zeta in H.
  destruct (generate_content E cid q docs w) as [[[c srcs]|e] w1]; cbn [fst snd] in H;
    destruct H as (Hdb & Hp & _); cbn [fst snd].
  - rewrite (@persist_assistant_present E cid c srcs w1) by (rewrite Hdb; exact Hc).
    eexists _, _, _. split; [reflexivity|]. cbn [db pending].
    rewrite Hp, Hq, Hdb. cbn [app]. repeat split.
  - unfold db_rollback.
    match goal with |- context [persist_assistant E cid ?c0 None ?w0] =>
      rewrite (@persist_assistant_present E cid c0 None w0)
        by (cbn [db]; rewrite Hdb; exact Hc) end.
    eexists _, _, _. split; [reflexivity|]. cbn [db pending].
    rewrite Hdb. cbn [app]. repeat split.
Qed.

(** The world the prefix leaves: the stored messages are those it found and
    the user turn, and nothing staged adds a message. *)
Lemma prefix_leaves : forall E message_data w chat_info cid um att docs w1,
  orchestration_prefix E message_data w = (Ok (chat_info, cid, um, att, docs), w1) ->
  Forall no_new_message (pending w) ->
  messages_are (messages (db w) ++ [um]) (S (Message.createdAt um)) w1
  /\ Message.chatId um = cid /\ Message.role um = USER
  /\ Message.content um = content message_data
  /\ Message.deletedAt um = None
  /\ clock w <= Message.createdAt um.
Proof.
  intros E message_data w chat_info cid um att docs w1 H Hq.
  unfold orchestration_prefix in H.
  apply bind_ok_inv in H. destruct H as ([ci cid'] & w0 & Hrc & H). cbn [fst snd] in H.
  assert (H0 : messages_are (messages (db w)) (clock w) w0).
  { pose proof (messages_are_closed (messages (db w)) (clock w)) as HI.
    pose proof (@keeps_resolve_chat _ _ HI) as Hk.
    specialize (Hk (fun _ => Logic.I) (fun _ => Logic.I) E message_data w).
    rewrite Hrc in Hk. apply Hk. unfold messages_are. auto. }
  apply bind_ok_inv in H. destruct H as (um' & wa & Ha & H).
  apply bind_ok_inv in H. destruct H as (u & wb & Hcm & H).
  apply bind_ok_inv in H. destruct H as (ad & wc & Hrd & H).
  inversion H; subst. clear H.
  unfold add_message in Ha. step. inversion Ha; subst. clear Ha.
  inversion Hcm; subst. clear Hcm.
  destruct H0 as (Hm & Hp & Hc).
  match type of Hrd with resolve_documents _ _ _ (Message.id ?m) ?wb = _ =>
    set (um0 := m) in *
  end.
  match type of Hrd with resolve_documents _ _ _ _ ?wb = _ =>
    assert (Hb : messages_are (messages (db w) ++ [um0]) (S (Message.createdAt um0)) wb)
  end.
  { unfold messages_are. cbn [db pending clock]. repeat split; auto.
    rewrite fold_left_app. cbn. fold (flush (db w0) (pending w0)).
    rewrite messages_flush_quiet; auto. rewrite Hm. reflexivity. }
  pose proof (messages_are_closed (messages (db w) ++ [um0]) (S (Message.createdAt um0)))
    as HI.
  pose proof (@keeps_resolve_documents _ _ HI (fun _ => Logic.I) E message_data cid
                (Message.id um0) _ Hb) as Hk.
  rewrite Hrd in Hk. cbn [snd] in Hk. split; [exact Hk|]. cbn. auto 10.
Qed.

(** A request that succeeds has stored the user turn and then the assistant
    turn, stamped in that order and not before the request started. *)
Lemma post_messages_ok_inv : forall E message_data w resp w',
  post_messages E message_data w = (Ok resp, w') ->
  exists um am,
    messages (db w') = messages (db w) ++ [um; am]
    /\ Message.role um = USER /\ Message.role am = ASSISTANT
    /\ Message.content um = content message_data
    /\ Message.chatId um = Message.chatId am
    /\ Message.deletedAt um = None /\ Message.deletedAt am = None
    /\ clock w <= Message.createdAt um
    /\ Message.createdAt um < Message.createdAt am
    /\ resp_id (user_message resp) = Message.id um
    /\ resp_id (assistant_message resp) = Message.id am
    /\ resp_content (assistant_message resp) = Message.content am
    /\ resp_chat_id (user_message resp) = Message.chatId um.
Proof.
  intros E message_data w resp w' H. unfold post_messages in H.
  rewrite create_message_split in H.
  destruct (orchestration_prefix E message_data (snd (db_open w)))
    as [[[[[[chat_info cid] um] att] docs]|e] w1] eqn:Hpre; [|discriminate H].
  destruct (@prefix_leaves _ _ _ _ _ _ _ _ _ Hpre)
    as ((Hm & Hp & Hclk) & Hcid & Hrole & Hcont & Hdel & Hclk0); [constructor|].
  pose proof (prefix_chat_present _ _ _ Hpre) as Hc.
  destruct (@generate_ai_response_ok E cid (content message_data) docs w1 Hc Hp)
    as (am & w2 & Hg & Hm2 & Hr2 & Hc2 & Hd2 & Hs2 & _).
  rewrite Hg in H. inversion H; subst. clear H.
  exists um, am. cbn. rewrite Hm2, Hm, <- app_assoc. cbn in *.
  repeat split; auto. lia.
Qed.

(** X3.  A request that succeeds appends exactly two rows to the messages
    table, the user turn and then the assistant turn, both of the same chat;
    the user turn carries the content sent, and the response reports the ids
    of these two rows, the content of the assistant row and the chat. *)
Theorem X3_success_appends_user_then_assistant :
  forall E message_data w resp w',
    post_messages E message_data w = (Ok resp, w') ->
    exists um am,
      messages (db w') = messages (db w) ++ [um; am]
      /\ Message.role um = USER /\ Message.role am = ASSISTANT
      /\ Message.content um = content message_data
      /\ Message.chatId um = Message.chatId am
      /\ resp_id (user_message resp) = Message.id um
      /\ resp_id (assistant_message resp) = Message.id am
      /\ resp_content (assistant_message resp) = Message.content am
      /\ resp_chat_id (user_message resp) = Message.chatId um.
Proof.
  intros E message_data w resp w' H.
  destruct (post_messages_ok_inv _ _ _ H)
    as (um & am & H1 & H2 & H3 & H4 & H5 & _ & _ & _ & _ & H6 & H7 & H8 & H9).
  exists um, am. auto 10.
Qed.

Lemma X3_witness :
  exists resp w' um am,
    post_messages sample_env
      (mkMessageCreate "What changed?" (Some "chat-1") None None "default-user") sample_world
    = (Ok resp, w')
    /\ messages (db w') = messages (db sample_world) ++ [um; am]
    /\ Message.role um = USER /\ Message.role am = ASSISTANT
    /\ Message.content um = "What changed?".
Proof.
  assert (H : exists resp w',
    post_messages sample_env
      (mkMessageCreate "What changed?" (Some "chat-1") None None "default-user") sample_world
    = (Ok resp, w')) by (vm_compute; eexists _, _; reflexivity).
  destruct H as (resp & w' & H).
  destruct (@X3_success_appends_user_then_assistant sample_env _ sample_world resp w' H)
    as (um & am & H1 & H2 & H3 & H4 & _).
  exists resp, w', um, am. auto.
Defined.

Lemma substring_all : forall s n, String.length s <= n -> substring 0 n s = s.
Proof.
  induction s as [|c s IH]; intros n H; destruct n; cbn in *; try reflexivity; try lia.
  f_equal. apply IH. lia.
Qed.

Lemma substring_length_le : forall s n, String.length (substring 0 n s) <= n.
Proof.
  induction s as [|c s IH]; intros n; destruct n; cbn; try lia.
  specialize (IH n). lia.
Qed.

(** X4.  A first message with no category and no documents always succeeds,
    whatever retrieval and the model do: one chat is created for the caller,
    titled with the first 50 characters of the content (all of it when it is
    shorter), no document is linked, and both turns are reported in that
    chat. *)
Theorem X4_plain_first_message_always_answered :
  forall E message_data w,
    chat_id message_data = None ->
    truthy_str (category_id message_data) = false ->
    truthy_list (document_ids message_data) = false ->
    exists resp w' info new_chat,
      post_messages E message_data w = (Ok resp, w')
      /\ chat resp = Some info
      /\ info_title info = substring 0 50 (content message_data)
      /\ String.length (info_title info) <= 50
      /\ info_documents info = []
      /\ resp_chat_id (user_message resp) = info_id info
      /\ resp_chat_id (assistant_message resp) = info_id info
      /\ length (chats (db w')) = S (length (chats (db w)))
      /\ In new_chat (chats (db w'))
      /\ Chat.id new_chat = info_id info
      /\ Chat.title new_chat = info_title info
      /\ Chat.userId new_chat = Some (user_id message_data)
      /\ Chat.deletedAt new_chat = None.
Proof.
  intros E message_data w Hc Hcat Hdocs.
  assert (Htitle :
    (if (50 <? String.length (content message_data))%nat
     then substring 0 50 (content message_data) else content message_data)
    = substring 0 50 (content message_data)).
  { destruct (50 <? String.length (content message_data))%nat eqn:L; [reflexivity|].
    apply Nat.ltb_ge in L. symmetry. now apply substring_all. }
  unfold post_messages. rewrite create_message_split.
  unfold orchestration_prefix, resolve_chat. rewrite Hc.
  unfold _create_new_chat_with_message. rewrite Hcat, Hdocs, Htitle. step.
  cbn -[substring add_message resolve_documents _generate_ai_response].
  unfold add_message. step.
  cbn -[substring resolve_documents _generate_ai_response].
  unfold resolve_documents, _get_chat_documents_for_rag. rewrite Hdocs. step.
  cbn -[substring _generate_ai_response chat_docs_loop].
  match goal with
  | |- context [match chat_docs_loop ?t ?l ?a with _ => _ end] =>
      destruct (chat_docs_loop t l a)
  end;
  (match goal with
   | |- context [_generate_ai_response E ?cid ?q ?docs ?w1] =>
       destruct (@generate_ai_response_clean E cid q docs w1)
         as (am & u & w2 & Hg & Hdb2 & Hr2 & Hc2 & _);
       [ cbn [db chats]; eexists; split; [apply in_or_app; right; left; reflexivity|reflexivity]
       | reflexivity
       | rewrite Hg ]
   end);
  cbn [db chats] in Hdb2;
  cbn -[substring flush];
  (eexists _, _, _,
     (Chat.set_updatedAt u
        (Chat.mk (ULID E (ulid_count w)) (Some (user_id message_data))
                 (category_id message_data) (substring 0 50 (content message_data))
                 (clock w) (clock w) None));
   split; [reflexivity|]);
  cbn -[substring flush]; rewrite Hdb2; cbn -[substring];
  (split; [reflexivity|]); cbn -[substring];
  (repeat split; auto;
   [ apply substring_length_le
   | rewrite length_map, !length_app; cbn; lia
   | apply in_map_iff;
     exists (Chat.mk (ULID E (ulid_count w)) (Some (user_id message_data))
                     (category_id message_data) (substring 0 50 (content message_data))
                     (clock w) (clock w) None);
     split; [cbn; rewrite String.eqb_refl; reflexivity
            |apply in_or_app; right; left; reflexivity] ]).
Qed.

Lemma X4_witness :
  exists resp w' info,
    post_messages sample_env (mkMessageCreate "Hello there" None None None "default-user")
                  sample_world = (Ok resp, w')
    /\ chat resp = Some info
    /\ info_title info = "Hello there"
    /\ length (chats (db w')) = 2.
Proof.
  destruct (@X4_plain_first_message_always_answered sample_env
              (mkMessageCreate "Hello there" None None None "default-user") sample_world)
    as (resp & w' & info & new_chat & H1 & H2 & H3 & _ & _ & _ & _ & H4 & _);
    [reflexivity | reflexivity | reflexivity |].
  exists resp, w', info. auto.
Defined.

Lemma doc_lookup_id : forall t x d, doc_lookup t x = Some d -> Document.id d = x.
Proof.
  unfold doc_lookup. intros t x d F. apply find_some in F. destruct F as [_ F].
  apply andb_true_iff in F. destruct F as [F _]. now apply String.eqb_eq.
Qed.

Lemma flush_message_edges : forall edges t,
  let t' := flush t (map Add_MessageDocument edges) in
  message_documents t' = message_documents t ++ edges
  /\ documents t' = documents t /\ chats t' = chats t /\ messages t' = messages t
  /\ chat_documents t' = chat_documents t /\ categories t' = categories t.
Proof.
  induction edges as [|e edges IH]; intros t; cbn zeta.
  - cbn. rewrite app_nil_r. repeat split; reflexivity.
  - specialize (IH (flush_one t (Add_MessageDocument e))). cbn zeta in IH.
    change (flush t (map Add_MessageDocument (e :: edges)))
      with (flush (flush_one t (Add_MessageDocument e)) (map Add_MessageDocument edges)).
    destruct IH as (H1 & H2 & H3 & H4 & H5 & H6).
    rewrite H1, H2, H3, H4, H5, H6. cbn. rewrite <- app_assoc. repeat split; reflexivity.
Qed.

Lemma flush_chat_edges : forall edges t,
  let t' := flush t (map Add_ChatDocument edges) in
  chat_documents t' = chat_documents t ++ edges
  /\ documents t' = documents t /\ chats t' = chats t /\ messages t' = messages t
  /\ message_documents t' = message_documents t /\ categories t' = categories t.
Proof.
  induction edges as [|e edges IH]; intros t; cbn zeta.
  - cbn. rewrite app_nil_r. repeat split; reflexivity.
  - specialize (IH (flush_one t (Add_ChatDocument e))). cbn zeta in IH.
    change (flush t (map Add_ChatDocument (e :: edges)))
      with (flush (flush_one t (Add_ChatDocument e)) (map Add_ChatDocument edges)).
    destruct IH as (H1 & H2 & H3 & H4 & H5 & H6).
    rewrite H1, H2, H3, H4, H5, H6. cbn. rewrite <- app_assoc. repeat split; reflexivity.
Qed.

(** The attach loop stages one edge per named id, in order. *)
Lemma attach_loop_edges : forall E mid ids att rag w,
  all_live (db w) ids = true ->
  exists r edges w',
    attach_loop E mid ids att rag w = (Ok r, w')
    /\ db w' = db w
    /\ pending w' = pending w ++ map Add_MessageDocument edges
    /\ map MessageDocument.documentId edges = ids
    /\ Forall (fun e => MessageDocument.messageId e = mid
                        /\ MessageDocument.deletedAt e = None) edges
    /\ length (fst r) = length att + length ids.
Proof.
  induction ids as [|a ids IH]; intros att rag w Hall.
  - cbn. eexists _, [], _. split; [reflexivity|]. cbn. rewrite app_nil_r.
    repeat split; auto.
  - cbn in Hall. apply andb_true_iff in Hall. destruct Hall as [Ha Hall].
    cbn [attach_loop]. unfold _get_document. step.
    destruct (doc_lookup (db w) a) as [d|] eqn:L; [|discriminate].
    pose proof (doc_lookup_id _ _ L) as Hid. unfold doc_lookup in L. rewrite L. cbn.
    match goal with |- context [attach_loop E mid ids ?a0 ?r ?w0] =>
      destruct (IH a0 r w0) as (r' & edges & w' & Hr & Hdb & Hp & Hmap & Hf & Hlen);
        [exact Hall|] end.
    rewrite Hr. cbn in Hdb, Hp.
    eexists r', (MessageDocument.mk (ULID E (ulid_count w)) mid (Document.id d) None :: edges), w'.
    split; [reflexivity|]. rewrite Hp, <- app_assoc. cbn. rewrite Hmap, Hid.
    repeat split; auto. rewrite Hlen, length_app. cbn. lia.
Qed.

(** X5.  From an empty session, when every named id has a live document row,
    [_attach_documents_to_message] succeeds and appends one message-document
    edge per named id, in the order given, each for that message and none
    deleted; it returns one attachment per id, and the documents handed to
    retrieval are exactly the named ones whose status is completed.  The
    documents and messages tables are left as they were. *)
Theorem X5_every_named_document_gets_its_edge :
  forall E mid ids w,
    pending w = [] ->
    all_live (db w) ids = true ->
    exists r edges w',
      _attach_documents_to_message E mid ids w = (Ok r, w')
      /\ message_documents (db w') = message_documents (db w) ++ edges
      /\ map MessageDocument.documentId edges = ids
      /\ Forall (fun e => MessageDocument.messageId e = mid
                          /\ MessageDocument.deletedAt e = None) edges
      /\ length (fst r) = length ids
      /\ snd r = tier_explicit (db w) ids
      /\ documents (db w') = documents (db w)
      /\ messages (db w') = messages (db w).
Proof.
  intros E mid ids w Hp Hall. unfold _attach_documents_to_message.
  destruct (@attach_loop_edges E mid ids [] [] w Hall)
    as (r & edges & w1 & Hr & Hdb & Hp1 & Hmap & Hf & Hlen).
  destruct (@attach_loop_live E mid ids [] [] w Hall) as (w1' & Hr' & _).
  rewrite Hr in Hr'. inversion Hr'; subst r w1'. clear Hr'.
  unfold bind. rewrite Hr. cbn [db_commit ret].
  eexists _, edges, _. split; [reflexivity|]. cbn [db fst snd].
  rewrite Hp1, Hp, Hdb. cbn [app].
  destruct (flush_message_edges edges (db w)) as (H1 & H2 & H3 & H4 & _).
  rewrite H1, H2, H4. rewrite length_map in *. cbn in Hlen.
  repeat split; auto. now rewrite length_map in Hlen.
Qed.

Lemma X5_witness :
  exists r edges w',
    _attach_documents_to_message sample_env "msg-1" ["doc-1"; "doc-2"] sample_world
    = (Ok r, w')
    /\ message_documents (db w') = message_documents (db sample_world) ++ edges
    /\ map MessageDocument.documentId edges = ["doc-1"; "doc-2"].
Proof.
  destruct (@X5_every_named_document_gets_its_edge sample_env "msg-1" ["doc-1"; "doc-2"]
              sample_world) as (r & edges & w' & H1 & H2 & H3 & _);
    [reflexivity | reflexivity |].
  exists r, edges, w'. auto.
Defined.

(** The link loop stages one chat edge per named id, in order. *)
Lemma link_loop_edges : forall E cid ids info w,
  forallb (linkable (db w)) ids = true ->
  exists edges w',
    link_loop E cid ids info w
    = (Ok (info ++ map (fun d => (Document.id d, Document.filename d))
                       (live_documents (db w) ids)), w')
    /\ db w' = db w
    /\ pending w' = pending w ++ map Add_ChatDocument edges
    /\ map ChatDocument.documentId edges = ids
    /\ Forall (fun e => ChatDocument.chatId e = cid /\ ChatDocument.deletedAt e = None) edges.
Proof.
  induction ids as [|a ids IH]; intros info w Hall.
  - cbn. eexists [], _. cbn. rewrite !app_nil_r. repeat split; auto.
  - cbn in Hall. apply andb_true_iff in Hall. destruct Hall as [Ha Hall].
    cbn [link_loop]. unfold _get_document. step.
    unfold linkable in Ha. unfold live_documents. cbn [flat_map].
    destruct (doc_lookup (db w) a) as [d|] eqn:L; [|discriminate].
    pose proof (doc_lookup_id _ _ L) as Hid. unfold doc_lookup in L. rewrite L. cbn.
    apply negb_true_iff in Ha. rewrite Ha. cbn.
    match goal with |- context [link_loop E cid ids ?i ?w0] =>
      destruct (IH i w0) as (edges & w' & Hr & Hdb & Hp & Hmap & Hf); [exact Hall|] end.
    rewrite Hr. cbn in Hdb, Hp.
    eexists (ChatDocument.mk (ULID E (ulid_count w)) cid (Document.id d) (clock w) None
             :: edges), w'.
    split; [|rewrite Hp, <- app_assoc; cbn; rewrite Hmap, Hid; repeat split; auto].
    f_equal. f_equal. rewrite <- app_assoc. reflexivity.
Qed.

(** X6.  From an empty session, for a request without category whose named
    documents are all live and not failed, [_create_new_chat_with_message]
    succeeds: one chat row is appended, then one chat-document edge per named
    id, in the order given, each for the new chat and none deleted; the chat
    info lists the documents in that order and the documents table is left
    as it was. *)
Theorem X6_creation_links_every_named_document :
  forall E message_data w ids,
    pending w = [] ->
    truthy_str (category_id message_data) = false ->
    document_ids message_data = Some ids -> ids <> [] ->
    forallb (linkable (db w)) ids = true ->
    exists info edges new_chat w',
      _create_new_chat_with_message E message_data w = (Ok info, w')
      /\ chats (db w') = chats (db w) ++ [new_chat]
      /\ Chat.id new_chat = info_id info
      /\ chat_documents (db w') = chat_documents (db w) ++ edges
      /\ map ChatDocument.documentId edges = ids
      /\ Forall (fun e => ChatDocument.chatId e = info_id info
                          /\ ChatDocument.deletedAt e = None) edges
      /\ map fst (info_documents info) = ids
      /\ documents (db w') = documents (db w).
Proof.
  intros E message_data w ids Hp Hcat Hids Hne Hall.
  assert (Ht : truthy_list (Some ids) = true) by (destruct ids; [congruence|reflexivity]).
  unfold _create_new_chat_with_message. rewrite Hcat, Hids, Ht. cbn [list_of].
  step. rewrite Hp. cbn -[substring link_loop String.length Nat.ltb].
  match goal with |- context [link_loop E ?cid ids ?i ?w0] =>
    destruct (@link_loop_edges E cid ids i w0) as (edges & w1 & Hr & Hdb & Hp1 & Hmap & Hf);
      [exact Hall | rewrite Hr] end.
  cbn [db pending] in Hdb, Hp1. cbn -[substring String.length Nat.ltb].
  rewrite Hp1, Hdb. cbn [app].
  match goal with |- context [fold_left flush_one (map Add_ChatDocument edges) ?t] =>
    destruct (flush_chat_edges edges t) as (H1 & H2 & H3 & _); unfold flush in H1, H2, H3;
      cbn [chats chat_documents documents] in H1, H2, H3 end.
  eexists _, edges, _, _. split; [reflexivity|]. cbn [db info_id info_documents Chat.id].
  rewrite H1, H2, H3. repeat split; auto.
  rewrite map_map. cbn [fst]. clear -Hall.
  unfold live_documents, linkable, doc_lookup in *. cbn [documents] in *.
  induction ids as [|a ids IH]; [reflexivity|].
  cbn [forallb] in Hall. apply andb_true_iff in Hall. destruct Hall as [Ha Hall].
  cbn [flat_map].
  destruct (find _ (documents (db w))) as [d|] eqn:L; [|discriminate].
  cbn [app map]. rewrite (@doc_lookup_id (db w) a d L). f_equal. auto.
Qed.

Lemma X6_witness :
  exists info edges w',
    _create_new_chat_with_message sample_env
      (mkMessageCreate "Summarize the report" None (Some ["doc-1"]) None "default-user")
      sample_world = (Ok info, w')
    /\ chat_documents (db w') = chat_documents (db sample_world) ++ edges
    /\ map ChatDocument.documentId edges = ["doc-1"].
Proof.
  destruct (@X6_creation_links_every_named_document sample_env
              (mkMessageCreate "Summarize the report" None (Some ["doc-1"]) None
                               "default-user")
              sample_world ["doc-1"])
    as (info & edges & new_chat & w' & H1 & _ & _ & H2 & H3 & _);
    [reflexivity | reflexivity | reflexivity | discriminate | reflexivity |].
  exists info, edges, w'. auto.
Defined.

Lemma bind_ext : forall A B (m m' : M A) (k k' : A -> M B) w,
  m w = m' w -> (forall a w1, k a w1 = k' a w1) -> bind m k w = bind m' k' w.
Proof.
  intros A B m m' k k' w Hm Hk. unfold bind. rewrite Hm.
  destruct (m' w) as [[a|e] w1]; [apply Hk | reflexivity].
Qed.

Lemma try_except_ext : forall A (m m' : M A) (h h' : exn -> M A) w,
  m w = m' w -> (forall e w1, h e w1 = h' e w1) -> try_except m h w = try_except m' h' w.
Proof.
  intros A m m' h h' w Hm Hh. unfold try_except. rewrite Hm.
  destruct (m' w) as [[a|e] w1]; [reflexivity | apply Hh].
Qed.

Section OtherSearch.

Variable E : Env.
Variable search :
  list LangchainDocument -> string -> nat -> option (list string) ->
  result (list LangchainDocument).

Lemma link_loop_other_search : forall cid ids info w,
  link_loop (with_similarity_search E search) cid ids info w
  = link_loop E cid ids info w.
Proof.
  induction ids as [|a ids IH]; intros info w; [reflexivity|].
  cbn [link_loop]. apply bind_ext; [reflexivity|]. intros d w1.
  destruct (DocumentStatus_eqb (Document.status d) FAILED); [reflexivity|].
  apply bind_ext; [reflexivity|]. intros n w2.
  apply bind_ext; [reflexivity|]. intros c w3.
  apply bind_ext; [reflexivity|]. intros u w4. apply IH.
Qed.

Lemma attach_loop_other_search : forall mid ids att docs w,
  attach_loop (with_similarity_search E search) mid ids att docs w
  = attach_loop E mid ids att docs w.
Proof.
  induction ids as [|a ids IH]; intros att docs w; [reflexivity|].
  cbn [attach_loop]. apply bind_ext; [reflexivity|]. intros d w1.
  apply bind_ext; [reflexivity|]. intros n w2.
  apply bind_ext; [reflexivity|]. intros u w3. apply IH.
Qed.

Lemma resolve_chat_other_search : forall message_data w,
  resolve_chat (with_similarity_search E search) message_data w
  = resolve_chat E message_data w.
Proof.
  intros message_data w. unfold resolve_chat.
  destruct (chat_id message_data); [reflexivity|].
  apply bind_ext; [|reflexivity]. unfold _create_new_chat_with_message.
  apply bind_ext; [reflexivity|]. intros ci w1.
  apply bind_ext; [reflexivity|]. intros n w2.
  apply bind_ext; [reflexivity|]. intros c w3.
  apply bind_ext; [reflexivity|]. intros u w4.
  apply bind_ext; [reflexivity|]. intros u' w5.
  apply bind_ext; [|reflexivity].
  destruct (truthy_list (document_ids message_data)); [|reflexivity].
  apply bind_ext; [apply link_loop_other_search | reflexivity].
Qed.

Lemma resolve_documents_other_search : forall message_data cid mid w,
  resolve_documents (with_similarity_search E search) message_data cid mid w
  = resolve_documents E message_data cid mid w.
Proof.
  intros message_data cid mid w. unfold resolve_documents.
  destruct (truthy_list (document_ids message_data)); [|reflexivity].
  unfold _attach_documents_to_message.
  apply bind_ext; [apply attach_loop_other_search | reflexivity].
Qed.

Hypothesis filtered_alike : forall vs query k ids,
  search vs query k (Some ids) = similarity_search E vs query k (Some ids).

Lemma generate_content_other_search : forall cid q docs w,
  generate_content (with_similarity_search E search) cid q docs w = generate_content E cid q docs w.
Proof.
  intros cid q docs w. unfold generate_content.
  apply bind_ext; [reflexivity|]. intros h w1.
  destruct docs as [|d docs]; [reflexivity|].
  apply bind_ext; [|intros [|c cs] w2; reflexivity].
  unfold search_similar_chunks. cbn [map].
  apply bind_ext; [reflexivity|]. intros vs w2. unfold lift.
  change (similarity_search (with_similarity_search E search)) with search.
  rewrite filtered_alike. reflexivity.
Qed.

Lemma create_message_other_search : forall message_data w,
  create_message (with_similarity_search E search) message_data w = create_message E message_data w.
Proof.
  intros message_data w. unfold create_message.
  apply bind_ext; [apply resolve_chat_other_search|]. intros ci w1.
  apply bind_ext; [reflexivity|]. intros um w2.
  apply bind_ext; [reflexivity|]. intros u w3.
  apply bind_ext; [apply resolve_documents_other_search|]. intros ad w4.
  apply bind_ext; [|reflexivity].
  unfold _generate_ai_response.
  apply try_except_ext; [|reflexivity].
  apply bind_ext; [apply generate_content_other_search | reflexivity].
Qed.

End OtherSearch.

(** X7.  The message path never searches the whole index: with the vector
    search replaced by any other that answers filtered queries alike, a
    request has the same result and leaves the same state. *)
Theorem X7_never_an_unfiltered_search :
  forall E search message_data w,
    (forall vs query k ids,
       search vs query k (Some ids) = similarity_search E vs query k (Some ids)) ->
    post_messages (with_similarity_search E search) message_data w
    = post_messages E message_data w.
Proof.
  intros E search message_data w Hs. unfold post_messages.
  now rewrite create_message_other_search.
Qed.

Lemma X7_witness :
  post_messages (with_similarity_search sample_env filtered_search_only)
    (mkMessageCreate "What changed?" (Some "chat-1") None None "default-user") sample_world
  = post_messages sample_env
      (mkMessageCreate "What changed?" (Some "chat-1") None None "default-user") sample_world.
Proof.
  apply (@X7_never_an_unfiltered_search sample_env filtered_search_only).
  intros vs query k ids. reflexivity.
Defined.

Lemma FileType_of_None : forall ext,
  ~ In ext ["pdf"; "md"; "txt"] -> FileType_of ext = None.
Proof.
  intros ext H. unfold FileType_of.
  destruct (ext =? "pdf") eqn:E1; [apply String.eqb_eq in E1; subst; destruct H; cbn; auto|].
  destruct (ext =? "md") eqn:E2; [apply String.eqb_eq in E2; subst; destruct H; cbn; auto|].
  destruct (ext =? "txt") eqn:E3; [apply String.eqb_eq in E3; subst; destruct H; cbn; auto|].
  reflexivity.
Qed.

(** X8.  An upload with no filename, an empty filename, an extension other
    than pdf, md and txt, or more bytes than [MAX_FILE_SIZE] is rejected with
    400, 415 or 413 and leaves no trace: the store, the identifier counter,
    the task list and the index are as before. *)
Theorem X8_unacceptable_upload_leaves_no_trace :
  forall E file uid w,
    unacceptable file ->
    exists code detail w',
      post_documents E file uid w = (Raise (HTTPException code detail), w')
      /\ In code [400; 415; 413]
      /\ db w' = db w /\ ulid_count w' = ulid_count w
      /\ background_tasks w' = background_tasks w /\ vectorstore w' = vectorstore w.
Proof.
  intros E file uid w H. unfold unacceptable in H. unfold post_documents, upload_document.
  destruct (file_filename file) as [name|].
  2:{ cbn. do 3 eexists. split; [reflexivity|]. cbn. auto 10. }
  destruct (name =? "") eqn:En.
  { cbn. do 3 eexists. split; [reflexivity|]. cbn. auto 10. }
  destruct (FileType_of (file_extension_of name)) as [ft|] eqn:Ef.
  2:{ cbn. do 3 eexists. split; [reflexivity|]. cbn. auto 10. }
  destruct (MAX_FILE_SIZE <? N.of_nat (String.length (file_bytes file)))%N eqn:Es.
  { cbn. do 3 eexists. split; [reflexivity|]. cbn. auto 10. }
  exfalso. destruct H as [H|[H|H]].
  - subst name. discriminate.
  - rewrite (FileType_of_None H) in Ef. discriminate.
  - apply N.ltb_lt in H. congruence.
Qed.

Lemma X8_witness :
  exists code detail w',
    post_documents sample_env (mkUploadFile (Some "photo.png") "bytes") "default-user"
                   sample_world = (Raise (HTTPException code detail), w')
    /\ In code [400; 415; 413]
    /\ db w' = db sample_world.
Proof.
  destruct (@X8_unacceptable_upload_leaves_no_trace sample_env
              (mkUploadFile (Some "photo.png") "bytes") "default-user" sample_world)
    as (code & detail & w' & H1 & H2 & H3 & _).
  - right. left. vm_compute. intros [H|[H|[H|[]]]]; discriminate H.
  - exists code, detail, w'. auto.
Defined.

Lemma update_where_unused : forall (p : Document.t -> bool) g l,
  (forall d, In d l -> p d = false) -> update_where p g l = l.
Proof.
  intros p g l H. unfold update_where. induction l as [|d l IH]; cbn; [reflexivity|].
  rewrite (H d) by (cbn; auto). f_equal. apply IH. intros; apply H; cbn; auto.
Qed.

Lemma filter_unused : forall x (l : list Document.t),
  (forall d, In d l -> Document.id d <> x) ->
  filter (fun d => negb (Document.id d =? x)) l = l.
Proof.
  intros x l H. induction l as [|d l IH]; cbn; [reflexivity|].
  destruct (Document.id d =? x) eqn:Ed.
  - apply String.eqb_eq in Ed. destruct (H d); cbn; auto.
  - cbn. f_equal. apply IH. intros; apply H; cbn; auto.
Qed.

(** X9.  When the object storage refuses an accepted file, the request ends
    with 500 carrying the text of the storage error, and the row made for the
    document is gone again: the documents table is as before, no task is
    scheduled, the index is untouched and nothing stays staged.  The fresh
    identifier is assumed to be carried by no row. *)
Theorem X9_failed_storage_upload_removes_the_row :
  forall E file uid w name ft e,
    file_filename file = Some name -> name <> "" ->
    FileType_of (file_extension_of name) = Some ft ->
    (N.of_nat (String.length (file_bytes file)) <= MAX_FILE_SIZE)%N ->
    next_id_unused E w ->
    gcs_upload E (ULID E (ulid_count w)) (file_extension_of name) = Raise e ->
    exists w',
      post_documents E file uid w
      = (Raise (HTTPException 500 ("Failed to upload document: " ++ str e)), w')
      /\ documents (db w') = documents (db w)
      /\ background_tasks w' = background_tasks w
      /\ vectorstore w' = vectorstore w
      /\ pending w' = [].
Proof.
  intros E file uid w name ft e Hn Hne Hft Hsz Hfresh Hg.
  unfold post_documents, upload_document. rewrite Hn.
  apply String.eqb_neq in Hne. rewrite Hne, Hft.
  apply N.ltb_ge in Hsz. rewrite Hsz.
  exec. cbn [Document.id Document.createdAt]. rewrite Hg. exec.
  cbn [flush fold_left flush_one app documents Document.id].
  eexists. split; [reflexivity|]. cbn [db documents background_tasks vectorstore pending].
  repeat split.
  rewrite filter_app. cbn. rewrite String.eqb_refl. cbn. rewrite app_nil_r.
  now apply filter_unused.
Qed.

Lemma sample_world_next_id_unused : forall E,
  ULID E = sample_ULID -> next_id_unused E sample_world.
Proof.
  intros E HE d Hd. rewrite HE. cbn in Hd.
  destruct Hd as [<-|[<-|[<-|[]]]]; discriminate.
Qed.

Lemma X9_witness :
  exists w',
    post_documents sample_env_storage_down sample_file "default-user" sample_world
    = (Raise (HTTPException 500 "Failed to upload document: 403 Forbidden"), w')
    /\ documents (db w') = documents (db sample_world)
    /\ background_tasks w' = background_tasks sample_world.
Proof.
  destruct (@X9_failed_storage_upload_removes_the_row sample_env_storage_down sample_file
              "default-user" sample_world "notes.TXT" TEXT (Exception "403 Forbidden"))
    as (w' & H1 & H2 & H3 & _).
  - reflexivity.
  - discriminate.
  - reflexivity.
  - vm_compute. discriminate.
  - now apply sample_world_next_id_unused.
  - reflexivity.
  - exists w'. auto.
Defined.

(** X10.  For an accepted file that the object storage takes, the response
    reports the fresh id, the filename, the storage URL, the type, the size
    and status processing; exactly one row is appended to the documents
    table, with these values, chunk count 0 and status processing; one
    background task is scheduled, for that id; the index is untouched.  The
    fresh identifier is assumed to be carried by no row. *)
Theorem X10_accepted_upload_is_stored_and_scheduled :
  forall E file uid w name ft url,
    file_filename file = Some name -> name <> "" ->
    FileType_of (file_extension_of name) = Some ft ->
    (N.of_nat (String.length (file_bytes file)) <= MAX_FILE_SIZE)%N ->
    next_id_unused E w ->
    gcs_upload E (ULID E (ulid_count w)) (file_extension_of name) = Ok url ->
    exists resp w',
      post_documents E file uid w = (Ok resp, w')
      /\ up_id resp = ULID E (ulid_count w)
      /\ up_filename resp = name /\ up_file_path resp = url
      /\ up_file_type resp = FileType_value ft
      /\ up_file_size resp = String.length (file_bytes file)
      /\ up_status resp = PROCESSING
      /\ documents (db w')
         = documents (db w)
           ++ [Document.mk (ULID E (ulid_count w)) (Some uid) name url ft
                 (String.length (file_bytes file)) PROCESSING (Some 0)
                 (clock w) (clock w) None]
      /\ background_tasks w' = background_tasks w ++ [ULID E (ulid_count w)]
      /\ vectorstore w' = vectorstore w.
Proof.
  intros E file uid w name ft url Hn Hne Hft Hsz Hfresh Hg.
  unfold post_documents, upload_document. rewrite Hn.
  apply String.eqb_neq in Hne. rewrite Hne, Hft.
  apply N.ltb_ge in Hsz. rewrite Hsz.
  exec. cbn [Document.id Document.createdAt]. rewrite Hg. exec.
  cbn [flush fold_left flush_one app documents Document.id].
  do 2 eexists. split; [reflexivity|].
  cbn [db documents background_tasks vectorstore up_id up_filename up_file_path
       up_file_type up_file_size up_status].
  repeat split.
  unfold update_where. rewrite map_app. cbn. rewrite String.eqb_refl. f_equal.
  apply (@update_where_unused (fun d => Document.id d =? ULID E (ulid_count w))).
  intros d Hd. apply String.eqb_neq. now apply Hfresh.
Qed.

Lemma X10_witness :
  exists resp w' d,
    post_documents sample_env sample_file "default-user" sample_world = (Ok resp, w')
    /\ up_file_type resp = "txt" /\ up_status resp = PROCESSING
    /\ documents (db w') = documents (db sample_world) ++ [d]
    /\ background_tasks w' = [up_id resp].
Proof.
  destruct (@X10_accepted_upload_is_stored_and_scheduled sample_env sample_file
              "default-user" sample_world "notes.TXT" TEXT "https://storage/7.txt")
    as (resp & w' & H1 & H2 & _ & _ & H3 & _ & H4 & H5 & H6 & _).
  - reflexivity.
  - discriminate.
  - reflexivity.
  - vm_compute. discriminate.
  - now apply sample_world_next_id_unused.
  - reflexivity.
  - exists resp, w'. eexists. rewrite H2. repeat split; eauto.
Defined.

Lemma list_ascii_of_string_app : forall a b,
  list_ascii_of_string (a ++ b) = list_ascii_of_string a ++ list_ascii_of_string b.
Proof. induction a as [|c a IH]; intros b; cbn; [reflexivity|]. now rewrite IH. Qed.

Lemma last_segment_no_dot : forall s acc,
  ~ In "."%char s -> last_segment acc s = acc ++ s.
Proof.
  induction s as [|c s IH]; intros acc H; cbn; [now rewrite app_nil_r|].
  destruct (Ascii.eqb c ".") eqn:Ec.
  - apply Ascii.eqb_eq in Ec. subst c. destruct H. cbn. auto.
  - rewrite IH by (intros H'; apply H; cbn; auto). now rewrite <- app_assoc.
Qed.

Lemma last_segment_after_dot : forall base acc ext,
  last_segment acc (base ++ "."%char :: ext) = last_segment [] ext.
Proof.
  induction base as [|c base IH]; intros acc ext; cbn; [reflexivity|].
  destruct (Ascii.eqb c "."); apply IH.
Qed.

(** X11.  The extension the upload checks is what follows the last dot of
    the filename, in lower case; a filename without a dot is its own
    extension. *)
Theorem X11_extension_is_what_follows_the_last_dot :
  forall base ext,
    ~ In "."%char (list_ascii_of_string ext) ->
    file_extension_of (base ++ "." ++ ext) = lower ext
    /\ file_extension_of ext = lower ext.
Proof.
  intros base ext H. unfold file_extension_of, lower. split.
  - rewrite list_ascii_of_string_app. cbn [list_ascii_of_string append].
    rewrite last_segment_after_dot, last_segment_no_dot by exact H. reflexivity.
  - rewrite last_segment_no_dot by exact H. reflexivity.
Qed.

Lemma X11_witness :
  file_extension_of "archive.tar.GZ" = "gz" /\ file_extension_of "GZ" = "gz".
Proof.
  apply (@X11_extension_is_what_follows_the_last_dot "archive.tar" "GZ").
  cbn. intros [H|[H|[]]]; discriminate H.
Defined.

Lemma enumerate_from_fst : forall {A} (l : list A) n,
  map fst (enumerate_from n l) = seq n (length l).
Proof. induction l as [|a l IH]; intros n; cbn; [reflexivity|]. now rewrite IH. Qed.

Lemma enumerate_from_snd : forall {A} (l : list A) n, map snd (enumerate_from n l) = l.
Proof. induction l as [|a l IH]; intros n; cbn; [reflexivity|]. now rewrite IH. Qed.

Lemma split_text_accepts : forall E text,
  CHUNK_OVERLAP (settings E) <= CHUNK_SIZE (settings E) ->
  split_text E text
  = Ok (_split_text (CHUNK_SIZE (settings E)) (CHUNK_OVERLAP (settings E)) separators text).
Proof.
  intros E text H. unfold split_text. apply Nat.ltb_ge in H. now rewrite H.
Qed.

(** X12.  With a positive chunk size and an overlap not above it, when
    extraction yields text that is not blank, blank meaning empty once the
    whitespace of [str.isspace] is stripped, and the index takes the chunks,
    the background task splits the text and adds to the index one entry per
    chunk, in order, numbered from 0, each tagged with the document id and
    the filename; the row ends with status completed and a chunk count equal
    to the number of entries added. *)
Theorem X12_chunk_count_matches_the_index :
  forall E document_id w document text,
    find (fun d => Document.id d =? document_id) (documents (db w)) = Some document ->
    extracted_text E document = Ok text ->
    strip text <> [] ->
    0 < CHUNK_SIZE (settings E) ->
    CHUNK_OVERLAP (settings E) <= CHUNK_SIZE (settings E) ->
    (forall chunks, split_text E text = Ok chunks ->
                    embed_error E (indexed_chunks document_id document chunks) = None) ->
    exists chunks new w',
      split_text E text = Ok chunks
      /\ _process_document_background E document_id w = (Ok tt, w')
      /\ vectorstore w' = vectorstore w ++ new
      /\ map page_content new = chunks
      /\ map (fun c => meta_chunk_index (metadata c)) new = map Some (seq 0 (length new))
      /\ Forall (fun c => meta_document_id (metadata c) = Some document_id
                          /\ meta_filename (metadata c) = Some (Document.filename document))
                new
      /\ status_of (db w') document_id = Some COMPLETED
      /\ option_map Document.chunkCount
                    (find (fun d => Document.id d =? document_id) (documents (db w')))
         = Some (Some (length new)).
Proof.
  intros E document_id w document text F Hex Hne Hpos Hov Hemb.
  pose proof (find_id_eq _ _ F) as Hid.
  pose proof (split_text_accepts E text Hov) as Hsplit.
  remember (_split_text (CHUNK_SIZE (settings E)) (CHUNK_OVERLAP (settings E))
                        separators text) as chunks eqn:Hchunks.
  specialize (Hemb _ Hsplit). clear Hchunks.
  assert (Hblank : is_empty (strip text) = false)
    by (destruct (strip text); [congruence|reflexivity]).
  exists chunks.
  unfold _process_document_background. step.
  cbn -[_extract_text_from_file add_document_to_vectorstore strip is_empty update_where].
  rewrite F, extract_run, Hex. cbn [fst snd]. rewrite Hblank.
  unfold add_document_to_vectorstore, bind, lift. rewrite Hsplit. cbv beta iota.
  unfold indexed_chunks in Hemb. rewrite Hemb.
  unfold add_documents. step. cbn -[update_where langchain_documents].
  rewrite Hid.
  eexists _, _. split; [reflexivity|]. split; [reflexivity|].
  cbn [db documents vectorstore].
  split; [reflexivity|]. unfold langchain_documents.
  rewrite !map_map, length_map, length_enumerate_from. cbn [page_content metadata
    meta_chunk_index meta_document_id meta_filename].
  split; [apply enumerate_from_snd|].
  split; [rewrite <- (enumerate_from_fst chunks 0), map_map; reflexivity|].
  split; [apply Forall_forall; intros c Hc; apply in_map_iff in Hc;
          destruct Hc as (ic & <- & _); cbn; auto|].
  unfold status_of. cbn [documents].
  rewrite !find_update_where_id by reflexivity. rewrite F. split; reflexivity.
Qed.

Lemma X12_witness :
  exists new w',
    _process_document_background sample_env "doc-1" sample_world = (Ok tt, w')
    /\ vectorstore w' = vectorstore sample_world ++ new
    /\ map page_content new = [codepoints_of_string "report"]
    /\ status_of (db w') "doc-1" = Some COMPLETED.
Proof.
  destruct (@X12_chunk_count_matches_the_index sample_env "doc-1" sample_world
              (Document.mk "doc-1" (Some "default-user") "report.pdf" "report" PDF 3000
                           COMPLETED (Some 4) 1 1 None) (codepoints_of_string "report"))
    as (chunks & new & w' & H0 & H1 & H2 & H3 & _ & _ & H4 & _).
  - reflexivity.
  - vm_compute. reflexivity.
  - vm_compute. discriminate.
  - vm_compute. lia.
  - vm_compute. lia.
  - intros chunks _. reflexivity.
  - exists new, w'. repeat split; auto.
    rewrite H3. vm_compute in H0. now inversion H0.
Defined.

Section UniqueIds.

Variable E : Env.
Hypothesis ULID_inj : forall m n, ULID E m = ULID E n -> m = n.

Lemma update_where_ids : forall (p : Document.t -> bool) g l,
  (forall d, Document.id (g d) = Document.id d) ->
  map Document.id (update_where p g l) = map Document.id l.
Proof.
  intros p g l Hg. unfold update_where. rewrite map_map. apply map_ext.
  intros d. destruct (p d); [apply Hg | reflexivity].
Qed.

Lemma unique_ids_run : forall op w,
  system_inv E w -> NoDup (map Document.id (documents (db w))) ->
  NoDup (map Document.id (documents (db (run E op w)))).
Proof.
  intros [file uid| |message_data] w Hinv Hnd; cbn [run].
  - pose proof (post_documents_run E file uid w) as Hrun. cbn zeta in Hrun.
    destruct Hrun
      as [(Hd & _)|[(nd & url & Hid & Hst & Hd & _)|(nd & Hid & Hd & _)]]; rewrite Hd.
    + exact Hnd.
    + rewrite update_where_ids by reflexivity. rewrite map_app. cbn [map].
      apply NoDup_snoc; [exact Hnd|]. rewrite Hid. intros Hin.
      apply in_map_iff in Hin. destruct Hin as (d & Hdid & Hin).
      exact (@fresh_id E ULID_inj w d Hinv Hin Hdid).
    + rewrite (@filter_fresh E ULID_inj w nd Hinv Hid). exact Hnd.
  - destruct (background_tasks w) as [|x rest]; [exact Hnd|].
    match goal with |- context [_process_document_background E x ?w0] =>
      pose proof (process_run E x w0) as Hrun end.
    cbn zeta in Hrun. destruct Hrun as (_ & _ & Hrun). cbn [db] in Hrun.
    destruct (find _ (documents (db w))) as [d|].
    + destruct Hrun as (g & Hd & Hg). rewrite Hd.
      rewrite update_where_ids by (intros d0; apply Hg). exact Hnd.
    + rewrite Hrun. exact Hnd.
  - pose proof (post_messages_frame E message_data w) as Hrun. cbn zeta in Hrun.
    destruct Hrun as (Hd & _). rewrite Hd. exact Hnd.
Qed.

Lemma reachable_unique_ids : forall w,
  reachable E w -> NoDup (map Document.id (documents (db w))).
Proof.
  induction 1 as [|w op Hr IH]; [constructor|].
  apply unique_ids_run; [exact (@reachable_inv E ULID_inj w Hr) | exact IH].
Qed.

End UniqueIds.

(** X13.  With identifiers never repeated, in every state the server
    reaches no two rows of the documents table share an id. *)
Theorem X13_document_ids_stay_unique :
  forall E w,
    (forall m n, ULID E m = ULID E n -> m = n) ->
    reachable E w ->
    NoDup (map Document.id (documents (db w)))
    /\ forall d d', In d (documents (db w)) -> In d' (documents (db w)) ->
                    Document.id d = Document.id d' -> d = d'.
Proof.
  intros E w Hinj Hr. pose proof (@reachable_unique_ids E Hinj w Hr) as Hnd.
  split; [exact Hnd|]. intros d d' Hd Hd' Heq.
  induction (documents (db w)) as [|a l IH]; [contradiction|].
  cbn in Hnd. apply NoDup_cons_iff in Hnd. destruct Hnd as [Ha Hnd].
  destruct Hd as [<-|Hd], Hd' as [<-|Hd']; auto.
  - destruct Ha. rewrite Heq. now apply in_map.
  - destruct Ha. rewrite <- Heq. now apply in_map.
Qed.

Lemma X13_witness :
  NoDup (map Document.id
             (documents (db (run sample_env (Upload sample_file "default-user")
                                 initial_world)))).
Proof.
  apply (@X13_document_ids_stay_unique sample_env
           (run sample_env (Upload sample_file "default-user") initial_world)).
  - exact sample_ULID_inj.
  - apply reachable_run, reachable_initial.
Defined.

Lemma lstrip_length : forall s, length (lstrip s) <= length s.
Proof.
  induction s as [|c s IH]; cbn; [lia|]. destruct (isspace c); cbn; lia.
Qed.

Lemma strip_length : forall s, length (strip s) <= length s.
Proof.
  intros s. unfold strip. rewrite length_rev.
  etransitivity; [apply lstrip_length|]. rewrite length_rev. apply lstrip_length.
Qed.

Lemma join_nil_concat : forall docs, join [] docs = concat docs.
Proof.
  induction docs as [|d ds IH]; [reflexivity|].
  cbn [join concat]. destruct ds as [|d' ds]; [cbn; now rewrite app_nil_r|].
  cbn [app]. now rewrite IH.
Qed.

Lemma join_docs_within : forall docs doc chunk_size,
  _join_docs docs [] = Some doc -> length (concat docs) <= chunk_size ->
  within chunk_size doc.
Proof.
  intros docs doc cs H Hlen. unfold _join_docs in H. rewrite join_nil_concat in H.
  pose proof (strip_length (concat docs)) as Hs.
  destruct (strip (concat docs)) as [|c l]; [discriminate|].
  inversion H; subst. unfold within. cbn in *. lia.
Qed.

Lemma concat_snoc_length : forall (cur : list codepoints) d,
  length (concat (cur ++ [d])) = length (concat cur) + length d.
Proof. intros cur d. rewrite concat_app, length_app. cbn. rewrite app_nil_r. lia. Qed.

Lemma if_zero : forall b : bool, (if b then 0 else 0) = 0.
Proof. intros []; reflexivity. Qed.

Section Bounded.

Variables chunk_size chunk_overlap : nat.
Hypothesis chunk_size_gt_1 : 1 < chunk_size.

Lemma pop_loop_total : forall _len current_doc total cd t,
  total = length (concat current_doc) ->
  pop_loop chunk_size chunk_overlap 0 _len current_doc total = (cd, t) ->
  t = length (concat cd) /\ (t + _len <= chunk_size \/ t = 0).
Proof.
  induction current_doc as [|d rest IH]; intros total cd t Ht H.
  - cbn in H. inversion H; subst. cbn. auto.
  - cbn [pop_loop] in H.
    rewrite !if_zero in H.
    destruct ((chunk_overlap <? total)%nat
              || (chunk_size <? total + _len + 0)%nat && (0 <? total)%nat) eqn:C.
    + apply IH in H; [exact H|]. subst total. cbn [concat]. rewrite length_app. lia.
    + inversion H; subst cd t. split; [exact Ht|].
      apply orb_false_iff in C. destruct C as [_ C]. apply andb_false_iff in C.
      destruct C as [C|C]; [apply Nat.ltb_ge in C; lia | apply Nat.ltb_ge in C; lia].
Qed.

Lemma merge_step_inv : forall st d,
  merge_inv chunk_size st -> length d < chunk_size ->
  merge_inv chunk_size (merge_step chunk_size chunk_overlap [] st d).
Proof.
  intros [[docs cur] total] d (Hdocs & Ht & Hle) Hd. unfold merge_step.
  cbn [length].
  rewrite !if_zero. pose proof if_zero as Hz.
  destruct (chunk_size <? total + length d + 0)%nat eqn:C.
  - destruct cur as [|c0 cur].
    + rewrite Hz. cbn in Ht. subst total. unfold merge_inv.
      rewrite concat_snoc_length. cbn. repeat split; auto; lia.
    + destruct (pop_loop chunk_size chunk_overlap 0 (length d) (c0 :: cur) total)
        as [cd t] eqn:P.
      destruct (pop_loop_total _ _ Ht P) as (Ht' & Hor).
      rewrite Hz. unfold merge_inv. split; [|split].
      * destruct (_join_docs (c0 :: cur) []) as [doc|] eqn:J; [|exact Hdocs].
        apply Forall_app. split; [exact Hdocs|]. constructor; [|constructor].
        apply (join_docs_within _ J). lia.
      * rewrite concat_snoc_length. lia.
      * lia.
  - apply Nat.ltb_ge in C. rewrite Hz. unfold merge_inv. split; [exact Hdocs|].
    rewrite concat_snoc_length. lia.
Qed.

Lemma merge_splits_within : forall splits,
  Forall (fun s => length s < chunk_size) splits ->
  Forall (within chunk_size) (_merge_splits chunk_size chunk_overlap splits []).
Proof.
  intros splits Hs. unfold _merge_splits.
  assert (Hinv : merge_inv chunk_size (fold_left (merge_step chunk_size chunk_overlap []) splits
                                      ([], [], 0))).
  { assert (H0 : merge_inv chunk_size ([], [], 0)) by (cbn; repeat split; auto; lia).
    revert H0. generalize (([], [], 0) : list codepoints * list codepoints * nat).
    induction Hs as [|s splits Hlen Hs IH]; intros st Hst; cbn [fold_left]; [exact Hst|].
    apply IH. now apply merge_step_inv. }
  destruct (fold_left _ splits _) as [[docs cur] total].
  destruct Hinv as (Hdocs & Ht & Hle).
  destruct (_join_docs cur []) as [doc|] eqn:J; [|exact Hdocs].
  apply Forall_app. split; [exact Hdocs|]. constructor; [|constructor].
  apply (join_docs_within _ J). lia.
Qed.

Lemma split_loop_within : forall recurse splits good final,
  match recurse with
  | None => Forall (fun s => length s < chunk_size) splits
  | Some f => forall s, Forall (within chunk_size) (f s)
  end ->
  Forall (fun s => length s < chunk_size) good ->
  Forall (within chunk_size) final ->
  Forall (within chunk_size) (split_loop chunk_size chunk_overlap recurse splits good final).
Proof.
  intros recurse splits. induction splits as [|s rest IH]; intros good final Hr Hg Hf.
  - cbn. destruct good; [exact Hf|]. apply Forall_app. split; [exact Hf|].
    now apply merge_splits_within.
  - cbn [split_loop]. destruct (length s <? chunk_size)%nat eqn:L.
    + apply Nat.ltb_lt in L. apply IH; auto.
      * destruct recurse; [exact Hr|]. now inversion Hr.
      * apply Forall_app. split; [exact Hg|]. constructor; [exact L|constructor].
    + apply IH; [| constructor |].
      * destruct recurse; [exact Hr|]. now inversion Hr.
      * assert (Hf' : Forall (within chunk_size)
                        match good with
                        | [] => final
                        | _ :: _ => final ++ _merge_splits chunk_size chunk_overlap good []
                        end).
        { destruct good; [exact Hf|]. apply Forall_app. split; [exact Hf|].
          now apply merge_splits_within. }
        destruct recurse as [f|].
        -- apply Forall_app. split; [exact Hf'|apply Hr].
        -- apply Nat.ltb_ge in L. inversion Hr; subst. lia.
Qed.

Lemma split_text_within : forall seps text,
  In [] seps ->
  Forall (within chunk_size) (_split_text chunk_size chunk_overlap seps text).
Proof.
  induction seps as [|s rest IH]; intros text Hin; [contradiction|].
  cbn [_split_text]. destruct s as [|c s].
  - cbn [is_empty]. apply split_loop_within; [|constructor|constructor].
    unfold _split_text_with_regex. apply Forall_forall. intros p Hp.
    apply filter_In in Hp. destruct Hp as [Hp _]. apply in_map_iff in Hp.
    destruct Hp as (a & <- & _). cbn. lia.
  - cbn [is_empty]. destruct Hin as [Hin|Hin]; [discriminate|].
    destruct rest as [|r rest]; [contradiction|].
    destruct (contains (c :: s) text).
    + apply split_loop_within; [|constructor|constructor].
      intros p. now apply IH.
    + now apply IH.
Qed.

End Bounded.

(** X14.  With a chunk size above 1 and an overlap the splitter accepts
    (not above the chunk size), [split_text] returns, and every chunk it
    yields has at least one character and at most [CHUNK_SIZE], counted as
    [len] counts them. *)
Theorem X14_chunks_fit_the_chunk_size :
  forall E text,
    1 < CHUNK_SIZE (settings E) ->
    CHUNK_OVERLAP (settings E) <= CHUNK_SIZE (settings E) ->
    exists chunks,
      split_text E text = Ok chunks
      /\ Forall (fun chunk => 1 <= length chunk <= CHUNK_SIZE (settings E)) chunks.
Proof.
  intros E text Hcs Hov. rewrite (split_text_accepts E text Hov).
  eexists. split; [reflexivity|].
  apply (@split_text_within (CHUNK_SIZE (settings E)) (CHUNK_OVERLAP (settings E)) Hcs).
  unfold separators. cbn. auto.
Qed.

Lemma X14_witness :
  exists chunks,
    split_text sample_env (codepoints_of_string "Quarterly revenue grew.") = Ok chunks
    /\ Forall (fun chunk => 1 <= length chunk <= 1000) chunks.
Proof.
  apply (@X14_chunks_fit_the_chunk_size sample_env
           (codepoints_of_string "Quarterly revenue grew.")); cbn; lia.
Defined.

Lemma insert_asc_perm : forall m l, Permutation (insert_asc m l) (m :: l).
Proof.
  induction l as [|x l IH]; cbn; auto.
  destruct (Message.createdAt m <=? Message.createdAt x)%nat; auto.
  rewrite IH. apply perm_swap.
Qed.

Lemma order_by_createdAt_asc_perm : forall l, Permutation (order_by_createdAt_asc l) l.
Proof.
  induction l as [|m l IH]; cbn; auto.
  rewrite insert_asc_perm. now constructor.
Qed.

Lemma insert_asc_sorted : forall m l,
  StronglySorted not_later l -> StronglySorted not_later (insert_asc m l).
Proof.
  induction l as [|x l IH]; intros Hs; cbn; [repeat constructor|].
  inversion Hs as [|x' l' Hl Hx]; subst.
  destruct (Message.createdAt m <=? Message.createdAt x)%nat eqn:L.
  - apply Nat.leb_le in L. constructor; [exact Hs|]. constructor; [exact L|].
    eapply Forall_impl; [|exact Hx]. unfold not_later. intros a Ha. lia.
  - apply Nat.leb_gt in L. constructor; [now apply IH|].
    rewrite Forall_forall in *. intros y Hy.
    apply (Permutation_in _ (insert_asc_perm m l)) in Hy.
    destruct Hy as [<-|Hy]; unfold not_later in *; [lia|auto].
Qed.

Lemma order_by_createdAt_asc_sorted : forall l,
  StronglySorted not_later (order_by_createdAt_asc l).
Proof.
  induction l as [|m l IH]; cbn; [constructor|]. now apply insert_asc_sorted.
Qed.

Lemma insert_asc_before_last : forall x l um,
  Message.createdAt x <= Message.createdAt um ->
  insert_asc x (l ++ [um]) = insert_asc x l ++ [um].
Proof.
  induction l as [|y l IH]; intros um H; cbn.
  - apply Nat.leb_le in H. now rewrite H.
  - destruct (Message.createdAt x <=? Message.createdAt y)%nat; [reflexivity|].
    now rewrite IH.
Qed.

Lemma order_asc_snoc_latest : forall l um,
  (forall x, In x l -> Message.createdAt x <= Message.createdAt um) ->
  order_by_createdAt_asc (l ++ [um]) = order_by_createdAt_asc l ++ [um].
Proof.
  induction l as [|x l IH]; intros um H; cbn; [reflexivity|].
  unfold order_by_createdAt_asc in IH. rewrite IH by (intros; apply H; cbn; auto).
  apply insert_asc_before_last. apply H. cbn. auto.
Qed.

Lemma get_messages_run : forall cid page limit w,
  get_messages cid page limit w
  = (Ok (mkMessageList cid
           (map (fun m => response_of m (attached_documents_of (db w) (Message.id m)))
                (firstn limit (skipn ((page - 1) * limit)
                                     (order_by_createdAt_asc (chat_messages (db w) cid)))))
           (length (firstn limit (skipn ((page - 1) * limit)
                                        (order_by_createdAt_asc (chat_messages (db w) cid)))))
           page limit), w).
Proof.
  intros cid page limit w. unfold get_messages, chat_messages. step.
  now rewrite length_map.
Qed.

Lemma in_firstn : forall {A} n (l : list A) x, In x (firstn n l) -> In x l.
Proof.
  intros A n. induction n as [|n IH]; intros [|a l] x H; cbn in *; try contradiction.
  destruct H as [H|H]; auto.
Qed.

Lemma in_skipn : forall {A} n (l : list A) x, In x (skipn n l) -> In x l.
Proof.
  intros A n. induction n as [|n IH]; intros [|a l] x H; cbn in *; auto.
Qed.

Lemma StronglySorted_firstn : forall {A} (R : A -> A -> Prop) n l,
  StronglySorted R l -> StronglySorted R (firstn n l).
Proof.
  intros A R n l H. revert n. induction H as [|a l Hs IH Hf]; intros [|n]; cbn;
    try constructor; auto.
  apply Forall_forall. intros x Hx. apply in_firstn in Hx.
  rewrite Forall_forall in Hf. auto.
Qed.

Lemma StronglySorted_skipn : forall {A} (R : A -> A -> Prop) n l,
  StronglySorted R l -> StronglySorted R (skipn n l).
Proof.
  intros A R n. induction n as [|n IH]; intros l H; [exact H|].
  destruct l as [|a l]; [constructor|]. cbn. apply IH. now inversion H.
Qed.

Lemma StronglySorted_map : forall {A B} (f : A -> B) (R : A -> A -> Prop)
    (S : B -> B -> Prop) l,
  (forall a b, R a b -> S (f a) (f b)) ->
  StronglySorted R l -> StronglySorted S (map f l).
Proof.
  intros A B f R S l H Hs. induction Hs as [|a l Hs IH Hf]; cbn; constructor; auto.
  apply Forall_map. eapply Forall_impl; [|exact Hf]. intros b. apply H.
Qed.

(** X15.  [get_messages] never raises and changes nothing.  Its total is the
    number of messages on the page, not in the chat, and is at most the
    limit; the page is in ascending order of creation; every entry is of the
    chat asked for and is a stored row that is not deleted. *)
Theorem X15_a_page_is_a_sorted_slice_of_the_chat :
  forall chat_id page limit w,
  exists r,
    get_messages chat_id page limit w = (Ok r, w)
    /\ list_total r = length (list_messages r)
    /\ list_total r <= limit
    /\ StronglySorted (fun a b => resp_created_at a <= resp_created_at b) (list_messages r)
    /\ Forall (fun m => resp_chat_id m = chat_id
                        /\ exists row, In row (messages (db w))
                                       /\ Message.deletedAt row = None
                                       /\ resp_id m = Message.id row
                                       /\ resp_content m = Message.content row)
              (list_messages r).
Proof.
  intros cid page limit w. rewrite get_messages_run. eexists. split; [reflexivity|].
  cbn [list_total list_messages]. rewrite length_map.
  split; [reflexivity|]. split; [apply firstn_le_length|]. split.
  - apply (StronglySorted_map _ (R := not_later)); [intros a b H; exact H|].
    apply StronglySorted_firstn, StronglySorted_skipn, order_by_createdAt_asc_sorted.
  - apply Forall_map. apply Forall_forall. intros m Hm.
    apply in_firstn, in_skipn in Hm. rename Hm into Hin.
    apply (Permutation_in _ (order_by_createdAt_asc_perm _)) in Hin.
    unfold chat_messages in Hin. apply filter_In in Hin. destruct Hin as [Hin Hp].
    apply andb_true_iff in Hp. destruct Hp as [Hc Hd]. apply String.eqb_eq in Hc.
    cbn. split; [exact Hc|]. exists m. repeat split; auto.
    destruct (Message.deletedAt m); [discriminate|reflexivity].
Qed.

Lemma pages_concat : forall {A} (l : list A) limit n,
  concat (map (fun page => firstn limit (skipn ((page - 1) * limit) l)) (seq 1 n))
  = firstn (n * limit) l.
Proof.
  intros A l limit n. induction n as [|n IH]; [reflexivity|].
  rewrite seq_S, map_app, concat_app, IH. cbn [map concat Nat.add].
  rewrite app_nil_r. replace (S n - 1) with n by lia.
  replace (S n * limit) with (n * limit + limit) by lia.
  rewrite <- (firstn_skipn (n * limit) l) at 3.
  rewrite firstn_app.
  destruct (Nat.le_gt_cases (n * limit) (length l)) as [Hle|Hgt].
  - rewrite length_firstn, Nat.min_l by exact Hle.
    replace (n * limit + limit - n * limit) with limit by lia.
    rewrite firstn_firstn, Nat.min_r by lia. reflexivity.
  - rewrite skipn_all2 by lia. rewrite !firstn_nil, !app_nil_r.
    rewrite firstn_firstn, Nat.min_r by lia. reflexivity.
Qed.

(** X16.  Read one after the other, pages 1 to n list the first n * limit
    messages of the chat in its order of creation, nothing skipped and
    nothing repeated from one page to the next; that order is a
    rearrangement of the non-deleted messages of the chat. *)
Theorem X16_pages_tile_the_chat :
  forall chat_id limit n w,
    map resp_id (concat (map (fun page => page_of chat_id page limit w) (seq 1 n)))
    = firstn (n * limit)
             (map Message.id (order_by_createdAt_asc (chat_messages (db w) chat_id)))
    /\ Permutation (order_by_createdAt_asc (chat_messages (db w) chat_id))
                   (chat_messages (db w) chat_id).
Proof.
  intros cid limit n w. split; [|apply order_by_createdAt_asc_perm].
  rewrite <- (pages_concat (map Message.id
                              (order_by_createdAt_asc (chat_messages (db w) cid))) limit n).
  rewrite concat_map, map_map. f_equal. apply map_ext. intros page.
  unfold page_of. rewrite get_messages_run. cbn [fst list_messages].
  rewrite map_map. cbn [response_of resp_id].
  rewrite skipn_map, firstn_map. reflexivity.
Qed.

(** X17.  After a request that succeeded, with no stored message stamped at
    or after the clock reading at its start, the first page of the chat with
    room for all its messages lists the messages the chat had before, then
    the user turn and the assistant turn the request reported, in that
    order. *)
Theorem X17_posted_turns_are_read_back_last :
  forall E message_data w resp w' limit,
    post_messages E message_data w = (Ok resp, w') ->
    no_message_from_the_future w ->
    length (chat_messages (db w') (resp_chat_id (user_message resp))) <= limit ->
    exists older u a,
      page_of (resp_chat_id (user_message resp)) 1 limit w' = older ++ [u; a]
      /\ map resp_id older
         = map Message.id
               (order_by_createdAt_asc
                  (chat_messages (db w) (resp_chat_id (user_message resp))))
      /\ resp_id u = resp_id (user_message resp)
      /\ resp_role u = "user" /\ resp_content u = content message_data
      /\ resp_id a = resp_id (assistant_message resp)
      /\ resp_role a = "assistant"
      /\ resp_content a = resp_content (assistant_message resp).
Proof.
  intros E message_data w resp w' limit H Hfut Hlen.
  destruct (post_messages_ok_inv _ _ _ H)
    as (um & am & Hm & Hru & Hra & Hcu & Hcid & Hdu & Hda & Hclk & Hlt & Hiu & Hia & Hca
        & Hrc).
  set (cid := resp_chat_id (user_message resp)) in *.
  assert (Hf : chat_messages (db w') cid = chat_messages (db w) cid ++ [um; am]).
  { unfold chat_messages. rewrite Hm, filter_app. cbn [filter].
    rewrite <- Hcid, <- Hrc, Hdu, Hda, String.eqb_refl. reflexivity. }
  assert (Hs : order_by_createdAt_asc (chat_messages (db w') cid)
               = order_by_createdAt_asc (chat_messages (db w) cid) ++ [um; am]).
  { rewrite Hf. change [um; am] with ([um] ++ [am]). rewrite app_assoc.
    rewrite order_asc_snoc_latest.
    - rewrite order_asc_snoc_latest; [now rewrite <- app_assoc|].
      intros x Hx. unfold chat_messages in Hx. apply filter_In in Hx.
      destruct Hx as [Hx _]. apply Hfut in Hx. lia.
    - intros x Hx. apply in_app_or in Hx. destruct Hx as [Hx|[<-|[]]]; [|lia].
      unfold chat_messages in Hx. apply filter_In in Hx.
      destruct Hx as [Hx _]. apply Hfut in Hx. lia. }
  unfold page_of. rewrite get_messages_run. cbn [fst list_messages].
  cbn [Nat.sub Nat.mul skipn]. rewrite firstn_all2.
  2:{ rewrite (Permutation_length (order_by_createdAt_asc_perm _)). exact Hlen. }
  rewrite Hs, map_app. cbn [map].
  eexists _, _, _. split; [reflexivity|].
  rewrite map_map. cbn [response_of resp_id resp_role resp_content].
  rewrite Hru, Hra, Hiu, Hia, Hca, Hcu. repeat split; reflexivity.
Qed.

Lemma X17_witness :
  exists resp w' older u a,
    post_messages sample_env
      (mkMessageCreate "What changed?" (Some "chat-1") None None "default-user") sample_world
    = (Ok resp, w')
    /\ page_of "chat-1" 1 50 w' = older ++ [u; a]
    /\ map resp_id older = ["msg-1"; "msg-2"]
    /\ resp_content u = "What changed?"
    /\ resp_role a = "assistant".
Proof.
  assert (H : exists resp w',
    post_messages sample_env
      (mkMessageCreate "What changed?" (Some "chat-1") None None "default-user") sample_world
    = (Ok resp, w') /\ resp_chat_id (user_message resp) = "chat-1"
    /\ length (chat_messages (db w') "chat-1") = 4)
    by (vm_compute; eexists _, _; repeat split; reflexivity).
  destruct H as (resp & w' & H & Hc & Hl).
  destruct (@X17_posted_turns_are_read_back_last sample_env _ sample_world resp w' 50 H)
    as (older & u & a & H1 & H2 & _ & _ & H3 & _ & H4 & _).
  - intros m Hm. cbn in Hm. destruct Hm as [<-|[<-|[]]]; cbn; lia.
  - rewrite Hc, Hl. lia.
  - rewrite Hc in H1, H2. exists resp, w', older, u, a. repeat split; auto.
Defined.
